(** * india-export-import: the acquisition loop and the extraction pipeline

    A shallow embedding of [fetch.py] (the backward crawl over calendar
    months and the validation of one download) and of [parse.py] (header
    detection, row normalisation and the cleaning of the merged dataset),
    with the properties of the specification stated and proved over it.
    Further modules embed the rest of [parse.py] (the paths of the archives,
    the entries of one archive, the run as a whole) and the aggregations of
    [data.py], with properties read off the code.

    Conventions of the embedding.
    - A Python function that can raise returns an [outcome]; [Raise] carries
      the exception class.
    - Library calls whose result depends on the outside world
      ([requests.get], [zipfile.ZipFile], [pd.read_excel], [pd.to_numeric])
      are parameters of the sections that use them.
    - Text is a [string] of ASCII characters: [upper], [lower] and the two
      whitespace predicates act on code points below 128 and leave the rest
      unchanged.
    - [bytes] are [list byte]. *)

From Stdlib Require Import ZArith Lia Ascii String.
From Stdlib Require Import Strings.Byte.
From stdpp Require Import base decidable option list strings gmap sorting pretty.

Local Open Scope string_scope.

(** ** Exceptions *)

Inductive exn : Set :=
  | ValueError
  | IndexError
  | OtherError.

Inductive outcome (A : Type) : Type :=
  | Return (a : A)
  | Raise (e : exn).
Arguments Return {A} a.
Arguments Raise {A} e.

Definition bind {A B} (m : outcome A) (k : A -> outcome B) : outcome B :=
  match m with
  | Return a => k a
  | Raise e => Raise e
  end.

Notation "'let*' x ':=' m 'in' k" := (bind m (fun x => k))
  (at level 10, x name, m at level 100, k at level 200).

(** [try: m except Exception: h] *)
Definition try_except {A} (m : outcome A) (h : exn -> outcome A) : outcome A :=
  match m with
  | Return a => Return a
  | Raise e => h e
  end.

(** ** Bytes *)

Definition bytes := list byte.

#[global] Instance byte_eq_dec : EqDecision byte := Byte.byte_eq_dec.

(** ** The two series

    Both scripts name them by the strings ['import'] and ['export']. *)
Inductive data_type : Set := import | export.

Definition data_type_str (t : data_type) : string :=
  match t with import => "import" | export => "export" end.

#[global] Instance data_type_eq_dec : EqDecision data_type.
Proof. solve_decision. Defined.

(** * fetch.py *)

Module Fetch.

(** [datetime(year, month, 1)]: the day is always 1, so a date is a year and
    a month. The constructor raises [ValueError] outside
    [MINYEAR..MAXYEAR] x [1..12]. *)
Record datetime : Set := mk_date { year : Z; month : Z }.

#[global] Instance datetime_eq_dec : EqDecision datetime.
Proof. solve_decision. Defined.

Definition valid_date (y m : Z) : bool :=
  ((1 <=? y) && (y <=? 9999) && (1 <=? m) && (m <=? 12))%Z.

Definition new_datetime (y m : Z) : outcome datetime :=
  if valid_date y m then Return (mk_date y m) else Raise ValueError.

(** [calendar.month_abbr] *)
Definition month_abbr (m : Z) : string :=
  match m with
  | 1 => "Jan" | 2 => "Feb" | 3 => "Mar" | 4 => "Apr"
  | 5 => "May" | 6 => "Jun" | 7 => "Jul" | 8 => "Aug"
  | 9 => "Sep" | 10 => "Oct" | 11 => "Nov" | 12 => "Dec"
  | _ => ""
  end%Z.

Definition get_month_string (date : datetime) : string :=
  month_abbr (month date) +:+ "-" +:+ pretty (year date).

(** What [requests.get] can do. *)
Inductive get_outcome : Type :=
  | Response (status_code : Z) (content : bytes)
  | GetRequestException
  | GetOtherException.

(** What [zipfile.ZipFile(io.BytesIO(content))] can do. *)
Inductive zip_outcome : Set :=
  | ZipOpened
  | ZipBadZipFile
  | ZipOtherException.

Definition build_url (date : datetime) (t : data_type) : string :=
  let month_str := get_month_string date in
  let eximp_param := match t with import => "I" | export => "E" end in
  "https://ftddp.dgciskol.gov.in/dgcis/freeuserDownload"
  +:+ "?eximp=" +:+ eximp_param
  +:+ "&datepicker=" +:+ month_str
  +:+ "&datepicker1=" +:+ month_str
  +:+ "&commodities=A"
  +:+ "&countries=A"
  +:+ "&type=10"
  +:+ "&ports=A"
  +:+ "&regions=undefined"
  +:+ "&sorted=Order%20By%20HS_CODE,CTY,Value%20DESC"
  +:+ "&currency=B"
  +:+ "&reg=2".

(** [b'PK'] *)
Definition PK : bytes := [x50; x4b]%byte.

Section fetch.
(** [zipfile.ZipFile] on a payload. *)
Variable ZipFile : bytes -> zip_outcome.

(** The body of the [try] of [fetch_month_data], from the answer of
    [requests.get]: every path returns, none raises. *)
Definition validate (r : get_outcome) : option bytes :=
  match r with
  | Response status_code content =>
      if negb (status_code =? 200)%Z then None
      else if (length content <? 4)%nat then None
      else if negb (bool_decide (take 2 content = PK)) then None
      else match ZipFile content with
           | ZipOpened => Some content
           | ZipBadZipFile => None
           | ZipOtherException => None
           end
  | GetRequestException => None
  | GetOtherException => None
  end.

(** [fetch_month_data(year, month, data_type)]; [get] is [requests.get]
    at the moment of the call. *)
Definition fetch_month_data (get : string -> get_outcome)
    (year month : Z) (t : data_type) : outcome (option bytes) :=
  let* date := new_datetime year month in
  Return (validate (get (build_url date t))).
End fetch.

(** ** The crawl *)

(** [f"{month:02d}"] *)
Definition pad2 (m : Z) : string :=
  if (0 <=? m)%Z && (m <? 10)%Z then "0" +:+ pretty m else pretty m.

(** [Path("raw") / data_type / str(year) / f"{month:02d}.zip"] *)
Definition artifact_path (t : data_type) (year month : Z) : string :=
  "raw/" +:+ data_type_str t +:+ "/" +:+ pretty year +:+ "/" +:+ pad2 month +:+ ".zip".

(** [consecutive_failures = {'import': 0, 'export': 0}] *)
Record failures : Set := mk_failures { of_import : nat; of_export : nat }.

Definition get_failures (c : failures) (t : data_type) : nat :=
  match t with import => of_import c | export => of_export c end.

Definition set_failures (c : failures) (t : data_type) (n : nat) : failures :=
  match t with
  | import => mk_failures n (of_export c)
  | export => mk_failures (of_import c) n
  end.

(** [min(consecutive_failures.values())] *)
Definition min_failures (c : failures) : nat := Nat.min (of_import c) (of_export c).

Definition max_consecutive_failures : nat := 5.

(** One network request of the run: what was asked and whether the fetch
    gave a payload. *)
Record request : Set := mk_request {
  req_type : data_type;
  req_year : Z;
  req_month : Z;
  req_ok : bool
}.

(** The state of [main]: the cursor, the counters, the files under [raw/],
    the requests issued so far (oldest first) and the number of pauses. *)
Record crawl_state : Type := mk_state {
  current_date : datetime;
  consecutive_failures : failures;
  files : gset string;
  requests : list request;
  sleeps : nat
}.

(** [save_zip_file]: the archive is written under its path; only the set
    of paths matters to the crawl. *)
Definition save_zip_file (fs : gset string) (t : data_type) (year month : Z)
    : gset string :=
  {[ artifact_path t year month ]} ∪ fs.

(** Truth value of [content] in [if content:]. *)
Definition truthy (content : option bytes) : bool :=
  match content with
  | Some (_ :: _) => true
  | _ => false
  end.

(** The month before: [datetime(y - 1, 12, 1)] or [datetime(y, m - 1, 1)]. *)
Definition previous_month (d : datetime) : outcome datetime :=
  if (month d =? 1)%Z then new_datetime (year d - 1) 12
  else new_datetime (year d) (month d - 1).

Section crawl.
Variable ZipFile : bytes -> zip_outcome.
(** [http_get n url]: the answer to the request for [url] issued when [n]
    requests have been issued before it. *)
Variable http_get : nat -> string -> get_outcome.

(** The body of [for data_type in ['import', 'export']]; the boolean is
    [made_request]. *)
Definition process_series (t : data_type) (sm : crawl_state * bool)
    : outcome (crawl_state * bool) :=
  let '(st, made_request) := sm in
  let y := year (current_date st) in
  let m := month (current_date st) in
  let file_path := artifact_path t y m in
  if bool_decide (file_path ∈ files st) then
    Return (mk_state (current_date st)
              (set_failures (consecutive_failures st) t 0)
              (files st) (requests st) (sleeps st),
            made_request)
  else
    let* content := fetch_month_data ZipFile (http_get (length (requests st))) y m t in
    if truthy content then
      Return (mk_state (current_date st)
                (set_failures (consecutive_failures st) t 0)
                (save_zip_file (files st) t y m)
                (requests st ++ [mk_request t y m true])%list (sleeps st),
              true)
    else
      Return (mk_state (current_date st)
                (set_failures (consecutive_failures st) t
                   (S (get_failures (consecutive_failures st) t)))
                (files st)
                (requests st ++ [mk_request t y m false])%list (sleeps st),
              true).

(** One iteration of the [while]. *)
Definition loop_body (st : crawl_state) : outcome crawl_state :=
  let* sm1 := process_series import (st, false) in
  let* sm2 := process_series export sm1 in
  let st2 : crawl_state := fst sm2 in
  let made_request : bool := snd sm2 in
  let* d := previous_month (current_date st2) in
  Return (mk_state d (consecutive_failures st2) (files st2) (requests st2)
            (if made_request then S (sleeps st2) else sleeps st2)).

(** [n] iterations of the body, whatever the loop condition says. *)
Fixpoint iterate (n : nat) (st : crawl_state) : outcome crawl_state :=
  match n with
  | O => Return st
  | S n => let* st' := loop_body st in iterate n st'
  end.

(** How a bounded run of the [while] ends. *)
Inductive run : Type :=
  | Finished (st : crawl_state)
  | Crashed (e : exn)
  | OutOfFuel.

Definition loop_condition (st : crawl_state) : bool :=
  (min_failures (consecutive_failures st) <? max_consecutive_failures)%nat.

(** [while min(consecutive_failures.values()) < max_consecutive_failures],
    for at most [fuel] iterations. *)
Fixpoint while_loop (fuel : nat) (st : crawl_state) : run :=
  if loop_condition st then
    match fuel with
    | O => OutOfFuel
    | S fuel =>
        match loop_body st with
        | Return st' => while_loop fuel st'
        | Raise e => Crashed e
        end
    end
  else Finished st.

(** [main]: [today] is [datetime.now()], [fs] the files under [raw/]. *)
Definition main (fuel : nat) (today : datetime) (fs : gset string) : run :=
  match (if (month today =? 1)%Z then new_datetime (year today - 1) 12
         else new_datetime (year today) (month today - 1)) with
  | Raise e => Crashed e
  | Return current_date =>
      while_loop fuel (mk_state current_date (mk_failures 0 0) fs [] 0)
  end.
End crawl.

End Fetch.

(** * parse.py *)

Module Parse.

(** ** Text *)

Definition upper_ascii (c : ascii) : ascii :=
  let n := nat_of_ascii c in
  if (97 <=? n)%nat && (n <=? 122)%nat then ascii_of_nat (n - 32) else c.

Definition lower_ascii (c : ascii) : ascii :=
  let n := nat_of_ascii c in
  if (65 <=? n)%nat && (n <=? 90)%nat then ascii_of_nat (n + 32) else c.

Fixpoint upper (s : string) : string :=
  match s with
  | EmptyString => EmptyString
  | String c s => String (upper_ascii c) (upper s)
  end.

Fixpoint lower (s : string) : string :=
  match s with
  | EmptyString => EmptyString
  | String c s => String (lower_ascii c) (lower s)
  end.

(** [needle in hay] *)
Fixpoint str_in (needle hay : string) : bool :=
  String.prefix needle hay ||
  match hay with
  | EmptyString => false
  | String _ hay' => str_in needle hay'
  end.

(** Whitespace of Python's [str.strip()]. *)
Definition py_isspace (c : ascii) : bool :=
  let n := nat_of_ascii c in
  ((9 <=? n) && (n <=? 13) || (28 <=? n) && (n <=? 32))%nat.

(** Whitespace of Polars' [str.strip_chars()]. *)
Definition pl_isspace (c : ascii) : bool :=
  let n := nat_of_ascii c in
  ((9 <=? n) && (n <=? 13) || (n =? 32))%nat.

Section strip.
Variable isspace : ascii -> bool.

Fixpoint lstrip (s : string) : string :=
  match s with
  | EmptyString => EmptyString
  | String c s' => if isspace c then lstrip s' else s
  end.

Fixpoint rstrip (s : string) : string :=
  match s with
  | EmptyString => EmptyString
  | String c s' =>
      let r := rstrip s' in
      if String.eqb r "" && isspace c then "" else String c r
  end.

Definition strip (s : string) : string := rstrip (lstrip s).

Fixpoint all_space (s : string) : bool :=
  match s with
  | EmptyString => true
  | String c s' => isspace c && all_space s'
  end.
End strip.

(** ** Header detection *)

(** A cell of a pandas frame read with [dtype=str]: a string, the float
    [nan] of a missing cell, or the [None] of a padded column. *)
Inductive cell : Set :=
  | NaN
  | PyNone
  | Str (s : string).

#[global] Instance cell_eq_dec : EqDecision cell.
Proof. solve_decision. Defined.

(** The dict returned by [find_column_indices]. *)
Record indices : Set := mk_indices {
  commodity : option nat;
  country : option nat;
  port : option nat;
  unit : option nat;
  qty : option nat;
  inr : option nat;
  usd : option nat
}.

#[global] Instance indices_eq_dec : EqDecision indices.
Proof. solve_decision. Defined.

Definition no_indices : indices :=
  mk_indices None None None None None None None.

Definition is_None {A} (o : option A) : bool :=
  match o with None => true | Some _ => false end.

(** The body of the [for idx, val in enumerate(header_row)] loop. *)
Definition scan_cell (ind : indices) (idx : nat) (val : cell) : indices :=
  match val with
  | Str s =>
      let val_upper := upper s in
      if str_in "COMMODITY" val_upper && is_None (commodity ind) then
        mk_indices (Some idx) (country ind) (port ind) (unit ind) (qty ind) (inr ind) (usd ind)
      else if str_in "COUNTRY" val_upper && is_None (country ind) then
        mk_indices (commodity ind) (Some idx) (port ind) (unit ind) (qty ind) (inr ind) (usd ind)
      else if str_in "PORT" val_upper && is_None (port ind) then
        mk_indices (commodity ind) (country ind) (Some idx) (unit ind) (qty ind) (inr ind) (usd ind)
      else if String.eqb val_upper "UNIT" && is_None (unit ind) then
        mk_indices (commodity ind) (country ind) (port ind) (Some idx) (qty ind) (inr ind) (usd ind)
      else if String.eqb val_upper "QTY" && is_None (qty ind) then
        mk_indices (commodity ind) (country ind) (port ind) (unit ind) (Some idx) (inr ind) (usd ind)
      else if str_in "INR" val_upper || str_in "VALUE(INR)" val_upper then
        if is_None (inr ind) then
          mk_indices (commodity ind) (country ind) (port ind) (unit ind) (qty ind) (Some idx) (usd ind)
        else ind
      else if str_in "US $" val_upper || str_in "USD" val_upper || str_in "VALUE(US" val_upper then
        if is_None (usd ind) then
          mk_indices (commodity ind) (country ind) (port ind) (unit ind) (qty ind) (inr ind) (Some idx)
        else ind
      else ind
  | _ => ind
  end.

(** The loop from position [idx] on. *)
Fixpoint scan (idx : nat) (header_row : list cell) (ind : indices) : indices :=
  match header_row with
  | [] => ind
  | val :: rest => scan (S idx) rest (scan_cell ind idx val)
  end.

Definition find_column_indices (header_row : list cell) : indices :=
  scan 0 header_row no_indices.

(** ** Frames *)

(** A pandas frame read with [header=None]: [ncols] columns labelled
    [0 .. ncols-1] and the rows, each [ncols] cells wide. *)
Record DataFrame : Set := mk_df { ncols : nat; rows : list (list cell) }.

(** [df.empty]: some axis has length 0. *)
Definition df_empty (df : DataFrame) : bool :=
  (length (rows df) =? 0)%nat || (ncols df =? 0)%nat.

(** [df.iloc[i].tolist()] *)
Definition iloc_row (df : DataFrame) (i : nat) : outcome (list cell) :=
  match rows df !! i with
  | Some r => Return r
  | None => Raise IndexError
  end.

(** [df.iloc[k:]] *)
Definition iloc_from (df : DataFrame) (k : nat) : DataFrame :=
  mk_df (ncols df) (drop k (rows df)).

(** [df.iloc[:, j]] *)
Definition iloc_col (df : DataFrame) (j : nat) : outcome (list cell) :=
  if (j <? ncols df)%nat then Return ((fun r => nth j r NaN) <$> rows df)
  else Raise IndexError.

(** [for i in range(len(df.columns), max_col + 1): df[i] = None] *)
Definition pad_columns (df : DataFrame) (max_col : nat) : DataFrame :=
  mk_df (S max_col)
    ((fun r => (r ++ replicate (S max_col - ncols df) PyNone)%list) <$> rows df).

(** [df[mask]] and [series[mask]] *)
Fixpoint mask_filter {A} (mask : list bool) (l : list A) : list A :=
  match mask, l with
  | b :: mask, x :: l => if b then x :: mask_filter mask l else mask_filter mask l
  | _, _ => []
  end.

(** [str(x)] of a cell, as [Series.astype(str)] does it. *)
Definition astype_str (c : cell) : string :=
  match c with
  | NaN => "nan"
  | PyNone => "None"
  | Str s => s
  end.

(** One row of the final dataset; a Polars column can hold nulls, the
    string and date columns written by [parse_xls_file] never do, [Unit] is
    tested for null by [clean_data]. *)
Record TradeRecord : Set := mk_record {
  Commodity : string;
  Country : string;
  Port : string;
  Year : Z;
  Month : Z;
  Type_ : string;
  Quantity : option Z;
  Unit : option string;
  INR_Value : option Z;
  USD_Value : option Z
}.

#[global] Instance TradeRecord_eq_dec : EqDecision TradeRecord.
Proof. solve_decision. Defined.

(** A Polars frame with the ten columns; [pl.DataFrame()] is [[]]. *)
Definition frame : Set := list TradeRecord.

Definition is_empty (df : frame) : bool :=
  match df with [] => true | _ => false end.

(** ** Format detection *)

Inductive excel_format : Set := xlsx | xls.
Inductive engine : Set := openpyxl | xlrd.

Definition OLE2 : bytes := [xd0; xcf; x11; xe0; xa1; xb1; x1a; xe1]%byte.

Definition detect_excel_format (xls_data : bytes) : option excel_format :=
  if (length xls_data <? 8)%nat then None
  else if bool_decide (take 2 xls_data = [x50; x4b]%byte) then Some xlsx
  else if bool_decide (take 8 xls_data = OLE2) then Some xls
  else None.

(** ** Row normalisation *)

(** The filter on the stripped commodity text. *)
Definition valid_commodity (c : string) : bool :=
  negb (String.eqb c "") &&
  negb (bool_decide (upper c ∈ ["COMMODITY"; "NAN"; "NONE"; ""])).

(** [valid_indices]: the values of the dict that are not [None]. *)
Definition valid_indices (ind : indices) : list nat :=
  omap id [commodity ind; country ind; port ind; unit ind; qty ind; inr ind; usd ind].

(** [max(valid_indices)] on a non-empty list. *)
Definition list_max (l : list nat) : nat := foldr Nat.max 0%nat l.

(** Lines 175-181: when the largest mapped index is not a column of the
    frame, columns of [None] are added up to it. *)
Definition pad_to_indices (ind : indices) (data_df : DataFrame) : DataFrame :=
  let vi := valid_indices ind in
  if negb (is_None (head vi)) && (ncols data_df <=? list_max vi)%nat
  then pad_columns data_df (list_max vi) else data_df.

Section parse.
(** [pd.to_numeric(..., errors='coerce')] on the text of a cell, as the
    value of the [Int64] column it ends in: [None] when the text is not a
    number. *)
Variable to_numeric : string -> option Z.
(** [pd.read_excel] on a blob, with the given engine or auto-detection. *)
Variable read_excel : bytes -> option engine -> outcome DataFrame.
(** Whether [import xlrd] succeeds. *)
Variable xlrd_available : bool.

Definition parse_numeric_series (series : list cell) : list (option Z) :=
  (fun c => match c with Str s => to_numeric s | _ => None end) <$> series.

(** With [data_df] the rows kept by the commodity filter. *)
Definition safe_str_extract (data_df : DataFrame) (col_idx : option nat)
    (default : string) : outcome (list string) :=
  match col_idx with
  | None => Return (replicate (length (rows data_df)) default)
  | Some j =>
      let* col := iloc_col data_df j in
      Return ((fun c =>
                 let s := strip py_isspace (astype_str c) in
                 if String.eqb s "nan" then default else s) <$> col)
  end.

Definition safe_numeric_extract (data_df : DataFrame) (col_idx : option nat)
    : outcome (list (option Z)) :=
  match col_idx with
  | None => Return (replicate (length (rows data_df)) None)
  | Some j =>
      let* col := iloc_col data_df j in
      Return (parse_numeric_series col)
  end.

(** [pd.DataFrame({...})] of the ten series and its conversion to Polars:
    row [i] takes position [i] of every series. *)
Definition result_df (commodity_col country_col port_col : list string)
    (year month : Z) (import_export : string)
    (qty_col : list (option Z)) (unit_col : list string)
    (inr_col usd_col : list (option Z)) : frame :=
  imap (fun i c =>
          mk_record c (country_col !!! i) (port_col !!! i)
            year month import_export
            (qty_col !!! i) (Some (unit_col !!! i))
            (inr_col !!! i) (usd_col !!! i))
       commodity_col.

(** Lines 173-249 of [parse_xls_file]: from the column map and the data
    rows to the records of the sheet. [parse_xls_file] comes here with
    [commodity] mapped. *)
Definition normalize_rows (ind : indices) (data_df : DataFrame)
    (year month : Z) (t : data_type) : outcome frame :=
  let data_df := pad_to_indices ind data_df in
  match commodity ind with
  | None => Raise OtherError
  | Some ci =>
      let* raw := iloc_col data_df ci in
      let commodity_col := (fun c => strip py_isspace (astype_str c)) <$> raw in
      let valid_mask := valid_commodity <$> commodity_col in
      if negb (existsb id valid_mask) then Return []
      else
        let data_df := mk_df (ncols data_df) (mask_filter valid_mask (rows data_df)) in
        let commodity_col := mask_filter valid_mask commodity_col in
        let* country_col := safe_str_extract data_df (country ind) "" in
        let* port_col := safe_str_extract data_df (port ind) "" in
        let* unit_col := safe_str_extract data_df (unit ind) "N/A" in
        let* qty_col := safe_numeric_extract data_df (qty ind) in
        let* inr_col := safe_numeric_extract data_df (inr ind) in
        let* usd_col := safe_numeric_extract data_df (usd ind) in
        let import_export :=
          match t with import => "Import" | export => "Export" end in
        Return (result_df commodity_col country_col port_col year month
                  import_export qty_col unit_col inr_col usd_col)
  end.

(** The choice of the engine and the two attempts to read. *)
Definition read_sheet (xls_data : bytes) : outcome DataFrame :=
  let file_format := detect_excel_format xls_data in
  let engine :=
    match file_format with
    | Some xlsx => Some openpyxl
    | Some xls => if xlrd_available then Some xlrd else None
    | None => None
    end in
  try_except (read_excel xls_data engine)
    (fun e =>
       match engine with
       | Some _ => try_except (read_excel xls_data None) (fun e2 => Raise e2)
       | None => Raise e
       end).

(** The body of the [try] of [parse_xls_file]. *)
Definition parse_xls_body (xls_data : bytes) (year month : Z) (t : data_type)
    : outcome frame :=
  let* df_pandas := read_sheet xls_data in
  if df_empty df_pandas || (length (rows df_pandas) <? 2)%nat then Return []
  else
    let* header_row := iloc_row df_pandas 1 in
    let ind := find_column_indices header_row in
    if is_None (commodity ind) || is_None (country ind) then Return []
    else
      let data_df := iloc_from df_pandas 2 in
      if df_empty data_df then Return []
      else normalize_rows ind data_df year month t.

Definition parse_xls_file (xls_data : bytes) (year month : Z) (t : data_type)
    : outcome frame :=
  try_except (parse_xls_body xls_data year month t) (fun _ => Return []).
End parse.

(** ** Cleaning *)

(** The [when]/[then]/[otherwise] on [Unit]. *)
Definition clean_unit (u : option string) : option string :=
  match u with
  | None => Some "N/A"
  | Some s =>
      if String.eqb (strip pl_isspace s) "" || String.eqb (lower s) "nan"
      then Some "N/A" else Some s
  end.

(** [with_columns]: the casts are to the dtypes the columns already have;
    only [Unit] changes. *)
Definition with_columns (r : TradeRecord) : TradeRecord :=
  mk_record (Commodity r) (Country r) (Port r) (Year r) (Month r) (Type_ r)
    (Quantity r) (clean_unit (Unit r)) (INR_Value r) (USD_Value r).

Definition fill_null (d : Z) (o : option Z) : Z :=
  match o with Some z => z | None => d end.

(** The predicate under the [~] of the filter. *)
Definition all_zero (r : TradeRecord) : bool :=
  (fill_null 0 (Quantity r) =? 0)%Z &&
  (fill_null 0 (INR_Value r) =? 0)%Z &&
  (fill_null 0 (USD_Value r) =? 0)%Z.

(** Lexicographic order on pairs. *)
Definition lex_le {A B} (RA : relation A) (RB : relation B) : relation (A * B) :=
  fun p q => (RA p.1 q.1 /\ p.1 <> q.1) \/ (p.1 = q.1 /\ RB p.2 q.2).

#[global] Instance lex_le_dec {A B} (RA : relation A) (RB : relation B)
  `{EqDecision A, !RelDecision RA, !RelDecision RB} : RelDecision (lex_le RA RB).
Proof. intros p q. unfold lex_le. apply _. Defined.

(** The sort key [['Commodity', 'Country', 'Port', 'Year', 'Month', 'Type']]. *)
Definition sort_key : Type := string * (string * (string * (Z * (Z * string)))).

Definition key_of (r : TradeRecord) : sort_key :=
  (Commodity r, (Country r, (Port r, (Year r, (Month r, Type_ r))))).

Definition key_le : relation sort_key :=
  lex_le String.le (lex_le String.le (lex_le String.le
    (lex_le Z.le (lex_le Z.le String.le)))).

Definition record_le : relation TradeRecord :=
  fun r1 r2 => key_le (key_of r1) (key_of r2).

#[global] Instance key_le_dec : RelDecision key_le.
Proof. unfold key_le. apply _. Defined.

#[global] Instance record_le_dec : RelDecision record_le.
Proof. intros r1 r2. unfold record_le. apply _. Defined.

(** [df.unique()] and [df.sort(...)] leave open which of several equal rows
    is kept first and in which order rows with equal keys come out; the
    embedding takes [remove_dups] and the stable [merge_sort]. *)
Definition unique (df : frame) : frame := remove_dups df.

Definition sort (df : frame) : frame := merge_sort record_le df.

Definition clean_data (df : frame) : frame :=
  let df := unique df in
  let df := with_columns <$> df in
  let df := filter (fun r => negb (all_zero r) = true) df in
  sort df.

(** The fan-in of [main]: the non-empty results are concatenated and
    cleaned; with none, nothing is written. *)
Definition merge_results (results : list frame) : option frame :=
  let all_dataframes := filter (fun df => is_empty df = false) results in
  match all_dataframes with
  | [] => None
  | _ => Some (clean_data (concat all_dataframes))
  end.

End Parse.

(** * Definitions used to state the properties *)

Module FetchSpec.
Import Fetch.

(** The month before [d], as plain arithmetic. *)
Definition month_before (d : datetime) : datetime :=
  if (month d =? 1)%Z then mk_date (year d - 1) 12
  else mk_date (year d) (month d - 1).

(** [k] months before [d]. *)
Fixpoint months_before (k : nat) (d : datetime) : datetime :=
  match k with
  | O => d
  | S k => months_before k (month_before d)
  end.

(** Months since the start of year 0. *)
Definition month_index (d : datetime) : Z := 12 * year d + (month d - 1).

(** [d] is a date of [datetime] and so are the [k] months before it. *)
Definition can_go_back (k : nat) (d : datetime) : Prop :=
  valid_date (year d) (month d) = true /\ (12 + Z.of_nat k <= month_index d)%Z.

(** The requests of series [t] among [l]. *)
Definition requests_of (t : data_type) (l : list request) : list request :=
  filter (fun r => req_type r = t) l.

(** The two failed requests of the month [d], in the order of the loop. *)
Definition failed_requests (d : datetime) : list request :=
  [mk_request import (year d) (month d) false;
   mk_request export (year d) (month d) false].

(** The [k] months visited from [d] on, going back. *)
Fixpoint visited (k : nat) (d : datetime) : list datetime :=
  match k with
  | O => []
  | S k => d :: visited k (month_before d)
  end.

(** A run at March 2021 with the import archive of March under [raw/] and
    counters left at 4 and 1 by the months before. *)
Definition march_2021 : crawl_state :=
  mk_state (mk_date 2021 3) (mk_failures 4 1) {[ "raw/import/2021/03.zip" ]} [] 0.

(** All artifacts of the month of [d] are in [fs]. *)
Definition month_present (fs : gset string) (d : datetime) : Prop :=
  forall t, artifact_path t (year d) (month d) ∈ fs.

(** Every request of the run fails, whatever is asked and whenever. *)
Definition all_fail (ZipFile : bytes -> zip_outcome)
    (http_get : nat -> string -> get_outcome) : Prop :=
  forall n url, validate ZipFile (http_get n url) = None.

(** The artifact of series [t] for the month of the cursor is there. *)
Definition present (t : data_type) (st : crawl_state) : bool :=
  bool_decide (artifact_path t (year (current_date st)) (month (current_date st))
               ∈ files st).

End FetchSpec.

Module ParseSpec.
Import Parse.

(** ** Header detection *)

(** The canonical fields, in the order of the [if]/[elif] chain. *)
Inductive field : Set :=
  | F_commodity | F_country | F_port | F_unit | F_qty | F_inr | F_usd.

#[global] Instance field_eq_dec : EqDecision field.
Proof. solve_decision. Defined.

Definition get (f : field) (ind : indices) : option nat :=
  match f with
  | F_commodity => commodity ind
  | F_country => country ind
  | F_port => port ind
  | F_unit => unit ind
  | F_qty => qty ind
  | F_inr => inr ind
  | F_usd => usd ind
  end.

(** Position in the chain. *)
Definition rank (f : field) : nat :=
  match f with
  | F_commodity => 0 | F_country => 1 | F_port => 2 | F_unit => 3
  | F_qty => 4 | F_inr => 5 | F_usd => 6
  end.

(** The match rule of a field (the table of the specification), on the
    upper-cased cell text. *)
Definition rule (f : field) (val_upper : string) : bool :=
  match f with
  | F_commodity => str_in "COMMODITY" val_upper
  | F_country => str_in "COUNTRY" val_upper
  | F_port => str_in "PORT" val_upper
  | F_unit => String.eqb val_upper "UNIT"
  | F_qty => String.eqb val_upper "QTY"
  | F_inr => str_in "INR" val_upper || str_in "VALUE(INR)" val_upper
  | F_usd => str_in "US $" val_upper || str_in "USD" val_upper || str_in "VALUE(US" val_upper
  end.

(** A cell satisfies the rule of a field. *)
Definition satisfies (f : field) (val : cell) : bool :=
  match val with
  | Str s => rule f (upper s)
  | _ => false
  end.

(** The leftmost column whose cell satisfies the rule of [f]. *)
Definition leftmost (f : field) (header_row : list cell) : option nat :=
  fst <$> list_find (fun v => satisfies f v = true) header_row.

(** The state of the map after the cells [pre] have been scanned: a field
    has a column of [pre] whose cell satisfies its rule; no column has two
    fields; the column of [usd] does not satisfy the rule of [inr]; and a
    cell that satisfies the rule of [f] has given [f] a column at or before
    it, unless a field earlier in the chain took the cell or, for [usd],
    the cell satisfies the rule of [inr] as well. *)
Record scanned (pre : list cell) (ind : indices) : Prop := {
  sc_sound : forall f i, get f ind = Some i ->
    exists v, pre !! i = Some v /\ satisfies f v = true;
  sc_distinct : forall f g i, get f ind = Some i -> get g ind = Some i -> f = g;
  sc_usd : forall i v, get F_usd ind = Some i -> pre !! i = Some v ->
    satisfies F_inr v = false;
  sc_priority : forall f j v, pre !! j = Some v -> satisfies f v = true ->
    (exists i, get f ind = Some i /\ i <= j) \/
    (exists g, rank g < rank f /\ get g ind = Some j) \/
    (f = F_usd /\ satisfies F_inr v = true)
}.

(** ** Row normalisation, row by row *)

(** The text of column [j] of a row, as the string columns see it. *)
Definition cell_text (r : list cell) (j : nat) : string :=
  strip py_isspace (astype_str (nth j r NaN)).

(** A string field of a row: the default when the field has no column or
    the text is ["nan"]. *)
Definition str_value (col_idx : option nat) (default : string) (r : list cell)
    : string :=
  match col_idx with
  | None => default
  | Some j => if String.eqb (cell_text r j) "nan" then default else cell_text r j
  end.

(** A numeric field of a row. *)
Definition num_value (to_numeric : string -> option Z) (col_idx : option nat)
    (r : list cell) : option Z :=
  match col_idx with
  | None => None
  | Some j => match nth j r NaN with Str s => to_numeric s | _ => None end
  end.

(** The record of one data row under a column map. *)
Definition row_record (to_numeric : string -> option Z) (ind : indices)
    (year month : Z) (t : data_type) (r : list cell) : TradeRecord :=
  mk_record
    (match commodity ind with Some ci => cell_text r ci | None => "" end)
    (str_value (country ind) "" r)
    (str_value (port ind) "" r)
    year month
    (match t with import => "Import" | export => "Export" end)
    (num_value to_numeric (qty ind) r)
    (Some (str_value (unit ind) "N/A" r))
    (num_value to_numeric (inr ind) r)
    (num_value to_numeric (usd ind) r).

(** A row with [n] cells of [None] added, and the number of columns
    [pad_to_indices] adds. *)
Definition pad_row (n : nat) (r : list cell) : list cell :=
  (r ++ replicate n PyNone)%list.

Definition padding (ind : indices) (data_df : DataFrame) : nat :=
  ncols (pad_to_indices ind data_df) - ncols data_df.

(** The rows the commodity filter keeps. *)
Definition valid_row (ind : indices) (r : list cell) : Prop :=
  match commodity ind with
  | Some ci => valid_commodity (cell_text r ci) = true
  | None => False
  end.

#[global] Instance valid_row_dec ind r : Decision (valid_row ind r).
Proof. unfold valid_row. destruct (commodity ind); apply _. Defined.

(** The records of a sheet, row by row, from what reading the blob gave:
    nothing unless the frame has a title row, a header row that maps
    [commodity] and [country], and at least one column. *)
Definition sheet_records (to_numeric : string -> option Z)
    (read : outcome DataFrame) (year month : Z) (t : data_type) : frame :=
  match read with
  | Raise _ => []
  | Return df =>
      match rows df with
      | _ :: header_row :: data =>
          let ind := find_column_indices header_row in
          if (ncols df =? 0)%nat then []
          else if is_None (commodity ind) || is_None (country ind) then []
          else row_record to_numeric ind year month t
                 <$> filter (valid_row ind)
                       (pad_row (padding ind (mk_df (ncols df) data)) <$> data)
      | _ => []
      end
  end.

(** The three numeric fields and their columns in a record. *)
Definition numeric_fields : list field := [F_qty; F_inr; F_usd].

Definition numeric_of (f : field) (rec : TradeRecord) : option Z :=
  match f with
  | F_qty => Quantity rec
  | F_inr => INR_Value rec
  | F_usd => USD_Value rec
  | _ => None
  end.

(** ** Cleaning *)

(** A nullable integer that is null or zero. *)
Definition null_or_zero (o : option Z) : Prop := o = None \/ o = Some 0%Z.

(** The degenerate records of the specification. *)
Definition degenerate (r : TradeRecord) : Prop :=
  null_or_zero (Quantity r) /\ null_or_zero (INR_Value r) /\ null_or_zero (USD_Value r).

(** A unit that is null, blank or made of whitespace only, or equal to
    "nan" whatever the case of its letters. *)
Definition blank_unit (u : option string) : Prop :=
  match u with
  | None => True
  | Some s => all_space pl_isspace s = true \/ lower s = lower "nan"
  end.

(** What Polars promises of the cleaning, whichever of several equal rows
    [unique] keeps first and however [sort] orders rows with equal keys:
    [out] is sorted by the key and holds the cleaned, not all-zero rows of
    some duplicate-free list with the rows of [df]. *)
Definition cleaned (df out : frame) : Prop :=
  exists u, NoDup u /\ (forall r, r ∈ u <-> r ∈ df) /\
    out ≡ₚ filter (fun r => negb (all_zero r) = true) (with_columns <$> u) /\
    Sorted record_le out.

(** ** Data for the examples *)

(** The header row of the specification. *)
Definition spec_header : list cell :=
  [Str "S.No"; Str "Commodity Name"; Str "Country of Destination"; Str "QTY";
   Str "Unit"; Str "Value(INR)"; Str "Value(US $)"].

(** A header whose second cell satisfies the rules of two fields. *)
Definition export_header : list cell :=
  [Str "Commodity"; Str "Country of Export"; Str "Port"].

(** A number parser for the examples: unsigned decimal integers. *)
Fixpoint digits_value (acc : Z) (s : string) : option Z :=
  match s with
  | EmptyString => Some acc
  | String c s' =>
      match Ascii.is_nat c with
      | Some d => digits_value (10 * acc + Z.of_nat d) s'
      | None => None
      end
  end.

Definition digits_only (s : string) : option Z :=
  if String.eqb s "" then None else digits_value 0 s.

(** A frame two columns wide with one data row, and a column map that
    puts [port] and [qty] beyond it. *)
Definition narrow_frame : DataFrame := mk_df 2 [[Str "RICE"; Str "NEPAL"]].

Definition wide_indices : indices :=
  mk_indices (Some 0) (Some 1) (Some 2) None (Some 3) None None.

(** Two data rows three columns wide, the second with a quantity that is
    not a number, and the column map of the header
    [Commodity, Country, QTY]. *)
Definition small_data : DataFrame :=
  mk_df 3 [[Str "RICE"; Str "NEPAL"; Str "12"];
           [Str "WHEAT"; Str "BHUTAN"; Str "n.a."]].

Definition small_indices : indices :=
  mk_indices (Some 0) (Some 1) None None (Some 2) None None.

(** The sheet of the end-to-end example of the specification: three data
    rows and a row that repeats the header. *)
Definition echo_sheet : DataFrame :=
  mk_df 3 [[Str "Import statistics"; NaN; NaN];
           [Str "Commodity"; Str "Country"; Str "QTY"];
           [Str "RICE"; Str "NEPAL"; Str "12"];
           [Str "COMMODITY"; Str "COUNTRY"; Str "QTY"];
           [Str " WHEAT "; NaN; Str "120"];
           [Str "TEA"; Str "nan"; Str "twelve"]].

(** A sheet with the same row twice, the unit cell holding two spaces in the
    one and nothing in the other. *)
Definition unit_sheet : DataFrame :=
  mk_df 4 [[Str "Export statistics"; NaN; NaN; NaN];
           [Str "Commodity"; Str "Country"; Str "Unit"; Str "QTY"];
           [Str "RICE"; Str "NEPAL"; Str "  "; Str "12"];
           [Str "RICE"; Str "NEPAL"; NaN; Str "12"]].

(** A sheet without a country column. *)
Definition headless_sheet : DataFrame :=
  mk_df 2 [[Str "Export statistics"; NaN];
           [Str "Commodity"; Str "QTY"];
           [Str "RICE"; Str "12"]].

(** Records for the examples of the specification. *)
Definition rice (quantity : option Z) (unit_text : option string)
    (inr_value usd_value : option Z) : TradeRecord :=
  mk_record "RICE" "NEPAL" "KOLKATA" 2021 11 "Export"
    quantity unit_text inr_value usd_value.

(** Two batches of one record each; the records differ in the quantity
    only, so they have the same sort key. *)
Definition batch_one : frame := [rice (Some 1%Z) (Some "KG") (Some 2%Z) (Some 3%Z)].
Definition batch_two : frame := [rice (Some 7%Z) (Some "KG") (Some 2%Z) (Some 3%Z)].

(** Two rows that differ in the unit only: blank in one, "N/A" in the
    other. *)
Definition blank_unit_rows : frame :=
  [rice (Some 1%Z) (Some "") (Some 2%Z) (Some 3%Z);
   rice (Some 1%Z) (Some "N/A") (Some 2%Z) (Some 3%Z)].

End ParseSpec.

(** * fetch.py: what a run leaves behind *)

Module CrawlSpec.
Import Fetch FetchSpec.

(** The path under which the archive of a request is saved. *)
Definition request_path (r : request) : string :=
  artifact_path (req_type r) (req_year r) (req_month r).

(** The paths of the requests of [l] that gave an archive, in the order of
    the requests and as a set. *)
Definition saved_paths (l : list request) : list string :=
  request_path <$> filter (fun r => req_ok r = true) l.

Definition saved (l : list request) : gset string := list_to_set (saved_paths l).

(** The number of failed requests at the start of [l], and at its end. *)
Fixpoint leading_failures (l : list request) : nat :=
  match l with
  | [] => 0
  | r :: l' => if req_ok r then 0 else S (leading_failures l')
  end.

Definition trailing_failures (l : list request) : nat :=
  leading_failures (reverse l).

(** From the month [d] back, series [t] never fails: its archive is in
    [fs], or the source answers its request with a valid archive whenever
    it is asked. *)
Definition never_fails (ZipFile : bytes -> zip_outcome)
    (http_get : nat -> string -> get_outcome)
    (t : data_type) (fs : gset string) (d : datetime) : Prop :=
  forall k,
    artifact_path t (year (months_before k d)) (month (months_before k d)) ∈ fs \/
    forall n, validate ZipFile (http_get n (build_url (months_before k d) t)) <> None.

(** What one step of the [for] has done when it returns. *)
Inductive series_step (ZipFile : bytes -> zip_outcome)
    (http_get : nat -> string -> get_outcome)
    (t : data_type) (st : crawl_state) (made : bool)
    (st' : crawl_state) (made' : bool) : Prop :=
  | step_skip :
      present t st = true ->
      files st' = files st -> requests st' = requests st -> made' = made ->
      get_failures (consecutive_failures st') t = 0 ->
      series_step ZipFile http_get t st made st' made'
  | step_fetch (ok : bool) :
      present t st = false ->
      valid_date (year (current_date st)) (month (current_date st)) = true ->
      ok = bool_decide (validate ZipFile (http_get (length (requests st))
                          (build_url (current_date st) t)) <> None) ->
      requests st' =
        (requests st ++ [mk_request t (year (current_date st))
                           (month (current_date st)) ok])%list ->
      files st' =
        (if ok then save_zip_file (files st) t (year (current_date st))
                      (month (current_date st))
         else files st) ->
      made' = true ->
      get_failures (consecutive_failures st') t = (if ok then 0 else S (get_failures (consecutive_failures st) t)) ->
      series_step ZipFile http_get t st made st' made'.

(** The counter of a series never exceeds the number of failed requests at
    the end of the log of that series. *)
Definition counted (st : crawl_state) : Prop :=
  forall t, get_failures (consecutive_failures st) t <= trailing_failures (requests_of t (requests st)).

(** What a run has added to the log and to [raw/]. *)
Record extends (st st' : crawl_state) (new : list request) : Prop := {
  ex_requests : requests st' = (requests st ++ new)%list;
  ex_files : files st' = files st ∪ saved new;
  ex_absent : forall r, r ∈ new -> request_path r ∉ files st;
  ex_once : NoDup (saved_paths new);
  ex_sleeps : sleeps st <= sleeps st' <= sleeps st + length new;
  ex_two : length new <= 2 * (sleeps st' - sleeps st)
}.

(** A source that answers every request with the same four bytes, and an
    archive reader that accepts them. *)
Definition tiny_zip : bytes := [x50; x4b; x03; x04]%byte.
Definition source_up : nat -> string -> get_outcome :=
  fun _ _ => Response 200 tiny_zip.
Definition source_down : nat -> string -> get_outcome :=
  fun _ _ => GetRequestException.
Definition zip_ok : bytes -> zip_outcome := fun _ => ZipOpened.

(** A source that has the import series only. *)
Definition imports_only : nat -> string -> get_outcome :=
  fun _ url =>
    if String.prefix "https://ftddp.dgciskol.gov.in/dgcis/freeuserDownload?eximp=I" url
    then Response 200 tiny_zip else Response 404 [].

(** The state in which a run of November 2026 enters the loop when
    nothing is under [raw/]. *)
Definition fresh_start : crawl_state :=
  mk_state (mk_date 2026 10) (mk_failures 0 0) ∅ [] 0.

End CrawlSpec.

(** * parse.py: archives *)

Module Archive.
Import Parse.

(** ** Text *)

Definition is_digit (c : ascii) : bool :=
  let n := nat_of_ascii c in (48 <=? n)%nat && (n <=? 57)%nat.

Fixpoint all_digits (s : string) : bool :=
  match s with
  | EmptyString => true
  | String c s' => is_digit c && all_digits s'
  end.

(** [s.isdigit()], on ASCII text: the digits are [0] to [9]. *)
Definition isdigit (s : string) : bool :=
  negb (String.eqb s "") && all_digits s.

Fixpoint int_digits (acc : Z) (s : string) : Z :=
  match s with
  | EmptyString => acc
  | String c s' => int_digits (10 * acc + Z.of_nat (nat_of_ascii c - 48)) s'
  end.

(** [int(s)] on a string of digits. *)
Definition int (s : string) : Z := int_digits 0 s.

(** [s.endswith(suffix)] *)
Fixpoint endswith (suffix s : string) : bool :=
  String.eqb s suffix ||
  match s with
  | EmptyString => false
  | String _ s' => endswith suffix s'
  end.

(** [s.replace(old, '')] for a non-empty [old]: the occurrences of [old]
    are removed from left to right; [skip] counts the characters of an
    occurrence that are still to be dropped. *)
Fixpoint remove_go (old : string) (skip : nat) (s : string) : string :=
  match s with
  | EmptyString => EmptyString
  | String c s' =>
      match skip with
      | S k => remove_go old k s'
      | O =>
          if String.prefix old s then remove_go old (String.length old - 1) s'
          else String c (remove_go old 0 s')
      end
  end.

Definition remove (old s : string) : string := remove_go old 0 s.

(** ** Paths *)

(** The components of a relative path written with [/]: empty components
    and [.] are dropped, as [pathlib] does. *)
Fixpoint components (cur : string) (p : string) : list string :=
  match p with
  | EmptyString => [cur]
  | String c p' =>
      if Ascii.eqb c "/" then cur :: components "" p'
      else components (cur +:+ String c "") p'
  end.

Definition parts (p : string) : list string :=
  filter (fun x => x <> "" /\ x <> ".") (components "" p).

(** The three variables of [extract_path_info]. *)
Record path_info : Set := mk_info {
  info_year : option Z;
  info_month : option Z;
  info_type : option data_type
}.

#[global] Instance path_info_eq_dec : EqDecision path_info.
Proof. solve_decision. Defined.

(** The body of [for part in path_parts]. *)
Definition scan_part (info : path_info) (part : string) : path_info :=
  if String.eqb part "import" then
    mk_info (info_year info) (info_month info) (Some import)
  else if String.eqb part "export" then
    mk_info (info_year info) (info_month info) (Some export)
  else if isdigit part && (String.length part =? 4)%nat then
    mk_info (Some (int part)) (info_month info) (info_type info)
  else if endswith ".zip" part then
    let month_str := remove ".zip" part in
    if isdigit month_str then
      mk_info (info_year info) (Some (int month_str)) (info_type info)
    else info
  else info.

Definition extract_path_info (path_parts : list string) : path_info :=
  let info := foldl scan_part (mk_info None None None) path_parts in
  if negb (is_None (info_year info)) && negb (is_None (info_month info))
     && is_None (info_type info)
  then mk_info (info_year info) (info_month info) (Some import)
  else info.

(** ** The date range of the log *)

(** [pl.min] and [pl.max] of an integer column: null on an empty one. *)
Definition col_min (l : list Z) : option Z :=
  match l with
  | [] => None
  | x :: l' => Some (foldr Z.min x l')
  end.

Definition col_max (l : list Z) : option Z :=
  match l with
  | [] => None
  | x :: l' => Some (foldr Z.max x l')
  end.

(** [year_min], [month_min], [year_max] and [month_max] of [main]. *)
Definition date_range (df : frame)
    : option Z * option Z * option Z * option Z :=
  let year_min := col_min (Year <$> df) in
  let year_max := col_max (Year <$> df) in
  let month_min :=
    col_min (Month <$> filter (fun r => Some (Year r) = year_min) df) in
  let month_max :=
    col_max (Month <$> filter (fun r => Some (Year r) = year_max) df) in
  (year_min, month_min, year_max, month_max).

(** ** One archive *)

(** An opened [zipfile.ZipFile]: the names of its entries and what
    [z.read] gives for a name. *)
Record zip_archive : Type := mk_zip {
  namelist : list string;
  read : string -> outcome bytes
}.

(** [f.lower().endswith(('.xls', '.xlsx'))] *)
Definition is_spreadsheet (f : string) : bool :=
  endswith ".xls" (lower f) || endswith ".xlsx" (lower f).

Section archive.
Variable to_numeric : string -> option Z.
Variable read_excel : bytes -> option engine -> outcome DataFrame.
Variable xlrd_available : bool.
(** [zipfile.ZipFile(zip_path, 'r')] on the path with the given parts. *)
Variable ZipFile : list string -> outcome zip_archive.

(** The body of [for xls_file in xls_files], with its [try]: the frame to
    append to [all_data], if any. *)
Definition process_entry (z : zip_archive) (year month : Z) (t : data_type)
    (xls_file : string) : option frame :=
  match (let* xls_data := read z xls_file in
         parse_xls_file to_numeric read_excel xlrd_available xls_data year month t) with
  | Return df => if negb (is_empty df) then Some df else None
  | Raise _ => None
  end.

(** [process_zip_file] on the path with the given parts. *)
Definition process_zip_file (zip_path : list string) : frame :=
  let info := extract_path_info zip_path in
  match info_year info, info_month info, info_type info with
  | Some year, Some month, Some t =>
      match ZipFile zip_path with
      | Return z =>
          let xls_files := filter (fun f => is_spreadsheet f = true) (namelist z) in
          match xls_files with
          | [] => []
          | _ =>
              let all_data := omap (process_entry z year month t) xls_files in
              match all_data with
              | [] => []
              | _ => concat all_data
              end
          end
      | Raise _ => []
      end
  | _, _, _ => []
  end.

(** [process_zip_file_wrapper]: [process_zip_file] does not raise. *)
Definition process_zip_file_wrapper (zip_file : list string) : frame :=
  process_zip_file zip_file.

(** [main], from the sorted list of the archives under [raw/] to the
    dataset that is written; [None] when the run returns with nothing
    written. The line of the log with the date range formats the two months
    with [:02d], which raises [TypeError] on [None]; this comes before
    [save_output_files]. *)
Definition main (zip_files : list (list string)) : outcome (option frame) :=
  match zip_files with
  | [] => Return None
  | _ =>
      match merge_results (process_zip_file_wrapper <$> zip_files) with
      | None => Return None
      | Some combined_df =>
          match date_range combined_df with
          | (_, Some _, _, Some _) => Return (Some combined_df)
          | _ => Raise OtherError
          end
      end
  end.
End archive.

End Archive.

Module PathSpec.
Import Parse Archive.

(** [c] does not occur in [s]. *)
Fixpoint free_of (c : ascii) (s : string) : bool :=
  match s with
  | EmptyString => true
  | String c' s' => negb (Ascii.eqb c' c) && free_of c s'
  end.

(** What the decimal numeral of a year looks like. *)
Definition year_text_ok (y : Z) : bool :=
  free_of "/" (pretty y) && free_of "&" (pretty y) &&
  isdigit (pretty y) && (int (pretty y) =? y)%Z &&
  bool_decide ((String.length (pretty y) = 4) <-> (1000 <= y)%Z).

(** The loop of [extract_path_info] keeps these facts about its three
    variables. *)
Record scanned_parts (path_parts : list string) (info : path_info) : Prop := {
  sp_year : forall y, info_year info = Some y ->
    (0 <= y <= 9999)%Z /\
    exists p, p ∈ path_parts /\ isdigit p = true /\ String.length p = 4 /\ int p = y;
  sp_month : forall m, info_month info = Some m ->
    (0 <= m)%Z /\ exists p, p ∈ path_parts /\ endswith ".zip" p = true;
  sp_type : forall t, info_type info = Some t -> data_type_str t ∈ path_parts;
  sp_type_None : info_type info = None ->
    ("import" ∉ path_parts) /\ ("export" ∉ path_parts)
}.

End PathSpec.

(** * data.py *)

Module Data.
Import Parse.

(** The sum of an [Int64] column wraps around. *)
Definition wrap64 (z : Z) : Z :=
  ((z + 2 ^ 63) mod 2 ^ 64 - 2 ^ 63)%Z.

Definition sum_Z (l : list Z) : Z := foldr Z.add 0%Z l.

(** [pl.sum("USD Value")] over the rows of a group: nulls are skipped. *)
Definition sum_usd (rows : frame) : Z :=
  wrap64 (sum_Z (omap USD_Value rows)).

(** The sum of the column without the wrap. *)
Definition plain_sum (rows : frame) : Z := sum_Z (omap USD_Value rows).

Section group_by.
Context {K : Type} `{EqDecision K}.
Variable key : TradeRecord -> K.

(** [df.group_by(keys).agg(pl.sum("USD Value").alias("Total USD Value"))]:
    one row per key of [df], here in the order of first appearance; Polars
    leaves the order open. *)
Definition group_by_sum (df : frame) : list (K * Z) :=
  (fun k => (k, sum_usd (filter (fun r => key r = k) df)))
    <$> remove_dups (key <$> df).

(** [sort("Total USD Value", descending=True)] *)
Definition total_ge : relation (K * Z) := fun a b => (b.2 <= a.2)%Z.

#[global] Instance total_ge_dec : RelDecision total_ge.
Proof. intros a b. unfold total_ge. apply _. Defined.

Definition sort_desc (l : list (K * Z)) : list (K * Z) := merge_sort total_ge l.

Definition aggregate (df : frame) : list (K * Z) := sort_desc (group_by_sum df).
End group_by.

(** [sorted(df['Year'].unique().to_list())] *)
Definition available_years (df : frame) : list Z :=
  merge_sort Z.le (remove_dups (Year <$> df)).

(** The keys of the base file and of the three modes. *)
Definition base_key (r : TradeRecord) : string * string * string * string * Z :=
  (Country r, Commodity r, Port r, Type_ r, Year r).
Definition commodity_key (r : TradeRecord) : string * string := (Commodity r, Type_ r).
Definition country_key (r : TradeRecord) : string * string := (Country r, Type_ r).
Definition port_key (r : TradeRecord) : string * string := (Port r, Type_ r).

(** The three files of a year. *)
Record year_files : Type := mk_year_files {
  of_year : Z;
  commodity_agg : list (string * string * Z);
  country_agg : list (string * string * Z);
  port_agg : list (string * string * Z)
}.

(** The body of [for year in available_years]: nothing for an empty
    [year_df]. *)
Definition year_step (df : frame) (year : Z) : option year_files :=
  let year_df := filter (fun r => Year r = year) df in
  if is_empty year_df then None
  else Some (mk_year_files year
               (aggregate commodity_key year_df)
               (aggregate country_key year_df)
               (aggregate port_key year_df)).

(** [main], from the frame read from the Parquet file: the base
    aggregation and the files of the years, in the order they are
    written. *)
Definition main (df : frame)
    : list (string * string * string * string * Z * Z) * list year_files :=
  (aggregate base_key df, omap (year_step df) (available_years df)).

End Data.

(** * parse.py: sheets, for the statements *)

Module SheetSpec.
Import Parse ParseSpec.

(** Two cells with the same text up to the case of its letters; a cell
    that is not a string only matches one that is not a string. *)
Definition same_text (c c' : cell) : Prop :=
  match c, c' with
  | Str s, Str s' => upper s = upper s'
  | Str _, _ | _, Str _ => False
  | _, _ => True
  end.

Definition cell_lower (c : cell) : cell :=
  match c with Str s => Str (lower s) | _ => c end.

Definition cell_upper (c : cell) : cell :=
  match c with Str s => Str (upper s) | _ => c end.

(** The text of the series in the [Type] column. *)
Definition type_text (t : data_type) : string :=
  match t with import => "Import" | export => "Export" end.

(** A string without whitespace at its ends, as [str.strip()] leaves it. *)
Definition stripped (s : string) : Prop := strip py_isspace s = s.

(** [s] does not start with whitespace. *)
Definition no_lead (isspace : ascii -> bool) (s : string) : Prop :=
  match s with
  | EmptyString => True
  | String c _ => isspace c = false
  end.

(** A reader that gives [echo_sheet] whatever the engine, and one that
    gives it to the automatic detection only. *)
Definition read_echo : bytes -> option engine -> outcome DataFrame :=
  fun _ _ => Return echo_sheet.

Definition read_auto_only : bytes -> option engine -> outcome DataFrame :=
  fun _ engine =>
    match engine with
    | None => Return echo_sheet
    | Some _ => Raise ValueError
    end.

(** The first eight bytes of an [.xlsx] file and of an [.xls] file. *)
Definition xlsx_blob : bytes := [x50; x4b; x03; x04; x14; x00; x06; x00]%byte.
Definition xls_blob : bytes := OLE2.

End SheetSpec.

(** * Properties of fetch.py *)

Module FetchProofs.
Import Fetch FetchSpec.

Section validate.
Variable ZipFile : bytes -> zip_outcome.

Lemma validate_Some (r : get_outcome) (content : bytes) :
  validate ZipFile r = Some content <->
  r = Response 200 content /\ 4 <= length content /\
  take 2 content = PK /\ ZipFile content = ZipOpened.
Proof.
  destruct r as [status c| |]; simpl;
    [|split; [discriminate | intros [? _]; discriminate]..].
  destruct (Z.eqb_spec status 200) as [->|Hs]; simpl.
  - destruct (Nat.ltb_spec (length c) 4) as [Hl|Hl].
    + split; [discriminate|]. intros ([= ->] & ? & _). lia.
    + case_bool_decide as Hpk; simpl.
      * destruct (ZipFile c) eqn:Hz; split;
          try discriminate; try (intros [= ->]; auto);
          intros ([= ->] & _ & _ & Hz'); congruence.
      * split; [discriminate|]. intros ([= ->] & _ & Hpk' & _). congruence.
  - split; [discriminate|]. intros ([= -> ->] & _). congruence.
Qed.

(** A payload handed back is never empty, so [if content:] holds for it. *)
Lemma validate_truthy (r : get_outcome) :
  truthy (validate ZipFile r) = bool_decide (validate ZipFile r <> None).
Proof.
  destruct (validate ZipFile r) as [c|] eqn:H.
  - apply validate_Some in H as (_ & Hl & _).
    destruct c; [simpl in Hl; lia|]. reflexivity.
  - reflexivity.
Qed.
End validate.

(** C5. For a month of the calendar, [fetch_month_data] always returns and
    never raises; it returns the payload exactly when the status is 200, the
    payload has at least 4 bytes, begins with [PK] and opens as a zip file;
    in every other case, a transport error included, it returns [None]; and
    the checks are made in order: when the status, the length or the
    signature fails, the answer is [None] whatever opening the archive would
    give. *)
Theorem fetch_month_data_validation
    (ZipFile : bytes -> zip_outcome) (get : string -> get_outcome)
    (y m : Z) (t : data_type) :
  valid_date y m = true ->
  exists res,
    fetch_month_data ZipFile get y m t = Return res /\
    (forall content,
        res = Some content <->
        get (build_url (mk_date y m) t) = Response 200 content /\
        4 <= length content /\ take 2 content = PK /\
        ZipFile content = ZipOpened) /\
    (get (build_url (mk_date y m) t) = GetRequestException -> res = None) /\
    (get (build_url (mk_date y m) t) = GetOtherException -> res = None) /\
    (forall status content,
        get (build_url (mk_date y m) t) = Response status content ->
        (status <> 200%Z -> res = None) /\
        (length content < 4 -> res = None) /\
        (take 2 content <> PK -> res = None) /\
        (ZipFile content <> ZipOpened -> res = None) /\
        (status <> 200%Z \/ length content < 4 \/ take 2 content <> PK ->
         forall ZipFile', fetch_month_data ZipFile' get y m t = Return None)).
Proof.
  intros Hv. unfold fetch_month_data, new_datetime. rewrite Hv. simpl.
  eexists. split; [reflexivity|].
  set (r := get _).
  assert (Hnone : forall Z', (forall c, validate Z' r <> Some c) -> validate Z' r = None).
  { intros Z' H. destruct (validate Z' r); [exfalso; eapply H; eauto | done]. }
  split; [intros c; apply validate_Some|].
  split; [intros ->; reflexivity|].
  split; [intros ->; reflexivity|].
  intros status content Hr.
  assert (Hcases : forall Z' c, validate Z' r = Some c ->
            status = 200%Z /\ 4 <= length content /\ take 2 content = PK /\
            Z' content = ZipOpened).
  { intros Z' c H. apply validate_Some in H as (H1 & H2 & H3 & H4).
    rewrite Hr in H1. injection H1 as -> ->. auto. }
  repeat split.
  - intros Hs. apply Hnone. intros c H. apply Hcases in H. tauto.
  - intros Hs. apply Hnone. intros c H. apply Hcases in H. lia.
  - intros Hs. apply Hnone. intros c H. apply Hcases in H. tauto.
  - intros Hs. apply Hnone. intros c H. apply Hcases in H. tauto.
  - intros Hs Z'. f_equal. apply Hnone. intros c H. apply Hcases in H.
    destruct Hs as [?|[?|?]]; [tauto | lia | tauto].
Qed.

(** The theorem at November 2021 with a source that answers a four-byte
    archive. *)
Lemma fetch_month_data_validation_witness :
  valid_date 2021 11 = true /\
  fetch_month_data (fun _ => ZipOpened)
    (fun _ => Response 200 [x50; x4b; x03; x04]%byte) 2021 11 import
  = Return (Some [x50; x4b; x03; x04]%byte).
Proof.
  split; [reflexivity|].
  destruct (fetch_month_data_validation (fun _ => ZipOpened)
              (fun _ => Response 200 [x50; x4b; x03; x04]%byte)
              2021 11 import eq_refl) as (res & Hret & Hsome & _).
  rewrite Hret. f_equal. apply Hsome. repeat split; simpl; lia.
Defined.

Lemma previous_month_ok (d : datetime) (k : nat) :
  can_go_back (S k) d ->
  previous_month d = Return (month_before d) /\ can_go_back k (month_before d).
Proof.
  unfold can_go_back, previous_month, month_before, month_index, new_datetime, valid_date.
  destruct d as [y m]; simpl. intros [Hv Hk].
  rewrite !andb_true_iff, !Z.leb_le in Hv.
  destruct (Z.eqb_spec m 1) as [->|Hm]; simpl.
  - assert (H : ((1 <=? y - 1) && (y - 1 <=? 9999))%Z = true)
      by (rewrite andb_true_iff, !Z.leb_le; lia).
    rewrite H. simpl. repeat split; try reflexivity; lia.
  - assert (H : ((1 <=? y) && (y <=? 9999) && (1 <=? m - 1) && (m - 1 <=? 12))%Z = true)
      by (rewrite !andb_true_iff, !Z.leb_le; lia).
    rewrite H. repeat split; try reflexivity; try lia; try exact H.
Qed.

Lemma can_go_back_le (d : datetime) (j k : nat) :
  j <= k -> can_go_back k d -> can_go_back j d.
Proof. unfold can_go_back. intros ? [? ?]. split; [done | lia]. Qed.

Section crawl_proofs.
Variable ZipFile : bytes -> zip_outcome.
Variable http_get : nat -> string -> get_outcome.

Local Abbreviation process_series := (Fetch.process_series ZipFile http_get).
Local Abbreviation loop_body := (Fetch.loop_body ZipFile http_get).
Local Abbreviation iterate := (Fetch.iterate ZipFile http_get).
Local Abbreviation while_loop := (Fetch.while_loop ZipFile http_get).
Local Abbreviation cf := consecutive_failures.

Local Abbreviation all_fail := (FetchSpec.all_fail ZipFile http_get).

Lemma iterate_S (n : nat) (st : crawl_state) :
  iterate (S n) st = bind (loop_body st) (iterate n).
Proof. reflexivity. Qed.

(** An artifact that is there: no request, the counter goes to 0. *)
Lemma process_series_present (t : data_type) (st : crawl_state) (made : bool) :
  present t st = true ->
  process_series t (st, made) =
  Return (mk_state (current_date st) (set_failures (cf st) t 0)
            (files st) (requests st) (sleeps st), made).
Proof. unfold present, Fetch.process_series. by intros ->. Qed.

(** No artifact and a fetch that gives nothing: one request, one more
    failure. *)
Lemma process_series_failure (t : data_type) (st : crawl_state) (made : bool) :
  present t st = false ->
  valid_date (year (current_date st)) (month (current_date st)) = true ->
  validate ZipFile (http_get (length (requests st))
                      (build_url (current_date st) t)) = None ->
  process_series t (st, made) =
  Return (mk_state (current_date st)
            (set_failures (cf st) t (S (get_failures (cf st) t)))
            (files st)
            (requests st ++ [mk_request t (year (current_date st))
                               (month (current_date st)) false])%list
            (sleeps st), true).
Proof.
  unfold present, Fetch.process_series, fetch_month_data, new_datetime.
  intros -> -> Hnone. simpl.
  destruct (current_date st) as [y m]; simpl in *. by rewrite Hnone.
Qed.

(** One series under a source that always fails. *)
Lemma process_series_all_fail (t : data_type) (st : crawl_state) (made : bool) :
  all_fail ->
  valid_date (year (current_date st)) (month (current_date st)) = true ->
  exists st' made',
    process_series t (st, made) = Return (st', made') /\
    current_date st' = current_date st /\
    files st' = files st /\
    sleeps st' = sleeps st /\
    made' = (made || negb (present t st)) /\
    get_failures (cf st') t =
      (if present t st then 0 else S (get_failures (cf st) t)) /\
    (forall t', t' <> t -> get_failures (cf st') t' = get_failures (cf st) t') /\
    requests st' =
      (requests st ++
       if present t st then []
       else [mk_request t (year (current_date st)) (month (current_date st)) false])%list.
Proof.
  intros Hfail Hv. destruct (present t st) eqn:Hp.
  - rewrite process_series_present by done.
    do 2 eexists. split; [reflexivity|]. simpl.
    rewrite app_nil_r, orb_false_r.
    repeat split; try done; destruct t; try done; intros []; done.
  - rewrite process_series_failure by auto.
    do 2 eexists. split; [reflexivity|]. simpl. rewrite orb_true_r.
    repeat split; try done; destruct t; try done; intros []; done.
Qed.

(** One iteration under a source that always fails. *)
Lemma loop_body_all_fail (st : crawl_state) (k : nat) :
  all_fail ->
  can_go_back (S k) (current_date st) ->
  exists st',
    loop_body st = Return st' /\
    current_date st' = month_before (current_date st) /\
    files st' = files st /\
    (forall t, get_failures (cf st') t =
               (if present t st then 0 else S (get_failures (cf st) t))) /\
    requests st' =
      (requests st ++
       (if present import st then []
        else [mk_request import (year (current_date st)) (month (current_date st)) false]) ++
       (if present export st then []
        else [mk_request export (year (current_date st)) (month (current_date st)) false]))%list /\
    sleeps st' =
      (if present import st && present export st then sleeps st else S (sleeps st)).
Proof.
  intros Hfail Hback. pose proof Hback as [Hv _].
  destruct (process_series_all_fail import st false Hfail Hv)
    as (s1 & m1 & H1 & Hd1 & Hf1 & Hs1 & Hm1 & Hc1 & Ho1 & Hr1).
  assert (Hv1 : valid_date (year (current_date s1)) (month (current_date s1)) = true)
    by (by rewrite Hd1).
  destruct (process_series_all_fail export s1 m1 Hfail Hv1)
    as (s2 & m2 & H2 & Hd2 & Hf2 & Hs2 & Hm2 & Hc2 & Ho2 & Hr2).
  assert (Hp : present export s1 = present export st)
    by (unfold present; by rewrite Hd1, Hf1).
  rewrite Hp in *.
  destruct (previous_month_ok _ _ Hback) as [Hprev _].
  unfold Fetch.loop_body. rewrite H1. cbn [bind]. rewrite H2. cbn [bind fst snd].
  rewrite Hd2, Hd1, Hprev. cbn [bind].
  eexists. split; [reflexivity|]. simpl.
  split; [done|]. split; [congruence|].
  split; [|split].
  - intros [|].
    + rewrite (Ho2 import) by done. exact Hc1.
    + rewrite Hc2. rewrite (Ho1 export) by done. reflexivity.
  - rewrite Hr2, Hr1, Hd1, <- app_assoc. reflexivity.
  - rewrite Hm2, Hm1, Hs2, Hs1. simpl.
    by destruct (present import st), (present export st).
Qed.

(** The loop leaves exactly at the first state, counted in iterations,
    whose smaller counter has reached the threshold. *)
Lemma while_loop_finished (fuel : nat) (st st' : crawl_state) :
  while_loop fuel st = Finished st' <->
  exists n, n <= fuel /\ iterate n st = Return st' /\
    max_consecutive_failures <= min_failures (cf st') /\
    forall k, k < n -> exists sk, iterate k st = Return sk /\
                                  min_failures (cf sk) < max_consecutive_failures.
Proof.
  revert st. induction fuel as [|fuel IH]; intros st; simpl; unfold loop_condition;
    destruct (Nat.ltb_spec (min_failures (cf st)) max_consecutive_failures) as [Hc|Hc].
  - split; [discriminate|]. intros (n & Hn & Hit & Hmin & Hbefore).
    assert (n = 0) as -> by lia. simpl in Hit. injection Hit as <-. lia.
  - split.
    + intros [= <-]. exists 0. simpl. repeat split; [lia | lia |]. intros; lia.
    + intros ([|n] & Hn & Hit & Hmin & Hbefore).
      * simpl in Hit. congruence.
      * destruct (Hbefore 0) as (s0 & H0 & Hlt); [lia|].
        simpl in H0. injection H0 as <-. lia.
  - split.
    + destruct (loop_body st) as [s1|e] eqn:Hb; [|discriminate].
      intros H. apply IH in H as (n & Hn & Hit & Hmin & Hbefore).
      exists (S n). rewrite iterate_S, Hb. simpl.
      repeat split; [lia | done | done |].
      intros [|k] Hk.
      * exists st. by split.
      * rewrite iterate_S, Hb. simpl. apply Hbefore. lia.
    + intros ([|n] & Hn & Hit & Hmin & Hbefore).
      * simpl in Hit. injection Hit as <-. lia.
      * rewrite iterate_S in Hit.
        destruct (loop_body st) as [s1|e] eqn:Hb; [|discriminate]. simpl in Hit.
        apply IH. exists n. repeat split; [lia | done | done |].
        intros k Hk. destruct (Hbefore (S k)) as (sk & Hsk & Hlt); [lia|].
        rewrite iterate_S, Hb in Hsk. simpl in Hsk. eauto.
  - split.
    + intros [= <-]. exists 0. simpl. repeat split; [lia | lia |]. intros; lia.
    + intros ([|n] & Hn & Hit & Hmin & Hbefore).
      * simpl in Hit. congruence.
      * destruct (Hbefore 0) as (s0 & H0 & Hlt); [lia|].
        simpl in H0. injection H0 as <-. lia.
Qed.

Lemma while_loop_out_of_fuel (fuel : nat) (st : crawl_state) :
  (forall k, k <= fuel -> exists sk, iterate k st = Return sk /\
                                   min_failures (cf sk) < max_consecutive_failures) ->
  while_loop fuel st = OutOfFuel.
Proof.
  revert st. induction fuel as [|fuel IH]; intros st H; simpl; unfold loop_condition;
    destruct (H 0) as (s0 & H0 & Hlt); try lia;
    simpl in H0; injection H0 as <-;
    destruct (Nat.ltb_spec (min_failures (cf st)) max_consecutive_failures); try lia.
  - reflexivity.
  - destruct (H 1) as (s1 & H1 & _); [lia|]. simpl in H1.
    destruct (loop_body st) as [s1'|e] eqn:Hb; [|discriminate].
    apply IH. intros k Hk. destruct (H (S k)) as (sk & Hsk & Hlt'); [lia|].
    rewrite iterate_S, Hb in Hsk. eauto.
Qed.

Lemma present_empty (t : data_type) (st : crawl_state) :
  files st = ∅ -> present t st = false.
Proof. unfold present. intros ->. apply bool_decide_eq_false_2. set_solver. Qed.

(** [k] iterations with nothing under [raw/] and a source that always
    fails. *)
Lemma iterate_all_fail_empty (k : nat) (st : crawl_state) :
  all_fail ->
  can_go_back k (current_date st) ->
  files st = ∅ ->
  exists sk,
    iterate k st = Return sk /\
    current_date sk = months_before k (current_date st) /\
    files sk = ∅ /\
    cf sk = mk_failures (of_import (cf st) + k) (of_export (cf st) + k) /\
    requests sk =
      (requests st ++ flat_map failed_requests (visited k (current_date st)))%list /\
    sleeps sk = sleeps st + k.
Proof.
  intros Hfail. revert st. induction k as [|k IH]; intros st Hback Hfs.
  - exists st. simpl. rewrite app_nil_r, !Nat.add_0_r. by destruct (cf st).
  - destruct (loop_body_all_fail st k Hfail Hback)
      as (s1 & Hb & Hd & Hf & Hc & Hr & Hs).
    rewrite !present_empty in * by done. simpl in Hs.
    destruct (previous_month_ok _ _ Hback) as [_ Hback'].
    rewrite <- Hd in Hback'.
    destruct (IH s1 Hback') as (sk & Hit & Hdk & Hfk & Hck & Hrk & Hsk);
      [congruence|].
    exists sk. rewrite iterate_S, Hb. cbn [bind].
    split; [done|]. split; [by rewrite Hdk, Hd|]. split; [done|].
    split; [|split].
    + rewrite Hck. pose proof (Hc import) as Hi. pose proof (Hc export) as He.
      rewrite present_empty in Hi, He by done.
      simpl in Hi, He. rewrite Hi, He. f_equal; lia.
    + rewrite Hrk, Hr, Hd. simpl. rewrite <- !app_assoc. reflexivity.
    + lia.
Qed.

(** One iteration over a month whose two artifacts are there. *)
Lemma loop_body_present (st : crawl_state) :
  present import st = true -> present export st = true ->
  can_go_back 1 (current_date st) ->
  loop_body st =
  Return (mk_state (month_before (current_date st)) (mk_failures 0 0)
            (files st) (requests st) (sleeps st)).
Proof.
  intros Hi He Hback. destruct (previous_month_ok _ _ Hback) as [Hprev _].
  unfold Fetch.loop_body. rewrite process_series_present by done. cbn [bind].
  rewrite process_series_present by done. cbn [bind fst snd current_date].
  rewrite Hprev. reflexivity.
Qed.

Lemma iterate_all_present (k : nat) (st : crawl_state) :
  cf st = mk_failures 0 0 ->
  can_go_back k (current_date st) ->
  (forall j, j < k -> month_present (files st) (months_before j (current_date st))) ->
  exists sk,
    iterate k st = Return sk /\
    requests sk = requests st /\
    cf sk = mk_failures 0 0 /\
    sleeps sk = sleeps st /\
    files sk = files st /\
    current_date sk = months_before k (current_date st).
Proof.
  revert st. induction k as [|k IH]; intros st Hc Hback Hall.
  - exists st. by simpl.
  - assert (Hp : forall t, present t st = true).
    { intros t. apply bool_decide_eq_true_2. apply (Hall 0). lia. }
    rewrite iterate_S, loop_body_present
      by first [apply Hp | eapply can_go_back_le; [|exact Hback]; lia].
    cbn [bind].
    destruct (previous_month_ok _ _ Hback) as [_ Hback'].
    edestruct (IH (mk_state (month_before (current_date st)) (mk_failures 0 0)
                     (files st) (requests st) (sleeps st)))
      as (sk & Hit & ?); [done | exact Hback' | | by exists sk].
    intros j Hj. apply (Hall (S j)). lia.
Qed.
(** One series, whatever the source answers. *)
Lemma process_series_step (t : data_type) (st : crawl_state) (made : bool) :
  valid_date (year (current_date st)) (month (current_date st)) = true ->
  exists st' made',
    process_series t (st, made) = Return (st', made') /\
    current_date st' = current_date st /\
    (forall t', t' <> t ->
       get_failures (cf st') t' = get_failures (cf st) t') /\
    (present t st = true ->
       files st' = files st /\ get_failures (cf st') t = 0) /\
    (present t st = false ->
       validate ZipFile (http_get (length (requests st))
                           (build_url (current_date st) t)) = None ->
       files st' = files st /\
       get_failures (cf st') t = S (get_failures (cf st) t)) /\
    (forall p, p ∈ files st' ->
       p ∈ files st \/
       p = artifact_path t (year (current_date st)) (month (current_date st))).
Proof.
  intros Hv. destruct (present t st) eqn:Hp.
  - rewrite process_series_present by done. do 2 eexists. split; [reflexivity|]. simpl.
    split; [done|]. split; [by destruct t; intros [] ?|].
    split; [by destruct t|]. split; [done | auto].
  - destruct (validate ZipFile (http_get (length (requests st))
                                  (build_url (current_date st) t))) as [c|] eqn:Hf.
    + unfold FetchSpec.present in Hp. unfold Fetch.process_series, fetch_month_data, new_datetime.
      rewrite Hp, Hv. cbn [bind].
      destruct (current_date st) as [y m] eqn:Hd; cbn [year month] in *.
      rewrite validate_truthy, Hf. simpl.
      do 2 eexists. split; [reflexivity|]. simpl.
      split; [done|]. split; [by destruct t; intros [] ?|].
      split; [done|]. split; [done|].
      unfold save_zip_file.
      intros p [->%elem_of_singleton|Hin]%elem_of_union; auto.
    + rewrite process_series_failure by done. do 2 eexists. split; [reflexivity|]. simpl.
      split; [done|]. split; [by destruct t; intros [] ?|].
      split; [done|]. split; [by destruct t | auto].
Qed.

Lemma artifact_path_series (t t' : data_type) (y m y' m' : Z) :
  artifact_path t y m = artifact_path t' y' m' -> t = t'.
Proof.
  unfold artifact_path. destruct t, t'; try done; intros H; exfalso;
    cbv [data_type_str String.app String.append] in H; discriminate H.
Qed.

(** One iteration seen from series [t], when its artifact is there or its
    fetch for the month fails: the other series may do anything. *)
Lemma loop_body_series (t : data_type) (st : crawl_state) (k : nat) :
  can_go_back (S k) (current_date st) ->
  present t st = true \/
  (forall n, validate ZipFile (http_get n (build_url (current_date st) t)) = None) ->
  exists st',
    loop_body st = Return st' /\
    current_date st' = month_before (current_date st) /\
    (forall p, p ∈ files st' ->
       p ∈ files st \/
       exists t', t' <> t /\
         p = artifact_path t' (year (current_date st)) (month (current_date st))) /\
    get_failures (cf st') t =
      (if present t st then 0 else S (get_failures (cf st) t)).
Proof.
  intros Hback Hown. pose proof Hback as [Hv _].
  destruct (process_series_step import st false Hv)
    as (s1 & m1 & H1 & Hd1 & Ho1 & Hp1 & Hf1 & Hn1).
  assert (Hv1 : valid_date (year (current_date s1)) (month (current_date s1)) = true)
    by (by rewrite Hd1).
  destruct (process_series_step export s1 m1 Hv1)
    as (s2 & m2 & H2 & Hd2 & Ho2 & Hp2 & Hf2 & Hn2).
  destruct (previous_month_ok _ _ Hback) as [Hprev _].
  unfold Fetch.loop_body. rewrite H1. cbn [bind]. rewrite H2. cbn [bind fst snd].
  rewrite Hd2, Hd1, Hprev. cbn [bind].
  eexists. split; [reflexivity|]. cbn [current_date files consecutive_failures].
  split; [done|]. rewrite Hd1 in *.
  destruct t.
  - (* import: its own step comes first *)
    rewrite (Ho2 import) by done.
    assert (Hown1 : files s1 = files st /\
              get_failures (cf s1) import
              = (if present import st then 0 else S (get_failures (cf st) import))).
    { destruct (present import st) eqn:Hp; [by apply Hp1|].
      destruct Hown as [?|Hfail]; [done|]. by apply Hf1. }
    destruct Hown1 as [Hfs1 Hc1]. split; [|done].
    intros p Hp. destruct (Hn2 p Hp) as [Hin| ->].
    + left. by rewrite <- Hfs1.
    + right. by exists export.
  - (* export: import has gone first and may have saved its archive *)
    assert (Hpe : present export s1 = present export st).
    { unfold FetchSpec.present. rewrite Hd1. apply bool_decide_ext. split.
      - intros Hin. destruct (Hn1 _ Hin) as [?|He]; [done|].
        by apply artifact_path_series in He.
      - intros Hin. destruct (present import st) eqn:Hp.
        + destruct (Hp1 eq_refl) as [-> _]. done.
        + assert (Hsub : files st ⊆ files s1); [|by apply Hsub].
          clear -H1 Hp Hv. unfold FetchSpec.present in Hp.
          unfold Fetch.process_series, fetch_month_data, new_datetime in H1.
          rewrite Hp, Hv in H1. cbn [bind] in H1.
          destruct (truthy _); injection H1 as <- _; simpl; unfold save_zip_file;
            set_solver. }
    rewrite (Ho1 export) in Hf2 by done.
    assert (Hown2 : files s2 = files s1 /\
              get_failures (cf s2) export
              = (if present export st then 0 else S (get_failures (cf st) export))).
    { rewrite <- Hpe. destruct (present export s1) eqn:Hp.
      - destruct (Hp2 eq_refl) as [? ?]. done.
      - destruct Hown as [Hown|Hfail]; [congruence|]. by apply Hf2. }
    destruct Hown2 as [Hfs2 Hc2]. split; [|done].
    intros p Hp. rewrite Hfs2 in Hp. destruct (Hn1 p Hp) as [Hin| ->].
    + by left.
    + right. by exists import.
Qed.
End crawl_proofs.



(** C4. An artifact that is already there makes the step issue no request
    and puts the counter of its series to 0, whatever it was. Hence over
    months whose artifacts are all there, a run that starts with both
    counters at 0 issues no request and keeps both counters at 0 after every
    iteration; and an artifact at month M followed by failed fetches at M-1
    and M-2 gives the counter of that series the values 0, 1 and 2,
    whatever it was before and whatever happens to the other series. *)
Theorem skip_resets_counter
    (ZipFile : bytes -> zip_outcome) (http_get : nat -> string -> get_outcome) :
  (forall t st made,
      artifact_path t (year (current_date st)) (month (current_date st)) ∈ files st ->
      exists st',
        process_series ZipFile http_get t (st, made) = Return (st', made) /\
        get_failures (consecutive_failures st') t = 0 /\
        (forall t', t' <> t ->
           get_failures (consecutive_failures st') t'
           = get_failures (consecutive_failures st) t') /\
        requests st' = requests st /\
        files st' = files st) /\
  (forall n st,
      consecutive_failures st = mk_failures 0 0 ->
      can_go_back n (current_date st) ->
      (forall j, j < n ->
         month_present (files st) (months_before j (current_date st))) ->
      forall k, k <= n ->
        exists sk,
          iterate ZipFile http_get k st = Return sk /\
          requests sk = requests st /\
          consecutive_failures sk = mk_failures 0 0 /\
          sleeps sk = sleeps st) /\
  (forall t st,
      can_go_back 3 (current_date st) ->
      (forall n, validate ZipFile
                   (http_get n (build_url (months_before 1 (current_date st)) t)) = None) ->
      (forall n, validate ZipFile
                   (http_get n (build_url (months_before 2 (current_date st)) t)) = None) ->
      artifact_path t (year (current_date st)) (month (current_date st)) ∈ files st ->
      artifact_path t (year (months_before 1 (current_date st)))
        (month (months_before 1 (current_date st))) ∉ files st ->
      artifact_path t (year (months_before 2 (current_date st)))
        (month (months_before 2 (current_date st))) ∉ files st ->
      exists s1 s2 s3,
        iterate ZipFile http_get 1 st = Return s1 /\
        iterate ZipFile http_get 2 st = Return s2 /\
        iterate ZipFile http_get 3 st = Return s3 /\
        get_failures (consecutive_failures s1) t = 0 /\
        get_failures (consecutive_failures s2) t = 1 /\
        get_failures (consecutive_failures s3) t = 2).
Proof.
  split; [|split].
  - intros t st made Hin.
    assert (Hp : present t st = true) by (by apply bool_decide_eq_true_2).
    rewrite (process_series_present ZipFile http_get t st made Hp).
    eexists. split; [reflexivity|]. simpl.
    repeat split; try done; destruct t; try done; intros []; done.
  - intros n st Hc Hback Hall k Hk.
    destruct (iterate_all_present ZipFile http_get k st Hc) as (sk & Hit & Hr & Hck & Hs & _).
    + eapply can_go_back_le; [|exact Hback]. lia.
    + intros j Hj. apply Hall. lia.
    + exists sk. auto.
  - intros t st Hback Hfail1 Hfail2 H0 H1 H2.
    assert (Hp0 : present t st = true) by (by apply bool_decide_eq_true_2).
    destruct (loop_body_series ZipFile http_get t st 2 Hback (or_introl Hp0))
      as (s1 & Hb1 & Hd1 & Hn1 & Hc1).
    destruct (previous_month_ok _ _ Hback) as [_ Hback1]. rewrite <- Hd1 in Hback1.
    assert (Hp1 : present t s1 = false).
    { apply bool_decide_eq_false_2. rewrite Hd1. intros Hin.
      destruct (Hn1 _ Hin) as [?|(t' & Hne & He)]; [done|].
      by apply artifact_path_series in He. }
    destruct (loop_body_series ZipFile http_get t s1 1 Hback1) as (s2 & Hb2 & Hd2 & Hn2 & Hc2);
      [right; by rewrite Hd1|].
    destruct (previous_month_ok _ _ Hback1) as [_ Hback2]. rewrite <- Hd2 in Hback2.
    assert (Hp2 : present t s2 = false).
    { apply bool_decide_eq_false_2. rewrite Hd2, Hd1. intros Hin.
      destruct (Hn2 _ Hin) as [Hin1|(t' & Hne & He)].
      - destruct (Hn1 _ Hin1) as [?|(t' & Hne & He)]; [done|].
        by apply artifact_path_series in He.
      - by apply artifact_path_series in He. }
    destruct (loop_body_series ZipFile http_get t s2 0 Hback2) as (s3 & Hb3 & Hd3 & Hn3 & Hc3);
      [right; by rewrite Hd2, Hd1|].
    exists s1, s2, s3. simpl. rewrite Hb1. cbn [bind]. rewrite Hb2. cbn [bind].
    rewrite Hb3. cbn [bind].
    repeat split.
    + by rewrite Hc1, Hp0.
    + by rewrite Hc2, Hp1, Hc1, Hp0.
    + by rewrite Hc3, Hp2, Hc2, Hp1, Hc1, Hp0.
Qed.

(** The theorem at March 2021: the import archive of March is under [raw/],
    those of February and January are not, and the source is down. *)
Lemma skip_resets_counter_witness :
  can_go_back 3 (current_date march_2021) /\
  artifact_path import 2021 3 ∈ files march_2021 /\
  exists s1 s2 s3,
    iterate (fun _ => ZipBadZipFile) (fun _ _ => GetRequestException) 1 march_2021
      = Return s1 /\
    iterate (fun _ => ZipBadZipFile) (fun _ _ => GetRequestException) 2 march_2021
      = Return s2 /\
    iterate (fun _ => ZipBadZipFile) (fun _ _ => GetRequestException) 3 march_2021
      = Return s3 /\
    get_failures (consecutive_failures s1) import = 0 /\
    get_failures (consecutive_failures s2) import = 1 /\
    get_failures (consecutive_failures s3) import = 2.
Proof.
  assert (Hback : can_go_back 3 (current_date march_2021))
    by (split; [reflexivity | unfold month_index; simpl; lia]).
  assert (Hpath : forall m, artifact_path import 2021 m ∈ files march_2021 <->
                            artifact_path import 2021 m = "raw/import/2021/03.zip")
    by (intros m; unfold march_2021; simpl; apply elem_of_singleton).
  assert (H0 : artifact_path import 2021 3 ∈ files march_2021)
    by (apply Hpath; vm_compute; reflexivity).
  split; [exact Hback|]. split; [exact H0|].
  destruct (skip_resets_counter (fun _ => ZipBadZipFile) (fun _ _ => GetRequestException))
    as (_ & _ & H).
  apply (H import march_2021 Hback (fun _ => eq_refl) (fun _ => eq_refl) H0).
  - intros Hin. apply (Hpath 2%Z) in Hin. vm_compute in Hin. discriminate.
  - intros Hin. apply (Hpath 1%Z) in Hin. vm_compute in Hin. discriminate.
Defined.

End FetchProofs.

(** * Properties of parse.py *)

Module ParseProofs.
Import Parse ParseSpec.

(** ** Text *)

Lemma prefix_app (a hay : string) :
  String.prefix a hay = true <-> exists post, hay = a +:+ post.
Proof.
  revert hay. induction a as [|c a IH]; intros hay.
  - split; [eauto|]. by destruct hay.
  - destruct hay as [|d hay]; simpl.
    + split; [discriminate|]. intros [post H]. discriminate H.
    + destruct (ascii_dec c d) as [->|Hne].
      * rewrite IH. split; intros [post H]; exists post.
        -- by rewrite H.
        -- by injection H.
      * split; [discriminate|]. intros [post H]. injection H as ? _. done.
Qed.

(** [str_in] is containment: the needle occurs somewhere in the text. *)
Lemma str_in_spec (needle hay : string) :
  str_in needle hay = true <-> exists pre post, hay = pre +:+ needle +:+ post.
Proof.
  induction hay as [|d hay IH]; cbn [str_in].
  - rewrite orb_false_r, prefix_app. split.
    + intros [post H]. by exists "", post.
    + intros (pre & post & H). destruct pre; [by exists post|discriminate H].
  - rewrite orb_true_iff, prefix_app, IH. split.
    + intros [[post H]|(pre & post & H)].
      * by exists "", post.
      * exists (String d pre), post. by rewrite H.
    + intros (pre & post & H). destruct pre as [|c pre].
      * left. by exists post.
      * right. injection H as _ H. by exists pre, post.
Qed.

(** ** Header detection *)

(** One step down the [if]/[elif] chain. *)
Ltac chain_step :=
  match goal with
  | |- context [if ?c then _ else _] =>
      let H := fresh "Hc" in destruct c eqn:H
  end.

(** The facts of a branch that was taken. *)
Ltac chain_facts :=
  repeat match goal with
    | H : _ && _ = true |- _ => apply andb_true_iff in H as [? ?]
    | H : is_None ?o = true |- _ => destruct o; [discriminate H | clear H]
    end.

(** What one cell does to the map: an assigned field keeps its column; a
    field assigned by this cell was free, its rule holds of the cell, no
    other field moves, and for [usd] the [inr] rule does not hold. *)
Lemma scan_cell_keeps (ind : indices) (k : nat) (val : cell) (f : field) (i : nat) :
  get f ind = Some i -> get f (scan_cell ind k val) = Some i.
Proof.
  destruct val as [| |s]; try done. unfold scan_cell. cbv zeta.
  destruct ind as [c co p u q n us]. cbn [commodity country port unit qty inr usd].
  intros Hf. repeat chain_step; chain_facts; destruct f; simpl in *; congruence.
Qed.

Lemma scan_cell_origin (ind : indices) (k : nat) (val : cell) (f : field) (i : nat) :
  get f (scan_cell ind k val) = Some i ->
  get f ind = Some i \/
  (get f ind = None /\ i = k /\ satisfies f val = true /\
   (forall g, g <> f -> get g (scan_cell ind k val) = get g ind) /\
   (f = F_usd -> satisfies F_inr val = false)).
Proof.
  destruct val as [| |s]; try (by left). unfold scan_cell, satisfies. cbv zeta.
  destruct ind as [c co p u q n us]. cbn [commodity country port unit qty inr usd].
  repeat chain_step; chain_facts; destruct f; simpl; intros Hf;
    try (left; exact Hf);
    right; injection Hf as <-;
    (repeat split; try done; try (intros [] ?; simpl; congruence)).
Qed.

(** A cell that satisfies the rule of a free field gives the field its
    column, unless an earlier branch of the chain takes the cell. *)
Lemma scan_cell_priority (ind : indices) (k : nat) (val : cell) (f : field) :
  satisfies f val = true -> get f ind = None ->
  get f (scan_cell ind k val) = Some k \/
  (exists g, rank g < rank f /\ get g (scan_cell ind k val) = Some k) \/
  (f = F_usd /\ satisfies F_inr val = true).
Proof.
  destruct val as [| |s]; try done. unfold scan_cell, satisfies. cbv zeta.
  destruct ind as [c co p u q n us]. cbn [commodity country port unit qty inr usd].
  intros Hs Hf. destruct f; simpl in Hs, Hf; subst;
    repeat chain_step; chain_facts; simpl in *;
    try congruence; try (rewrite Hs in *; simpl in *; congruence);
    try (left; reflexivity);
    try (right; right; split; [reflexivity | assumption]);
    right; left;
    first [ exists F_commodity; simpl; split; [lia | reflexivity]
          | exists F_country; simpl; split; [lia | reflexivity]
          | exists F_port; simpl; split; [lia | reflexivity]
          | exists F_unit; simpl; split; [lia | reflexivity]
          | exists F_qty; simpl; split; [lia | reflexivity]
          | exists F_inr; simpl; split; [lia | reflexivity] ].
Qed.

Lemma scan_keeps (k : nat) (h : list cell) (ind : indices) (f : field) (i : nat) :
  get f ind = Some i -> get f (scan k h ind) = Some i.
Proof.
  revert k ind. induction h as [|v h IH]; intros k ind H; simpl; [done|].
  apply IH. by apply scan_cell_keeps.
Qed.

Lemma scan_app (k : nat) (h1 h2 : list cell) (ind : indices) :
  scan k (h1 ++ h2)%list ind = scan (k + length h1) h2 (scan k h1 ind).
Proof.
  revert k ind. induction h1 as [|v h1 IH]; intros k ind; simpl.
  - by rewrite Nat.add_0_r.
  - rewrite IH. f_equal. lia.
Qed.

Lemma scanned_nil : scanned [] no_indices.
Proof. split; try (intros []; done); intros; done. Qed.

Lemma lookup_snoc_inv (pre : list cell) (val v : cell) (j : nat) :
  (pre ++ [val])%list !! j = Some v ->
  (j < length pre /\ pre !! j = Some v) \/ (j = length pre /\ v = val).
Proof.
  intros H. destruct (decide (j < length pre)) as [Hlt|Hge].
  - left. split; [done|]. by rewrite lookup_app_l in H.
  - right. rewrite lookup_app_r in H by lia.
    destruct (j - length pre) as [|n] eqn:Hn; simpl in H; [|by destruct n].
    split; [lia | congruence].
Qed.

Lemma scanned_step (pre : list cell) (ind : indices) (val : cell) :
  scanned pre ind -> scanned (pre ++ [val])%list (scan_cell ind (length pre) val).
Proof.
  intros [Hsound Hdist Husd Hprio].
  assert (Hold : forall f i, get f ind = Some i -> i < length pre).
  { intros f i H. destruct (Hsound f i H) as (v & Hv & _). by eapply lookup_lt_Some. }
  split.
  - intros f i H. destruct (scan_cell_origin _ _ _ _ _ H) as [Ho|(_ & -> & Hs & _)].
    + destruct (Hsound f i Ho) as (v & Hv & Hsat). exists v. split; [|done].
      by apply lookup_app_l_Some.
    + exists val. split; [|done]. by apply list_lookup_middle.
  - intros f g i Hf Hg.
    destruct (scan_cell_origin _ _ _ _ _ Hf) as [Hof|(Hnf & -> & _ & Hothers & _)];
      destruct (scan_cell_origin _ _ _ _ _ Hg) as [Hog|(Hng & Hi & _)].
    + eauto.
    + apply Hold in Hof. lia.
    + apply Hold in Hog. lia.
    + destruct (decide (g = f)) as [->|Hne]; [done|].
      rewrite (Hothers g Hne) in Hg. congruence.
  - intros i v H Hv.
    destruct (scan_cell_origin _ _ _ _ _ H) as [Ho|(_ & -> & _ & _ & Hinr)].
    + pose proof (Hold _ _ Ho). rewrite lookup_app_l in Hv by done. eauto.
    + rewrite list_lookup_middle in Hv by done. injection Hv as <-. auto.
  - intros f j v Hv Hsat. destruct (lookup_snoc_inv _ _ _ _ Hv) as [[Hlt Hj]|[-> ->]].
    + destruct (Hprio f j v Hj Hsat) as [(i & Hi & Hle)|[(g & Hr & Hg)|Hu]].
      * left. exists i. split; [by apply scan_cell_keeps | done].
      * right. left. exists g. split; [done | by apply scan_cell_keeps].
      * right. right. done.
    + destruct (get f ind) as [i|] eqn:Hf.
      * left. exists i. split; [by apply scan_cell_keeps|].
        apply Hold in Hf. lia.
      * destruct (scan_cell_priority ind (length pre) val f Hsat Hf) as [H|[H|H]].
        -- left. eauto.
        -- right. left. done.
        -- right. right. done.
Qed.

Lemma scanned_scan (pre rest : list cell) (ind : indices) :
  scanned pre ind -> scanned (pre ++ rest)%list (scan (length pre) rest ind).
Proof.
  revert pre ind. induction rest as [|v rest IH]; intros pre ind H; simpl.
  - by rewrite app_nil_r.
  - replace (pre ++ v :: rest)%list with ((pre ++ [v]) ++ rest)%list
      by (by rewrite <- app_assoc).
    replace (S (length pre)) with (length (pre ++ [v])%list)
      by (rewrite length_app; simpl; lia).
    apply IH. by apply scanned_step.
Qed.

Lemma scanned_find (header_row : list cell) :
  scanned header_row (find_column_indices header_row).
Proof. apply (scanned_scan [] header_row no_indices), scanned_nil. Qed.

Lemma leftmost_Some (f : field) (h : list cell) (i : nat) :
  leftmost f h = Some i <->
  exists v, h !! i = Some v /\ satisfies f v = true /\
    forall j w, h !! j = Some w -> j < i -> satisfies f w <> true.
Proof.
  unfold leftmost. split.
  - destruct (list_find _ h) as [[i' v]|] eqn:H; [|discriminate].
    intros [= <-]. apply list_find_Some in H. eauto.
  - intros (v & Hv & Hs & Hmin).
    assert (H : list_find (fun v => satisfies f v = true) h = Some (i, v))
      by (apply list_find_Some; eauto).
    by rewrite H.
Qed.

Lemma leftmost_None (f : field) (h : list cell) :
  leftmost f h = None <-> forall v, v ∈ h -> satisfies f v = false.
Proof.
  unfold leftmost. destruct (list_find _ h) as [[i v]|] eqn:H; simpl.
  - split; [discriminate|]. intros Hall. apply list_find_Some in H as (Hv & Hs & _).
    rewrite Hall in Hs; [discriminate|]. by eapply list_elem_of_lookup_2.
  - split; [|done]. intros _ v Hv. apply list_find_None in H.
    rewrite Forall_forall in H. specialize (H v Hv).
    by destruct (satisfies f v).
Qed.

(** A field whose rule is the only one its cells satisfy gets the leftmost
    of them; so does [commodity], the head of the chain, on every header. *)
Lemma get_leftmost (f : field) (h : list cell) :
  (forall v g, v ∈ h -> satisfies f v = true -> rank g < rank f ->
               satisfies g v = false) ->
  get f (find_column_indices h) = leftmost f h.
Proof.
  intros Hexcl. destruct (scanned_find h) as [Hsound _ _ Hprio].
  assert (Hfirst : forall j v, h !! j = Some v -> satisfies f v = true ->
            exists i, get f (find_column_indices h) = Some i /\ i <= j).
  { intros j v Hv Hs. destruct (Hprio f j v Hv Hs) as [H|[(g & Hr & Hg)|[-> Hi]]]; [done|..].
    - destruct (Hsound g j Hg) as (w & Hw & Hsw). rewrite Hv in Hw. injection Hw as <-.
      rewrite (Hexcl v g) in Hsw; [discriminate | by eapply list_elem_of_lookup_2 | done | done].
    - rewrite (Hexcl v F_inr) in Hi;
        [discriminate | by eapply list_elem_of_lookup_2 | done | simpl; lia]. }
  destruct (leftmost f h) as [j|] eqn:Hl.
  - apply leftmost_Some in Hl as (v & Hv & Hs & Hmin).
    destruct (Hfirst j v Hv Hs) as (i & Hi & Hle). rewrite Hi. f_equal.
    destruct (Hsound f i Hi) as (w & Hw & Hsw).
    destruct (decide (i = j)) as [|Hne]; [done|].
    exfalso. apply (Hmin i w Hw); [lia | done].
  - destruct (get f (find_column_indices h)) as [i|] eqn:Hi; [|done].
    destruct (Hsound f i Hi) as (w & Hw & Hsw).
    rewrite (proj1 (leftmost_None f h) Hl w) in Hsw; [discriminate|].
    by eapply list_elem_of_lookup_2.
Qed.

(** ** Row normalisation *)

Lemma mask_filter_fmap {A B} (p : A -> bool) (g : A -> B) (l : list A) :
  mask_filter (p <$> l) (g <$> l) = g <$> filter (fun x => p x = true) l.
Proof.
  induction l as [|x l IH]; [done|].
  rewrite !fmap_cons, filter_cons. cbn [mask_filter].
  destruct (p x) eqn:Hp; rewrite IH.
  - by rewrite decide_True.
  - by rewrite decide_False by congruence.
Qed.

Lemma mask_filter_self {A} (p : A -> bool) (l : list A) :
  mask_filter (p <$> l) l = filter (fun x => p x = true) l.
Proof. rewrite <- (list_fmap_id l) at 2. by rewrite mask_filter_fmap, list_fmap_id. Qed.

Lemma existsb_fmap_false {A} (p : A -> bool) (l : list A) :
  existsb id (p <$> l) = false -> filter (fun x => p x = true) l = [].
Proof.
  induction l as [|x l IH]; [done|]. rewrite fmap_cons. cbn [existsb]. unfold id at 1.
  intros H. apply orb_false_iff in H as [Hp Hl]. rewrite filter_cons.
  rewrite decide_False by congruence. auto.
Qed.

Lemma list_max_ge (l : list nat) (j : nat) : j ∈ l -> j <= list_max l.
Proof.
  induction l as [|x l IH]; simpl; [by intros ?%elem_of_nil|].
  intros [->|H]%elem_of_cons; [lia|]. specialize (IH H). lia.
Qed.

Lemma get_valid_indices (ind : indices) (f : field) (j : nat) :
  get f ind = Some j -> j ∈ valid_indices ind.
Proof.
  intros H. unfold valid_indices. apply list_elem_of_omap. exists (Some j).
  split; [|done]. rewrite <- H. destruct f; simpl; set_solver.
Qed.

(** After the padding every mapped index is a column of the frame. *)
Lemma pad_to_indices_bound (ind : indices) (df : DataFrame) (f : field) (j : nat) :
  get f ind = Some j -> j < ncols (pad_to_indices ind df).
Proof.
  intros H. apply get_valid_indices in H. pose proof (list_max_ge _ _ H) as Hle.
  unfold pad_to_indices. cbv zeta.
  destruct (valid_indices ind) as [|x vi] eqn:Hvi; [by apply elem_of_nil in H|].
  simpl head. cbn [is_None negb andb].
  destruct (Nat.leb_spec (ncols df) (list_max (x :: vi))); simpl in *; lia.
Qed.

Lemma pad_to_indices_rows (ind : indices) (df : DataFrame) :
  rows (pad_to_indices ind df) = pad_row (padding ind df) <$> rows df.
Proof.
  unfold padding, pad_to_indices, pad_row. cbv zeta.
  destruct (_ && _); simpl.
  - reflexivity.
  - rewrite Nat.sub_diag. simpl. rewrite <- (list_fmap_id (rows df)) at 1.
    apply list_fmap_ext. intros _ r _. by rewrite app_nil_r.
Qed.

Lemma iloc_col_in_bounds (df : DataFrame) (j : nat) :
  j < ncols df -> iloc_col df j = Return ((fun r => nth j r NaN) <$> rows df).
Proof. unfold iloc_col. intros H. by rewrite (proj2 (Nat.ltb_lt _ _) H). Qed.

Section normalize_proofs.
Variable to_numeric : string -> option Z.

Lemma safe_str_extract_rowwise (df : DataFrame) (col_idx : option nat) (default : string) :
  (forall j, col_idx = Some j -> j < ncols df) ->
  safe_str_extract df col_idx default = Return (str_value col_idx default <$> rows df).
Proof.
  intros Hb. destruct col_idx as [j|]; simpl.
  - rewrite iloc_col_in_bounds by auto. cbn [bind]. by rewrite <- list_fmap_compose.
  - f_equal. induction (rows df) as [|r l IH]; simpl; [done|]. by rewrite IH.
Qed.

Lemma safe_numeric_extract_rowwise (df : DataFrame) (col_idx : option nat) :
  (forall j, col_idx = Some j -> j < ncols df) ->
  safe_numeric_extract to_numeric df col_idx
  = Return (num_value to_numeric col_idx <$> rows df).
Proof.
  intros Hb. destruct col_idx as [j|]; simpl.
  - rewrite iloc_col_in_bounds by auto. cbn [bind]. unfold parse_numeric_series.
    by rewrite <- list_fmap_compose.
  - f_equal. induction (rows df) as [|r l IH]; simpl; [done|]. by rewrite IH.
Qed.

(** The ten series are maps over the same rows, so the frame is a map over
    the rows. *)
Lemma result_df_rowwise {A} (kept : list A)
    (gc g1 g2 gu : A -> string) (gq gi gs : A -> option Z)
    (year month : Z) (ty : string) :
  result_df (gc <$> kept) (g1 <$> kept) (g2 <$> kept) year month ty
    (gq <$> kept) (gu <$> kept) (gi <$> kept) (gs <$> kept)
  = (fun r => mk_record (gc r) (g1 r) (g2 r) year month ty
                (gq r) (Some (gu r)) (gi r) (gs r)) <$> kept.
Proof.
  unfold result_df. apply list_eq. intros i.
  rewrite list_lookup_imap, !list_lookup_fmap.
  destruct (kept !! i) as [r|] eqn:Hr; simpl; [|done].
  f_equal.
  assert (Hl : forall B `{Inhabited B} (g : A -> B), (g <$> kept) !!! i = g r).
  { intros B ? g. apply list_lookup_total_correct. by rewrite list_lookup_fmap, Hr. }
  by rewrite !Hl.
Qed.

(** The column-wise code computes, row by row, [row_record] of the rows the
    commodity filter keeps, and does not raise. *)
Lemma normalize_rows_rowwise (ind : indices) (df : DataFrame)
    (year month : Z) (t : data_type) :
  is_Some (commodity ind) ->
  normalize_rows to_numeric ind df year month t
  = Return (row_record to_numeric ind year month t
              <$> filter (valid_row ind) (rows (pad_to_indices ind df))).
Proof.
  intros [ci Hci]. unfold normalize_rows. cbv zeta.
  set (df' := pad_to_indices ind df). rewrite Hci.
  assert (Hb : forall f j, get f ind = Some j -> j < ncols df')
    by (intros f j; apply pad_to_indices_bound).
  rewrite iloc_col_in_bounds by (by apply (Hb F_commodity)). cbn [bind].
  assert (Hcol : (fun c => strip py_isspace (astype_str c))
                   <$> ((fun r => nth ci r NaN) <$> rows df')
                 = (fun r => cell_text r ci) <$> rows df')
    by (by rewrite <- list_fmap_compose).
  rewrite Hcol.
  assert (Hmask : valid_commodity <$> ((fun r => cell_text r ci) <$> rows df')
                  = (fun r => valid_commodity (cell_text r ci)) <$> rows df')
    by (by rewrite <- list_fmap_compose).
  rewrite Hmask.
  assert (Hfilter : filter (fun r => valid_commodity (cell_text r ci) = true) (rows df')
                    = filter (valid_row ind) (rows df')).
  { apply list_filter_iff. intros r. unfold valid_row. by rewrite Hci. }
  destruct (existsb id _) eqn:Hany; cbn [negb].
  - rewrite mask_filter_self, mask_filter_fmap, Hfilter.
    set (kept := filter (valid_row ind) (rows df')).
    rewrite !safe_str_extract_rowwise, !safe_numeric_extract_rowwise
      by (simpl; first [apply (Hb F_country) | apply (Hb F_port) | apply (Hb F_unit)
                       | apply (Hb F_qty) | apply (Hb F_inr) | apply (Hb F_usd)]).
    cbn [bind rows]. rewrite result_df_rowwise. f_equal.
    apply list_fmap_ext. intros _ r _. unfold row_record. by rewrite Hci.
  - apply existsb_fmap_false in Hany. rewrite <- Hfilter, Hany. reflexivity.
Qed.
End normalize_proofs.

(** ** The whole sheet *)

Section parse_proofs.
Variable to_numeric : string -> option Z.
Variable read_excel : bytes -> option engine -> outcome DataFrame.
Variable xlrd_available : bool.

Local Abbreviation read_sheet := (Parse.read_sheet read_excel xlrd_available).
Local Abbreviation parse_xls_file :=
  (Parse.parse_xls_file to_numeric read_excel xlrd_available).

(** [parse_xls_file] returns, and what it returns is [sheet_records] of what
    reading the blob gave. *)
Lemma parse_xls_file_rowwise (xls_data : bytes) (year month : Z) (t : data_type) :
  parse_xls_file xls_data year month t
  = Return (sheet_records to_numeric (read_sheet xls_data) year month t).
Proof.
  unfold Parse.parse_xls_file, parse_xls_body, sheet_records.
  destruct (read_sheet xls_data) as [df|e]; [|reflexivity]. cbn [bind].
  unfold df_empty, iloc_row, iloc_from.
  destruct df as [n [|title [|header data]]]; cbn [rows ncols];
    try reflexivity.
  - by destruct (n =? 0)%nat.
  - change ((title :: header :: data) !! 1) with (Some header).
    change (drop 2 (title :: header :: data)) with data.
    change (length (title :: header :: data) <? 2)%nat with false.
    change (length (title :: header :: data) =? 0)%nat with false.
    destruct (Nat.eqb_spec n 0) as [->|Hn]; [reflexivity|]. cbn [orb bind].
    set (ind := find_column_indices header).
    destruct (is_None (commodity ind) || is_None (country ind)) eqn:He; [reflexivity|].
    apply orb_false_iff in He as [Hc _].
    assert (Hsome : is_Some (commodity ind)) by (destruct (commodity ind); [eauto | done]).
    rewrite orb_false_r.
    destruct data as [|r data]; [reflexivity|].
    change (length (r :: data) =? 0)%nat with false. cbv iota.
    rewrite normalize_rows_rowwise by done. cbn [try_except].
    by rewrite pad_to_indices_rows.
Qed.

Lemma read_sheet_unreadable (xls_data : bytes) :
  (forall engine, exists e, read_excel xls_data engine = Raise e) ->
  exists e, read_sheet xls_data = Raise e.
Proof.
  intros H. unfold Parse.read_sheet. cbv zeta.
  set (eng := match detect_excel_format xls_data with
              | Some xlsx => Some openpyxl
              | Some xls => if xlrd_available then Some xlrd else None
              | None => None
              end).
  destruct (H eng) as [e He]. rewrite He. cbn [try_except].
  destruct eng; [|eauto]. destruct (H None) as [e2 He2]. rewrite He2. eauto.
Qed.
End parse_proofs.

(** The end-to-end example of the specification: the header echo is
    dropped, the three other rows give three records of November 2021,
    series Import. *)
Example parse_echo_sheet :
  parse_xls_file digits_only (fun _ _ => Return echo_sheet) true [] 2021 11 import
  = Return [mk_record "RICE" "NEPAL" "" 2021 11 "Import" (Some 12%Z) (Some "N/A") None None;
            mk_record "WHEAT" "" "" 2021 11 "Import" (Some 120%Z) (Some "N/A") None None;
            mk_record "TEA" "" "" 2021 11 "Import" None (Some "N/A") None None].
Proof. reflexivity. Qed.

Lemma nth_pad_row_beyond (n j : nat) (r : list cell) :
  length r <= j -> nth j (pad_row n r) NaN = PyNone \/ nth j (pad_row n r) NaN = NaN.
Proof.
  intros H. unfold pad_row. rewrite nth_lookup, lookup_app_r by done.
  destruct (replicate n PyNone !! (j - length r)) as [c|] eqn:Hc; simpl; [|by right].
  apply lookup_replicate in Hc as [-> _]. by left.
Qed.

Lemma nth_pad_row_inside (n j : nat) (r : list cell) :
  j < length r -> nth j (pad_row n r) NaN = nth j r NaN.
Proof. intros H. unfold pad_row. by rewrite !nth_lookup, lookup_app_l. Qed.

Lemma invalid_pad_row (n ci : nat) (r : list cell) :
  valid_commodity (cell_text r ci) = false ->
  valid_commodity (cell_text (pad_row n r) ci) = false.
Proof.
  intros H. unfold cell_text in *. destruct (decide (ci < length r)) as [Hlt|Hge].
  - by rewrite nth_pad_row_inside.
  - destruct (nth_pad_row_beyond n ci r) as [-> | ->]; [lia | done | done].
Qed.

Lemma filter_none {A} (P : A -> Prop) `{forall x, Decision (P x)} (l : list A) :
  (forall x, x ∈ l -> ~ P x) -> filter P l = [].
Proof.
  induction l as [|x l IH]; intros Hall; [done|]. rewrite filter_cons.
  rewrite decide_False by (apply Hall; left). apply IH. intros y Hy. apply Hall. by right.
Qed.

Lemma get_None_of_no_match (f : field) (h : list cell) :
  (forall v, v ∈ h -> satisfies f v = false) -> get f (find_column_indices h) = None.
Proof.
  intros Hall. destruct (get f (find_column_indices h)) as [i|] eqn:Hi; [|done].
  destruct (sc_sound _ _ (scanned_find h) f i Hi) as (v & Hv & Hs).
  rewrite Hall in Hs; [discriminate|]. by eapply list_elem_of_lookup_2.
Qed.

(** C2, as the code has it. For every header row: a field is only ever given
    a column whose cell satisfies its rule; [commodity] is given the
    leftmost such column, and so is every field on a header where no cell
    that satisfies its rule satisfies the rule of a field earlier in the
    [if]/[elif] chain; in general a cell goes to one field at most, and a
    cell that satisfies the rule of [f] leaves [f] without a column at or
    before it only when the cell is taken by a field earlier in the chain
    or, for [usd], also satisfies the rule of [inr]; a field that has a
    column keeps it. The header of the specification maps as stated, and a
    header where no cell satisfies the commodity rule, or none the country
    rule, gives an empty result for the sheet. *)
Theorem find_column_indices_priority :
  (forall header f i,
      get f (find_column_indices header) = Some i ->
      exists v, header !! i = Some v /\ satisfies f v = true) /\
  (forall header,
      commodity (find_column_indices header) = leftmost F_commodity header) /\
  (forall header f,
      (forall v g, v ∈ header -> satisfies f v = true -> rank g < rank f ->
                   satisfies g v = false) ->
      get f (find_column_indices header) = leftmost f header) /\
  (forall header f g i,
      get f (find_column_indices header) = Some i ->
      get g (find_column_indices header) = Some i -> f = g) /\
  (forall header f j v,
      header !! j = Some v -> satisfies f v = true ->
      (exists i, get f (find_column_indices header) = Some i /\ i <= j) \/
      (exists g, rank g < rank f /\ get g (find_column_indices header) = Some j) \/
      (f = F_usd /\ satisfies F_inr v = true)) /\
  (forall ind idx val f i,
      get f ind = Some i -> get f (scan_cell ind idx val) = Some i) /\
  (forall header more f i,
      get f (find_column_indices header) = Some i ->
      get f (find_column_indices (header ++ more)%list) = Some i) /\
  find_column_indices spec_header
    = mk_indices (Some 1) (Some 2) None (Some 4) (Some 3) (Some 5) (Some 6) /\
  (forall to_numeric read_excel xlrd_available xls_data year month t df header,
      read_sheet read_excel xlrd_available xls_data = Return df ->
      rows df !! 1 = Some header ->
      (forall v, v ∈ header -> satisfies F_commodity v = false) \/
      (forall v, v ∈ header -> satisfies F_country v = false) ->
      parse_xls_file to_numeric read_excel xlrd_available xls_data year month t
      = Return []).
Proof.
  split; [intros h; apply (scanned_find h)|].
  split; [intros h; apply (get_leftmost F_commodity); simpl; intros; lia|].
  split; [intros h f; apply get_leftmost|].
  split; [intros h; apply (scanned_find h)|].
  split; [intros h; apply (scanned_find h)|].
  split; [apply scan_cell_keeps|].
  split.
  { intros h more f i H. unfold find_column_indices. rewrite scan_app.
    by apply scan_keeps. }
  split; [reflexivity|].
  intros to_numeric read_excel xlrd_available xls_data year month t df header Hread Hrow Hno.
  rewrite parse_xls_file_rowwise, Hread. unfold sheet_records. f_equal.
  destruct (rows df) as [|title [|h data]]; try discriminate.
  injection Hrow as ->. cbv zeta.
  destruct (ncols df =? 0)%nat; [reflexivity|].
  destruct Hno as [Hno|Hno].
  - change (commodity (find_column_indices header))
      with (get F_commodity (find_column_indices header)).
    by rewrite get_None_of_no_match.
  - change (country (find_column_indices header))
      with (get F_country (find_column_indices header)).
    rewrite (get_None_of_no_match F_country) by done. by rewrite orb_true_r.
Qed.

(** The theorem on the header of the specification and on a sheet whose
    header has no country column. *)
Lemma find_column_indices_priority_witness :
  get F_qty (find_column_indices spec_header) = Some 3 /\
  (exists v, spec_header !! 3 = Some v /\ satisfies F_qty v = true) /\
  rows headless_sheet !! 1 = Some [Str "Commodity"; Str "QTY"] /\
  parse_xls_file digits_only (fun _ _ => Return headless_sheet) true [] 2021 11 import
  = Return [].
Proof.
  destruct find_column_indices_priority as (Hsound & _ & _ & _ & _ & _ & _ & _ & Hempty).
  split; [reflexivity|].
  split; [apply (Hsound spec_header F_qty 3); reflexivity|].
  split; [reflexivity|].
  apply (Hempty digits_only (fun _ _ => Return headless_sheet) true [] 2021%Z 11%Z import
           headless_sheet [Str "Commodity"; Str "QTY"]); [reflexivity | reflexivity |].
  right. intros v Hv.
  apply elem_of_cons in Hv as [->|Hv]; [reflexivity|].
  apply elem_of_cons in Hv as [->|Hv]; [reflexivity|].
  by apply elem_of_nil in Hv.
Defined.

(** C2 as stated fails: in [export_header] the cell "Country of Export"
    satisfies the rules of [country] and of [port]; the chain gives it to
    [country], and [port] gets column 2 although column 1 is the leftmost
    that satisfies its rule. *)
Lemma port_not_leftmost :
  get F_port (find_column_indices export_header) = Some 2 /\
  leftmost F_port export_header = Some 1 /\
  ~ (forall header f, get f (find_column_indices header) = leftmost f header).
Proof.
  split; [reflexivity|]. split; [reflexivity|].
  intros H. specialize (H export_header F_port). vm_compute in H. discriminate.
Qed.

(** C10. [parse_xls_file] returns a frame for every blob and every year,
    month and series, whatever the reader and the number parser do; the
    frame is empty when the blob cannot be read, when the sheet has fewer
    than two rows, and when no data row passes the commodity filter. *)
Theorem parse_xls_file_total
    (to_numeric : string -> option Z)
    (read_excel : bytes -> option engine -> outcome DataFrame)
    (xlrd_available : bool) :
  (forall xls_data year month t,
      exists df, parse_xls_file to_numeric read_excel xlrd_available
                   xls_data year month t = Return df) /\
  (forall xls_data year month t,
      (forall engine, exists e, read_excel xls_data engine = Raise e) ->
      parse_xls_file to_numeric read_excel xlrd_available xls_data year month t
      = Return []) /\
  (forall xls_data year month t df,
      read_sheet read_excel xlrd_available xls_data = Return df ->
      length (rows df) < 2 ->
      parse_xls_file to_numeric read_excel xlrd_available xls_data year month t
      = Return []) /\
  (forall xls_data year month t df header ci,
      read_sheet read_excel xlrd_available xls_data = Return df ->
      rows df !! 1 = Some header ->
      commodity (find_column_indices header) = Some ci ->
      (forall r, r ∈ drop 2 (rows df) -> valid_commodity (cell_text r ci) = false) ->
      parse_xls_file to_numeric read_excel xlrd_available xls_data year month t
      = Return []).
Proof.
  split; [intros; rewrite parse_xls_file_rowwise; eauto|].
  split.
  { intros xls_data year month t H. rewrite parse_xls_file_rowwise.
    destruct (read_sheet_unreadable read_excel xlrd_available xls_data H) as [e ->].
    reflexivity. }
  split.
  { intros xls_data year month t df Hread Hlen. rewrite parse_xls_file_rowwise, Hread.
    unfold sheet_records. destruct (rows df) as [|? [|? ?]]; simpl in *; [done | done | lia]. }
  intros xls_data year month t df header ci Hread Hrow Hci Hinv.
  rewrite parse_xls_file_rowwise, Hread. unfold sheet_records. f_equal.
  destruct (rows df) as [|title [|h data]]; try discriminate.
  injection Hrow as ->. cbv zeta. cbn [drop] in Hinv.
  destruct (ncols df =? 0)%nat; [reflexivity|].
  destruct (_ || _); [reflexivity|].
  rewrite filter_none; [reflexivity|].
  intros r' Hr'. apply list_elem_of_fmap in Hr' as (r & -> & Hr).
  unfold valid_row. rewrite Hci. rewrite invalid_pad_row by auto. done.
Qed.

(** The theorem on a blob that no engine reads. *)
Lemma parse_xls_file_total_witness :
  (forall engine : option engine,
      exists e, (fun _ _ => Raise OtherError) ([] : bytes) engine
                = (Raise e : outcome DataFrame)) /\
  parse_xls_file digits_only (fun _ _ => Raise OtherError) true [] 2021 11 import
  = Return [].
Proof.
  assert (H : forall engine : option engine,
             exists e, (fun _ _ => Raise OtherError) ([] : bytes) engine
                       = (Raise e : outcome DataFrame))
    by (intros; eexists; reflexivity).
  split; [exact H|].
  destruct (parse_xls_file_total digits_only (fun _ _ => Raise OtherError) true)
    as (_ & Hunread & _).
  apply Hunread. exact H.
Defined.

Lemma num_value_None_beyond (to_numeric : string -> option Z)
    (n j : nat) (r : list cell) :
  length r <= j -> num_value to_numeric (Some j) (pad_row n r) = None.
Proof.
  intros H. unfold num_value. by destruct (nth_pad_row_beyond n j r H) as [-> | ->].
Qed.

Lemma valid_indices_get (ind : indices) (j : nat) :
  j ∈ valid_indices ind -> exists f, get f ind = Some j.
Proof.
  unfold valid_indices. rewrite list_elem_of_omap. intros (x & Hx & Hid).
  simpl in Hid. subst x.
  repeat (apply elem_of_cons in Hx as [Hx|Hx];
          [first [by exists F_commodity | by exists F_country | by exists F_port
                 | by exists F_unit | by exists F_qty | by exists F_inr
                 | by exists F_usd]|]).
  by apply elem_of_nil in Hx.
Qed.

Lemma list_max_lt (l : list nat) (n : nat) :
  l <> [] -> (forall j, j ∈ l -> j < n) -> list_max l < n.
Proof.
  induction l as [|x l IH]; [done|]. intros _ H. simpl.
  assert (x < n) by (apply H; left).
  destruct l as [|y l]; [simpl; lia|].
  assert (list_max (y :: l) < n) by (apply IH; [done|]; intros j Hj; apply H; by right).
  lia.
Qed.

(** On a sheet as pandas gives it, where the header row is as wide as the
    frame, the column map never asks for a column that is not there: the
    padding adds nothing. *)
Lemma no_padding_in_sheet (header : list cell) (data : list (list cell)) :
  padding (find_column_indices header) (mk_df (length header) data) = 0.
Proof.
  unfold padding, pad_to_indices. cbv zeta.
  destruct (valid_indices (find_column_indices header)) as [|x vi] eqn:Hvi;
    cbn [head is_None negb andb ncols]; [lia|].
  assert (Hlt : list_max (x :: vi) < length header).
  { apply list_max_lt; [done|]. intros j Hj. rewrite <- Hvi in Hj.
    destruct (valid_indices_get _ _ Hj) as [f Hf].
    destruct (sc_sound _ _ (scanned_find header) f j Hf) as (v & Hv & _).
    by eapply lookup_lt_Some. }
  destruct (Nat.leb_spec (length header) (list_max (x :: vi))); [lia|].
  cbn [ncols]. lia.
Qed.




(** ** The sort order *)

Section lex.
Context {A B : Type} (RA : relation A) (RB : relation B).

#[global] Instance lex_le_refl `{!Reflexive RB} : Reflexive (lex_le RA RB).
Proof. intros p. right. split; reflexivity. Qed.

#[global] Instance lex_le_trans `{!PartialOrder RA, !Transitive RB} :
  Transitive (lex_le RA RB).
Proof.
  intros [a1 b1] [a2 b2] [a3 b3]. unfold lex_le. simpl.
  intros [[H12 N12]|[-> B12]] [[H23 N23]|[-> B23]].
  - left. split; [by etrans|]. intros ->.
    apply N12. by apply (anti_symm RA).
  - left. done.
  - left. done.
  - right. split; [done | by etrans].
Qed.

#[global] Instance lex_le_antisym `{!AntiSymm (=) RA, !AntiSymm (=) RB} :
  AntiSymm (=) (lex_le RA RB).
Proof.
  intros [a1 b1] [a2 b2]. unfold lex_le. simpl.
  intros [[H12 N12]|[-> B12]] [[H21 N21]|[E B21]].
  - destruct N12. by apply (anti_symm RA).
  - by destruct N12.
  - by destruct N21.
  - f_equal. by apply (anti_symm RB).
Qed.

#[global] Instance lex_le_po `{!PartialOrder RA, !PartialOrder RB} :
  PartialOrder (lex_le RA RB).
Proof. repeat split; apply _. Qed.

#[global] Instance lex_le_total `{!EqDecision A, !Total RA, !Total RB} :
  Total (lex_le RA RB).
Proof.
  intros [a1 b1] [a2 b2]. unfold lex_le. simpl.
  destruct (decide (a1 = a2)) as [->|Hne].
  - destruct (total RB b1 b2); [left | right]; right; done.
  - destruct (total RA a1 a2); [left | right]; left; split; congruence.
Qed.
End lex.

#[global] Instance key_le_po : PartialOrder key_le.
Proof. unfold key_le. apply _. Qed.

#[global] Instance key_le_total : Total key_le.
Proof. unfold key_le. apply _. Qed.

#[global] Instance record_le_trans : Transitive record_le.
Proof. intros x y z. unfold record_le. apply transitivity. Qed.

#[global] Instance record_le_total : Total record_le.
Proof. intros x y. unfold record_le. apply total, _. Qed.

(** ** Cleaning *)

Lemma all_space_lstrip (sp : ascii -> bool) (s : string) :
  all_space sp (lstrip sp s) = all_space sp s.
Proof.
  induction s as [|c s IH]; simpl; [done|].
  destruct (sp c) eqn:Hc; simpl; [done | by rewrite Hc].
Qed.

Lemma rstrip_empty (sp : ascii -> bool) (s : string) :
  rstrip sp s = "" <-> all_space sp s = true.
Proof.
  induction s as [|c s IH]; simpl; [done|].
  destruct (String.eqb_spec (rstrip sp s) "") as [He|Hne].
  - rewrite He. simpl. destruct (sp c); simpl; [tauto|].
    split; discriminate.
  - simpl. split; [discriminate|]. intros [_ H]%andb_true_iff. tauto.
Qed.

(** Stripping leaves nothing exactly when the text is whitespace only. *)
Lemma strip_empty (sp : ascii -> bool) (s : string) :
  strip sp s = "" <-> all_space sp s = true.
Proof. unfold strip. by rewrite rstrip_empty, all_space_lstrip. Qed.

Lemma clean_unit_spec (u : option string) :
  (blank_unit u -> clean_unit u = Some "N/A") /\
  (~ blank_unit u -> clean_unit u = u).
Proof.
  destruct u as [s|]; simpl; [|tauto].
  destruct (String.eqb_spec (strip pl_isspace s) "") as [He|Hne]; simpl.
  - apply strip_empty in He. tauto.
  - destruct (String.eqb_spec (lower s) "nan") as [Hl|Hl].
    + split; [done|]. intros []. by right.
    + split; [|done]. intros [H|H]; [by apply strip_empty in H|].
      by destruct Hl.
Qed.

Lemma all_zero_degenerate (r : TradeRecord) : all_zero r = true <-> degenerate r.
Proof.
  unfold all_zero, degenerate, null_or_zero, fill_null.
  rewrite !andb_true_iff, !Z.eqb_eq.
  destruct (Quantity r), (INR_Value r), (USD_Value r);
    intuition (try congruence; try discriminate).
Qed.

Lemma all_zero_with_columns (r : TradeRecord) : all_zero (with_columns r) = all_zero r.
Proof. reflexivity. Qed.

(** The rows of the cleaned frame are the cleaned rows that are not all
    zero. *)
Lemma elem_of_clean_data (df : frame) (r' : TradeRecord) :
  r' ∈ clean_data df <->
  exists r, r ∈ df /\ all_zero r = false /\ r' = with_columns r.
Proof.
  unfold clean_data, sort, unique. rewrite merge_sort_Permutation.
  rewrite list_elem_of_filter, list_elem_of_fmap. split.
  - intros (Hz & r & -> & Hr). rewrite elem_of_remove_dups in Hr.
    exists r. rewrite all_zero_with_columns in Hz.
    split; [done|]. split; [by destruct (all_zero r) | done].
  - intros (r & Hr & Hz & ->). rewrite all_zero_with_columns, Hz.
    split; [done|]. exists r. split; [done|]. by apply elem_of_remove_dups.
Qed.

Lemma clean_data_sorted (df : frame) : Sorted record_le (clean_data df).
Proof. unfold clean_data, sort. apply Sorted_merge_sort, _. Qed.

Lemma sorted_keys (l1 l2 : frame) :
  Sorted record_le l1 -> Sorted record_le l2 -> l1 ≡ₚ l2 ->
  key_of <$> l1 = key_of <$> l2.
Proof.
  intros H1 H2 H. apply (Sorted_unique key_le).
  - by apply (Sorted_fmap key_of record_le key_le).
  - by apply (Sorted_fmap key_of record_le key_le).
  - by apply fmap_Permutation.
Qed.

Lemma key_of_inj_on (l : list TradeRecord) (x y : TradeRecord) :
  NoDup (key_of <$> l) -> x ∈ l -> y ∈ l -> key_of x = key_of y -> x = y.
Proof.
  induction l as [|z l IH]; [by intros _ ?%elem_of_nil|].
  rewrite fmap_cons, NoDup_cons. intros [Hz Hnd] Hx Hy Hk.
  apply elem_of_cons in Hx as [->|Hx]; apply elem_of_cons in Hy as [->|Hy]; auto.
  - destruct Hz. rewrite Hk. by apply list_elem_of_fmap_2.
  - destruct Hz. rewrite <- Hk. by apply list_elem_of_fmap_2.
Qed.

(** Two sorted frames with the same rows are equal when no two rows share
    their key. *)
Lemma sorted_eq (l1 l2 : frame) :
  Sorted record_le l1 -> Sorted record_le l2 -> l1 ≡ₚ l2 ->
  NoDup (key_of <$> l1) -> l1 = l2.
Proof.
  intros H1 H2 Hp Hnd. apply (Sorted_unique_strong record_le); [|done..].
  intros x y Hx Hy Hxy Hyx. rewrite <- Hp in Hy.
  apply (key_of_inj_on _ _ _ Hnd Hx Hy).
  by apply (anti_symm key_le).
Qed.

(** The embedding is one of the behaviours Polars allows. *)
Lemma clean_data_cleaned (df : frame) : cleaned df (clean_data df).
Proof.
  exists (remove_dups df). split; [apply NoDup_remove_dups|].
  split; [intros r; apply elem_of_remove_dups|].
  split; [|apply clean_data_sorted].
  unfold clean_data, sort, unique. apply merge_sort_Permutation.
Qed.

Lemma cleaned_Permutation (df1 df2 out1 out2 : frame) :
  (forall r, r ∈ df1 <-> r ∈ df2) ->
  cleaned df1 out1 -> cleaned df2 out2 -> out1 ≡ₚ out2.
Proof.
  intros H (u1 & Hn1 & He1 & Hp1 & _) (u2 & Hn2 & He2 & Hp2 & _).
  rewrite Hp1, Hp2. apply filter_Permutation, fmap_Permutation.
  apply NoDup_Permutation; [done..|]. intros r. by rewrite He1, He2.
Qed.

Lemma elem_of_cleaned (df out : frame) (r' : TradeRecord) :
  cleaned df out ->
  r' ∈ out <-> exists r, r ∈ df /\ all_zero r = false /\ r' = with_columns r.
Proof.
  intros (u & _ & He & Hp & _). rewrite Hp, list_elem_of_filter, list_elem_of_fmap.
  split.
  - intros (Hz & r & -> & Hr). exists r. rewrite all_zero_with_columns in Hz.
    split; [by apply He|]. split; [by destruct (all_zero r) | done].
  - intros (r & Hr & Hz & ->). rewrite all_zero_with_columns, Hz.
    split; [done|]. exists r. split; [done | by apply He].
Qed.

Lemma discarded_iff_degenerate (df out : frame) (r : TradeRecord) :
  cleaned df out -> r ∈ df -> with_columns r ∈ out <-> ~ degenerate r.
Proof.
  intros Hc Hr. rewrite (elem_of_cleaned df out _ Hc), <- all_zero_degenerate. split.
  - intros (r2 & _ & Hz & He) Hd.
    rewrite <- (all_zero_with_columns r), He, all_zero_with_columns in Hd. congruence.
  - intros Hd. exists r. split; [done|]. split; [by destruct (all_zero r) | done].
Qed.

Lemma kept_in_clean_data (df : frame) (r : TradeRecord) :
  r ∈ df -> ~ degenerate r -> with_columns r ∈ clean_data df.
Proof.
  intros Hr Hd. apply elem_of_clean_data. exists r. split; [done|]. split; [|done].
  rewrite <- all_zero_degenerate in Hd. by destruct (all_zero r).
Qed.

(** C3. A record of the input is discarded by the cleaning, that is, its
    cleaned form is not in the result, exactly when its quantity, INR value
    and USD value are each null or zero, in [clean_data] as in every result
    that Polars may give; every record of the result is the cleaned form of
    a record that is kept. The record (0, null, 0) is dropped and the
    record (0, 0, 5) is kept. *)
Theorem clean_data_degeneracy :
  (forall df r, r ∈ df -> (with_columns r ∈ clean_data df <-> ~ degenerate r)) /\
  (forall df out r,
      cleaned df out -> r ∈ df -> (with_columns r ∈ out <-> ~ degenerate r)) /\
  (forall df r',
      r' ∈ clean_data df ->
      exists r, r ∈ df /\ ~ degenerate r /\ r' = with_columns r) /\
  (forall r, degenerate r <-> all_zero r = true) /\
  clean_data [rice (Some 0%Z) (Some "KG") None (Some 0%Z)] = [] /\
  clean_data [rice (Some 0%Z) (Some "KG") (Some 0%Z) (Some 5%Z)]
  = [rice (Some 0%Z) (Some "KG") (Some 0%Z) (Some 5%Z)].
Proof.
  split; [|split; [|split; [|split; [|split; reflexivity]]]].
  - intros df r Hr. apply (discarded_iff_degenerate df); [apply clean_data_cleaned | done].
  - apply discarded_iff_degenerate.
  - intros df r' (r & Hr & Hz & ->)%elem_of_clean_data. exists r.
    split; [done|]. split; [|done]. rewrite <- all_zero_degenerate. congruence.
  - intros r. symmetry. apply all_zero_degenerate.
Qed.

(** The theorem on a frame with the two records of the specification. *)
Lemma clean_data_degeneracy_witness :
  let dropped := rice (Some 0%Z) (Some "KG") None (Some 0%Z) in
  let kept := rice (Some 0%Z) (Some "KG") (Some 0%Z) (Some 5%Z) in
  kept ∈ [dropped; kept] /\ dropped ∈ [dropped; kept] /\
  (with_columns kept ∈ clean_data [dropped; kept] <-> ~ degenerate kept) /\
  (with_columns dropped ∈ clean_data [dropped; kept] <-> ~ degenerate dropped).
Proof.
  intros dropped kept.
  assert (Hk : kept ∈ [dropped; kept]) by (right; left).
  assert (Hd : dropped ∈ [dropped; kept]) by left.
  destruct clean_data_degeneracy as (H & _).
  split; [exact Hk|]. split; [exact Hd|].
  split; [exact (H _ _ Hk) | exact (H _ _ Hd)].
Defined.



Lemma elem_of_concat_Permutation (batches batches' : list frame) (r : TradeRecord) :
  batches ≡ₚ batches' -> r ∈ concat batches <-> r ∈ concat batches'.
Proof.
  intros Hp. rewrite !list_elem_of_In, !in_concat.
  split; intros (b & Hb & Hr); exists b; (split; [|done]);
    (eapply Permutation_in; [|exact Hb]); [done | by symmetry].
Qed.

Lemma concat_filter_nonempty (results : list frame) :
  concat (filter (fun df => is_empty df = false) results) = concat results.
Proof.
  induction results as [|df results IH]; [done|]. rewrite filter_cons.
  destruct (decide (is_empty df = false)) as [H|H]; simpl; [by rewrite IH|].
  destruct df; [done | by destruct H].
Qed.

(** C9, as the code has it. For every permutation of the batches, and
    whichever way Polars orders rows that it is free to order, the cleaned
    dataset has the same records, each the same number of times, and the
    same sequence of sort keys; it is the same dataset whenever no two of
    its records share their sort key. This holds of [clean_data] in
    particular, and [main] writes a dataset for the one order exactly when
    it does for the other. *)
Theorem clean_data_batch_order (batches batches' : list frame) :
  batches ≡ₚ batches' ->
  (forall out out',
      cleaned (concat batches) out -> cleaned (concat batches') out' ->
      out ≡ₚ out' /\
      key_of <$> out = key_of <$> out' /\
      (NoDup (key_of <$> out) -> out = out')) /\
  cleaned (concat batches) (clean_data (concat batches)) /\
  cleaned (concat batches') (clean_data (concat batches')) /\
  clean_data (concat batches) ≡ₚ clean_data (concat batches') /\
  key_of <$> clean_data (concat batches) = key_of <$> clean_data (concat batches') /\
  (NoDup (key_of <$> clean_data (concat batches)) ->
   clean_data (concat batches) = clean_data (concat batches')) /\
  match merge_results batches, merge_results batches' with
  | Some out, Some out' =>
      out = clean_data (concat batches) /\ out' = clean_data (concat batches')
  | None, None => True
  | _, _ => False
  end.
Proof.
  intros Hp.
  assert (Hgen : forall out out',
             cleaned (concat batches) out -> cleaned (concat batches') out' ->
             out ≡ₚ out' /\
             key_of <$> out = key_of <$> out' /\
             (NoDup (key_of <$> out) -> out = out')).
  { intros out out' Hc Hc'.
    assert (Hperm : out ≡ₚ out').
    { eapply cleaned_Permutation; [|exact Hc|exact Hc'].
      intros r. by apply elem_of_concat_Permutation. }
    destruct Hc as (_ & _ & _ & _ & Hs). destruct Hc' as (_ & _ & _ & _ & Hs').
    split; [done|]. split; [by apply sorted_keys | by apply sorted_eq]. }
  pose proof (clean_data_cleaned (concat batches)) as Hc.
  pose proof (clean_data_cleaned (concat batches')) as Hc'.
  destruct (Hgen _ _ Hc Hc') as (H1 & H2 & H3).
  repeat (split; [done|]).
  unfold merge_results. cbv zeta.
  assert (Hf : filter (fun df => is_empty df = false) batches
               ≡ₚ filter (fun df => is_empty df = false) batches')
    by (by apply filter_Permutation).
  pose proof (concat_filter_nonempty batches) as Hcf.
  pose proof (concat_filter_nonempty batches') as Hcf'.
  destruct (filter _ batches) as [|b l]; destruct (filter _ batches') as [|b' l'].
  - done.
  - by apply Permutation_nil_cons in Hf.
  - symmetry in Hf. by apply Permutation_nil_cons in Hf.
  - by rewrite Hcf, Hcf'.
Qed.

(** The theorem on the two batches in their two orders. *)
Lemma clean_data_batch_order_witness :
  [batch_one; batch_two] ≡ₚ [batch_two; batch_one] /\
  clean_data (concat [batch_one; batch_two])
    ≡ₚ clean_data (concat [batch_two; batch_one]) /\
  key_of <$> clean_data (concat [batch_one; batch_two])
  = key_of <$> clean_data (concat [batch_two; batch_one]).
Proof.
  assert (Hp : [batch_one; batch_two] ≡ₚ [batch_two; batch_one]) by apply perm_swap.
  destruct (clean_data_batch_order _ _ Hp) as (_ & _ & _ & H1 & H2 & _).
  split; [exact Hp|]. split; [exact H1 | exact H2].
Defined.

Lemma cleaned_two (df : frame) (x y : TradeRecord) :
  x <> y -> (forall r, r ∈ [x; y] <-> r ∈ df) ->
  all_zero x = false -> all_zero y = false ->
  record_le (with_columns x) (with_columns y) ->
  cleaned df [with_columns x; with_columns y].
Proof.
  intros Hne He Hx Hy Hle. exists [x; y].
  split. { apply NoDup_cons. split; [|apply NoDup_singleton].
           by intros ?%list_elem_of_singleton. }
  split; [done|]. split.
  - rewrite !fmap_cons, !filter_cons, !all_zero_with_columns, Hx, Hy. simpl.
    done.
  - apply Sorted_cons; [apply Sorted_cons; [apply Sorted_nil | apply HdRel_nil]|].
    by apply HdRel_cons.
Qed.

(** C9 as stated fails: the records of [batch_one] and [batch_two] have the
    same sort key, so that either order of the two is a sorted result, for
    the one order of the batches as for the other; and [clean_data] leaves
    them in the order in which they came in. *)
Lemma batch_order_shows :
  clean_data (concat [batch_one; batch_two])
  = [rice (Some 1%Z) (Some "KG") (Some 2%Z) (Some 3%Z);
     rice (Some 7%Z) (Some "KG") (Some 2%Z) (Some 3%Z)] /\
  clean_data (concat [batch_two; batch_one])
  = [rice (Some 7%Z) (Some "KG") (Some 2%Z) (Some 3%Z);
     rice (Some 1%Z) (Some "KG") (Some 2%Z) (Some 3%Z)] /\
  ~ (forall batches batches' : list frame,
        batches ≡ₚ batches' ->
        clean_data (concat batches) = clean_data (concat batches')) /\
  cleaned (concat [batch_one; batch_two])
    [rice (Some 7%Z) (Some "KG") (Some 2%Z) (Some 3%Z);
     rice (Some 1%Z) (Some "KG") (Some 2%Z) (Some 3%Z)] /\
  cleaned (concat [batch_two; batch_one])
    [rice (Some 1%Z) (Some "KG") (Some 2%Z) (Some 3%Z);
     rice (Some 7%Z) (Some "KG") (Some 2%Z) (Some 3%Z)].
Proof.
  split; [reflexivity|]. split; [reflexivity|]. split.
  { intros H.
    specialize (H [batch_one; batch_two] [batch_two; batch_one] (perm_swap _ _ _)).
    vm_compute in H. discriminate H. }
  split.
  - apply (cleaned_two _ (rice (Some 7%Z) (Some "KG") (Some 2%Z) (Some 3%Z))
             (rice (Some 1%Z) (Some "KG") (Some 2%Z) (Some 3%Z)));
      [discriminate | | reflexivity | reflexivity
      | unfold record_le; simpl; reflexivity].
    intros r. simpl. rewrite !elem_of_cons, !elem_of_nil. tauto.
  - apply (cleaned_two _ (rice (Some 1%Z) (Some "KG") (Some 2%Z) (Some 3%Z))
             (rice (Some 7%Z) (Some "KG") (Some 2%Z) (Some 3%Z)));
      [discriminate | | reflexivity | reflexivity
      | unfold record_le; simpl; reflexivity].
    intros r. simpl. rewrite !elem_of_cons, !elem_of_nil. tauto.
Qed.

(** The cleaned dataset is sorted by the key: every record comes before all
    the records after it. *)
Lemma clean_data_strongly_sorted (df : frame) : StronglySorted record_le (clean_data df).
Proof. apply Sorted_StronglySorted; [apply _ | apply clean_data_sorted]. Qed.

(** Without units that the cleaning rewrites, no row occurs twice. *)
Lemma clean_data_NoDup (df : frame) :
  (forall r, r ∈ df -> clean_unit (Unit r) = Unit r) -> NoDup (clean_data df).
Proof.
  intros Hfix. unfold clean_data, sort, unique. rewrite merge_sort_Permutation.
  apply NoDup_filter.
  assert (Hid : with_columns <$> remove_dups df = remove_dups df).
  { rewrite <- (list_fmap_id (remove_dups df)) at 2. apply list_fmap_ext.
    intros _ r Hr%list_elem_of_lookup_2. rewrite elem_of_remove_dups in Hr.
    unfold with_columns. rewrite (Hfix r Hr). by destruct r. }
  rewrite Hid. apply NoDup_remove_dups.
Qed.

(** C6 at two rows that differ in the unit only, blank in the one and "N/A"
    in the other: both pass the deduplication, the cleaning then gives both
    the unit "N/A", and the result holds the same record twice, in
    [clean_data] as in every result that Polars may give. The result is
    sorted all the same. *)
Theorem clean_data_duplicate_rows :
  NoDup blank_unit_rows /\
  clean_data blank_unit_rows
  = [rice (Some 1%Z) (Some "N/A") (Some 2%Z) (Some 3%Z);
     rice (Some 1%Z) (Some "N/A") (Some 2%Z) (Some 3%Z)] /\
  ~ NoDup (clean_data blank_unit_rows) /\
  (forall out, cleaned blank_unit_rows out -> ~ NoDup out) /\
  Sorted record_le (clean_data blank_unit_rows).
Proof.
  assert (Hnd : NoDup blank_unit_rows).
  { apply NoDup_cons. split; [|apply NoDup_singleton].
    intros H%list_elem_of_singleton. discriminate H. }
  assert (Hall : forall out, cleaned blank_unit_rows out -> ~ NoDup out).
  { intros out (u & Hu & He & Hp & _) Hout.
    assert (Hub : u ≡ₚ blank_unit_rows) by (by apply NoDup_Permutation).
    rewrite Hp, Hub in Hout. vm_compute in Hout.
    apply NoDup_cons in Hout as [Hin _]. apply Hin. left. }
  split; [done|]. split; [reflexivity|].
  split; [apply Hall, clean_data_cleaned|].
  split; [done | apply clean_data_sorted].
Qed.

(** Such rows come out of a sheet: [unit_sheet] gives two records that
    differ in the unit only, and the cleaning makes them one record, twice. *)
Example duplicate_rows_from_a_sheet :
  parse_xls_file digits_only (fun _ _ => Return unit_sheet) true [] 2021 11 export
  = Return [mk_record "RICE" "NEPAL" "" 2021 11 "Export" (Some 12%Z) (Some "") None None;
            mk_record "RICE" "NEPAL" "" 2021 11 "Export" (Some 12%Z) (Some "N/A") None None] /\
  clean_data
    [mk_record "RICE" "NEPAL" "" 2021 11 "Export" (Some 12%Z) (Some "") None None;
     mk_record "RICE" "NEPAL" "" 2021 11 "Export" (Some 12%Z) (Some "N/A") None None]
  = [mk_record "RICE" "NEPAL" "" 2021 11 "Export" (Some 12%Z) (Some "N/A") None None;
     mk_record "RICE" "NEPAL" "" 2021 11 "Export" (Some 12%Z) (Some "N/A") None None].
Proof. split; reflexivity. Qed.

End ParseProofs.

Module CrawlProofs.
Import Fetch FetchSpec CrawlSpec FetchProofs.

Section steps.
Variable ZipFile : bytes -> zip_outcome.
Variable http_get : nat -> string -> get_outcome.

Local Abbreviation process_series := (Fetch.process_series ZipFile http_get).
Local Abbreviation loop_body := (Fetch.loop_body ZipFile http_get).
Local Abbreviation iterate := (Fetch.iterate ZipFile http_get).
Local Abbreviation while_loop := (Fetch.while_loop ZipFile http_get).
Local Abbreviation cf := consecutive_failures.
Local Abbreviation series_step := (CrawlSpec.series_step ZipFile http_get).

Lemma process_series_inv (t : data_type) (st st' : crawl_state) (made made' : bool) :
  process_series t (st, made) = Return (st', made') ->
  current_date st' = current_date st /\ sleeps st' = sleeps st /\
  (forall t', t' <> t -> get_failures (cf st') t' = get_failures (cf st) t') /\
  series_step t st made st' made'.
Proof.
  unfold Fetch.process_series, fetch_month_data, new_datetime.
  destruct (bool_decide (artifact_path t _ _ ∈ files st)) eqn:Hp.
  - intros [= <- <-]. cbn [current_date sleeps consecutive_failures].
    repeat split; [by destruct t; intros [] ?|].
    apply step_skip; try done. by destruct t.
  - destruct (valid_date _ _) eqn:Hv; cbn [bind]; [|discriminate].
    rewrite validate_truthy.
    assert (Hurl : build_url (mk_date (year (current_date st)) (month (current_date st))) t
                   = build_url (current_date st) t) by (by destruct (current_date st)).
    rewrite Hurl.
    destruct (bool_decide (validate ZipFile _ <> None)) eqn:Hok;
      intros [= <- <-]; cbn [current_date sleeps consecutive_failures];
      (split; [done|]); (split; [done|]);
      (split; [by destruct t; intros [] ?|]);
      (eapply step_fetch;
       [done | done | symmetry; exact Hok | reflexivity | reflexivity | reflexivity
       | by destruct t]).
Qed.

Lemma series_step_files (t : data_type) (st st' : crawl_state) (made made' : bool) :
  series_step t st made st' made' -> files st ⊆ files st'.
Proof.
  intros [? -> _ _ _|ok _ _ _ _ -> _ _]; [done|].
  destruct ok; unfold save_zip_file; set_solver.
Qed.

Lemma previous_month_inv (d d' : datetime) :
  previous_month d = Return d' ->
  d' = month_before d /\ valid_date (year d') (month d') = true.
Proof.
  unfold previous_month, month_before, new_datetime.
  destruct (month d =? 1)%Z; destruct (valid_date _ _) eqn:Hv; intros [= <-]; done.
Qed.

Lemma loop_body_inv (st st' : crawl_state) :
  loop_body st = Return st' ->
  exists s1 m1 s2 m2,
    process_series import (st, false) = Return (s1, m1) /\
    process_series export (s1, m1) = Return (s2, m2) /\
    current_date st' = month_before (current_date st) /\
    valid_date (year (current_date st')) (month (current_date st')) = true /\
    cf st' = cf s2 /\ files st' = files s2 /\ requests st' = requests s2 /\
    sleeps st' = (if m2 then S (sleeps st) else sleeps st).
Proof.
  unfold Fetch.loop_body.
  destruct (process_series import (st, false)) as [[s1 m1]|] eqn:H1; [|discriminate].
  cbn [bind].
  destruct (process_series export (s1, m1)) as [[s2 m2]|] eqn:H2; [|discriminate].
  cbn [bind fst snd].
  destruct (previous_month (current_date s2)) as [d|] eqn:Hd; [|discriminate].
  cbn [bind]. intros [= <-]. cbn [current_date consecutive_failures files requests sleeps].
  apply process_series_inv in H1 as H1'. destruct H1' as (Hd1 & Hs1 & _).
  apply process_series_inv in H2 as H2'. destruct H2' as (Hd2 & Hs2 & _).
  apply previous_month_inv in Hd as [-> Hv].
  exists s1, m1, s2, m2. rewrite Hd2, Hd1 in *. rewrite Hs2, Hs1. done.
Qed.

(** ** The counters and the log *)

Lemma trailing_failures_snoc (l : list request) (r : request) :
  trailing_failures (l ++ [r]) =
  if req_ok r then 0 else S (trailing_failures l).
Proof. unfold trailing_failures. by rewrite reverse_snoc. Qed.

Lemma trailing_failures_length (l : list request) :
  trailing_failures l <= length l.
Proof.
  unfold trailing_failures. rewrite <- (length_reverse l).
  induction (reverse l) as [|r l' IH]; simpl; [lia|]. destruct (req_ok r); lia.
Qed.

Lemma requests_of_snoc (t : data_type) (l : list request) (r : request) :
  requests_of t (l ++ [r]) =
  if decide (req_type r = t) then (requests_of t l ++ [r])%list else requests_of t l.
Proof.
  unfold requests_of. rewrite filter_app, filter_cons, filter_nil.
  destruct (decide (req_type r = t)); [done | by rewrite app_nil_r].
Qed.

Lemma requests_of_length (l : list request) :
  length (requests_of import l) + length (requests_of export l) = length l.
Proof.
  unfold requests_of. induction l as [|r l IH]; [done|].
  rewrite !filter_cons. destruct r as [[] y m ok]; simpl; lia.
Qed.

Lemma process_series_counted (t : data_type) (st st' : crawl_state) (made made' : bool) :
  process_series t (st, made) = Return (st', made') -> counted st -> counted st'.
Proof.
  intros H Hc t'. apply process_series_inv in H as (_ & _ & Ho & Hstep).
  destruct (decide (t' = t)) as [->|Hne].
  - destruct Hstep as [_ _ _ _ ->|ok _ _ _ -> _ _ ->]; [lia|].
    rewrite requests_of_snoc. cbn [req_type]. rewrite decide_True by done.
    rewrite trailing_failures_snoc. cbn [req_ok]. destruct ok; [lia|].
    specialize (Hc t). lia.
  - rewrite (Ho t' Hne).
    destruct Hstep as [_ _ -> _ _|ok _ _ _ -> _ _ _]; [apply Hc|].
    rewrite requests_of_snoc. cbn [req_type]. rewrite decide_False by done. apply Hc.
Qed.

Lemma loop_body_counted (st st' : crawl_state) :
  loop_body st = Return st' -> counted st -> counted st'.
Proof.
  intros H Hc. apply loop_body_inv in H
    as (s1 & m1 & s2 & m2 & H1 & H2 & _ & _ & Hcf & _ & Hr & _).
  apply process_series_counted in H1; [|done].
  apply process_series_counted in H2; [|done].
  intros t. rewrite Hcf, Hr. apply H2.
Qed.

Lemma while_loop_counted (fuel : nat) (st st' : crawl_state) :
  while_loop fuel st = Finished st' -> counted st ->
  counted st' /\ loop_condition st' = false.
Proof.
  revert st. induction fuel as [|fuel IH]; intros st; simpl;
    destruct (loop_condition st) eqn:Hc; try discriminate.
  - intros [= <-]. done.
  - destruct (Fetch.loop_body ZipFile http_get st) as [s1|] eqn:Hb; [|discriminate].
    intros H ?. apply (IH s1 H). by eapply loop_body_counted.
  - intros [= <-]. done.
Qed.

(** ** The files *)

Lemma saved_paths_app (l1 l2 : list request) :
  saved_paths (l1 ++ l2) = (saved_paths l1 ++ saved_paths l2)%list.
Proof. unfold saved_paths. by rewrite filter_app, fmap_app. Qed.

Lemma saved_app (l1 l2 : list request) : saved (l1 ++ l2) = saved l1 ∪ saved l2.
Proof. unfold saved. by rewrite saved_paths_app, list_to_set_app_L. Qed.

Lemma elem_of_saved (p : string) (l : list request) : p ∈ saved l <-> p ∈ saved_paths l.
Proof. unfold saved. apply elem_of_list_to_set. Qed.

Lemma saved_paths_singleton (r : request) :
  saved_paths [r] = if req_ok r then [request_path r] else [].
Proof.
  unfold saved_paths. destruct r as [t y m []]; cbn [req_ok].
  - by rewrite filter_cons_True.
  - by rewrite filter_cons_False.
Qed.

Lemma extends_refl (st : crawl_state) : extends st st [].
Proof.
  split; simpl; [by rewrite app_nil_r | set_solver | by intros r ?%elem_of_nil
                | constructor | lia..].
Qed.

Lemma saved_paths_absent (fs : gset string) (l : list request) :
  (forall r, r ∈ l -> request_path r ∉ fs) ->
  forall p, p ∈ saved_paths l -> p ∉ fs.
Proof.
  intros Ha p (r & -> & Hin)%list_elem_of_fmap.
  apply list_elem_of_filter in Hin as [_ Hin]. by apply Ha.
Qed.

Lemma extends_trans (s1 s2 s3 : crawl_state) (l1 l2 : list request) :
  extends s1 s2 l1 -> extends s2 s3 l2 -> extends s1 s3 (l1 ++ l2).
Proof.
  intros [Hr1 Hf1 Ha1 Hn1 Hs1 Ht1] [Hr2 Hf2 Ha2 Hn2 Hs2 Ht2]. split.
  - by rewrite Hr2, Hr1, app_assoc.
  - rewrite Hf2, Hf1, saved_app. set_solver.
  - intros r [Hin|Hin]%elem_of_app; [by apply Ha1|].
    intros Hp. apply (Ha2 r Hin). rewrite Hf1. set_solver.
  - rewrite saved_paths_app. apply NoDup_app. split; [done|]. split; [|done].
    intros p Hp1 Hp2. apply (saved_paths_absent _ _ Ha2 p Hp2).
    rewrite Hf1. apply elem_of_union_r. by apply elem_of_saved.
  - rewrite length_app. lia.
  - rewrite length_app. lia.
Qed.

(** One iteration of the [while]: at most one request per series. *)
Lemma series_step_new (t : data_type) (st st' : crawl_state) (made made' : bool) :
  process_series t (st, made) = Return (st', made') ->
  exists new,
    requests st' = (requests st ++ new)%list /\
    files st' = files st ∪ saved new /\
    (forall r, r ∈ new -> request_path r ∉ files st) /\
    length new <= 1 /\
    made' = (made || bool_decide (new <> [])).
Proof.
  intros H. apply process_series_inv in H as (_ & _ & _ & Hstep).
  destruct Hstep as [Hp Hf Hr -> _|ok Hp _ _ Hr Hf -> _].
  - exists []. rewrite Hf, Hr, app_nil_r. simpl.
    split; [done|]. split; [set_solver|]. split; [by intros r ?%elem_of_nil|].
    split; [lia|]. by rewrite orb_false_r.
  - eexists. split; [exact Hr|]. rewrite Hf.
    unfold present in Hp. apply bool_decide_eq_false in Hp.
    split; [|split; [|split; [simpl; lia | by rewrite orb_true_r]]].
    + unfold saved. rewrite saved_paths_singleton. cbn [req_ok].
      destruct ok; unfold save_zip_file, request_path; simpl; set_solver.
    + intros r ->%list_elem_of_singleton. exact Hp.
Qed.

Lemma NoDup_short (l : list request) : length l <= 1 -> NoDup (saved_paths l).
Proof.
  destruct l as [|r [|r' l]]; simpl; [constructor | | lia]. intros _.
  rewrite saved_paths_singleton. destruct (req_ok r); [apply NoDup_singleton | constructor].
Qed.

Lemma loop_body_extends (st st' : crawl_state) :
  loop_body st = Return st' -> exists new, extends st st' new.
Proof.
  intros H. apply loop_body_inv in H
    as (s1 & m1 & s2 & m2 & H1 & H2 & _ & _ & _ & Hf & Hr & Hs).
  apply series_step_new in H1 as (n1 & Hr1 & Hf1 & Ha1 & Hl1 & Hm1).
  apply series_step_new in H2 as (n2 & Hr2 & Hf2 & Ha2 & Hl2 & Hm2).
  exists (n1 ++ n2)%list. split.
  - by rewrite Hr, Hr2, Hr1, app_assoc.
  - rewrite Hf, Hf2, Hf1, saved_app. set_solver.
  - intros r [Hin|Hin]%elem_of_app; [by apply Ha1|].
    intros Hp. apply (Ha2 r Hin). rewrite Hf1. set_solver.
  - rewrite saved_paths_app. apply NoDup_app.
    split; [by apply NoDup_short|]. split; [|by apply NoDup_short].
    intros p Hp1 Hp2. apply (saved_paths_absent _ _ Ha2 p Hp2).
    rewrite Hf1. apply elem_of_union_r. by apply elem_of_saved.
  - rewrite Hs, Hm2, Hm1, length_app. simpl.
    destruct n1, n2; simpl in *; lia.
  - rewrite Hs, Hm2, Hm1, length_app. simpl.
    destruct n1, n2; simpl in *; lia.
Qed.

Lemma iterate_extends (n : nat) (st st' : crawl_state) :
  iterate n st = Return st' ->
  exists new, extends st st' new /\ sleeps st' <= sleeps st + n.
Proof.
  revert st. induction n as [|n IH]; intros st; simpl.
  - intros [= <-]. exists []. split; [apply extends_refl | lia].
  - destruct (Fetch.loop_body ZipFile http_get st) as [s1|] eqn:Hb; [|discriminate].
    cbn [bind]. intros H. apply IH in H as (l2 & H2 & Hs2).
    pose proof Hb as Hb'. apply loop_body_extends in Hb as (l1 & H1).
    apply loop_body_inv in Hb' as (? & ? & ? & m2 & _ & _ & _ & _ & _ & _ & _ & Hs).
    exists (l1 ++ l2)%list. split; [by eapply extends_trans|].
    destruct m2; lia.
Qed.

(** ** A series that never fails *)

Lemma never_fails_step (t : data_type) (st st' : crawl_state) :
  never_fails ZipFile http_get t (files st) (current_date st) ->
  loop_body st = Return st' ->
  get_failures (cf st') t = 0 /\
  never_fails ZipFile http_get t (files st') (current_date st').
Proof.
  intros Hnf H. apply loop_body_inv in H
    as (s1 & m1 & s2 & m2 & H1 & H2 & Hd & _ & Hcf & Hf & _ & _).
  apply process_series_inv in H1 as (Hd1 & _ & Ho1 & Hs1).
  apply process_series_inv in H2 as (Hd2 & _ & Ho2 & Hs2).
  pose proof (series_step_files _ _ _ _ _ Hs1) as Hsub1.
  pose proof (series_step_files _ _ _ _ _ Hs2) as Hsub2.
  split.
  - rewrite Hcf. pose proof (Hnf 0) as Hnow. cbn [months_before] in Hnow.
    destruct t.
    + rewrite (Ho2 import) by done.
      destruct Hs1 as [_ _ _ _ ->|ok Hp _ -> _ _ _ ->]; [done|].
      destruct Hnow as [Hin|Hup].
      * unfold present in Hp. apply bool_decide_eq_false in Hp. done.
      * rewrite bool_decide_eq_true_2 by apply Hup. done.
    + destruct Hs2 as [_ _ _ _ ->|ok Hp _ -> _ _ _ ->]; [done|].
      destruct Hnow as [Hin|Hup].
      * unfold present in Hp. apply bool_decide_eq_false in Hp.
        rewrite Hd1 in Hp. exfalso. apply Hp. by apply Hsub1.
      * rewrite Hd1, bool_decide_eq_true_2 by apply Hup. done.
  - intros k. rewrite Hd, Hf. destruct (Hnf (S k)) as [Hin|Hup].
    + left. cbn [months_before] in Hin. apply Hsub2, Hsub1, Hin.
    + right. exact Hup.
Qed.

Lemma never_fails_loop_condition (t : data_type) (st : crawl_state) :
  get_failures (cf st) t < max_consecutive_failures -> loop_condition st = true.
Proof.
  unfold loop_condition, min_failures. intros H. apply Nat.ltb_lt.
  destruct t; simpl in H; lia.
Qed.

(** With a valid cursor only the move to the month before can raise. *)
Lemma loop_body_valid (st : crawl_state) :
  valid_date (year (current_date st)) (month (current_date st)) = true ->
  match previous_month (current_date st) with
  | Return _ => exists st', loop_body st = Return st'
  | Raise e => loop_body st = Raise e
  end.
Proof.
  intros Hv.
  destruct (process_series_step ZipFile http_get import st false Hv)
    as (s1 & m1 & H1 & Hd1 & _).
  assert (Hv1 : valid_date (year (current_date s1)) (month (current_date s1)) = true)
    by (by rewrite Hd1).
  destruct (process_series_step ZipFile http_get export s1 m1 Hv1)
    as (s2 & m2 & H2 & Hd2 & _).
  unfold Fetch.loop_body. rewrite H1. cbn [bind]. rewrite H2. cbn [bind fst snd].
  rewrite Hd2, Hd1. destruct (previous_month (current_date st)); cbn [bind]; eauto.
Qed.

Lemma previous_month_calendar_start (d : datetime) :
  valid_date (year d) (month d) = true ->
  (month_index d <= 12)%Z ->
  previous_month d = Raise ValueError.
Proof.
  unfold valid_date, month_index, previous_month, new_datetime.
  destruct d as [y m]; simpl. rewrite !andb_true_iff, !Z.leb_le. intros Hv Hi.
  assert (y = 1 /\ m = 1)%Z as [-> ->] by lia. reflexivity.
Qed.

Lemma previous_month_valid (d : datetime) :
  valid_date (year d) (month d) = true ->
  (12 < month_index d)%Z ->
  previous_month d = Return (month_before d) /\
  month_index (month_before d) = (month_index d - 1)%Z.
Proof.
  intros Hv Hi.
  destruct (previous_month_ok d 0) as [Hp _]; [split; [done | lia]|].
  split; [done|]. unfold month_before, month_index.
  destruct d as [y m]; simpl in *. destruct (Z.eqb_spec m 1); simpl; lia.
Qed.

Lemma never_fails_crash (t : data_type) (fuel : nat) (st : crawl_state) :
  get_failures (cf st) t < max_consecutive_failures ->
  never_fails ZipFile http_get t (files st) (current_date st) ->
  valid_date (year (current_date st)) (month (current_date st)) = true ->
  Z.to_nat (month_index (current_date st) - 12) < fuel ->
  while_loop fuel st = Crashed ValueError.
Proof.
  revert st. induction fuel as [|fuel IH]; intros st Hc Hnf Hv Hfuel; [lia|].
  simpl. rewrite (never_fails_loop_condition t st Hc).
  pose proof (loop_body_valid st Hv) as Hb.
  destruct (decide (month_index (current_date st) <= 12)%Z) as [Hi|Hi].
  - rewrite previous_month_calendar_start in Hb by done. by rewrite Hb.
  - destruct (previous_month_valid (current_date st)) as [Hp Hidx]; [done | lia|].
    rewrite Hp in Hb. destruct Hb as [s1 Hb]. rewrite Hb.
    destruct (never_fails_step t st s1 Hnf Hb) as [H0 Hnf'].
    apply loop_body_inv in Hb as (_ & _ & _ & _ & _ & _ & Hd & Hv1 & _).
    apply IH; try done.
    + rewrite H0. unfold max_consecutive_failures. lia.
    + rewrite Hd, Hidx. lia.
Qed.
End steps.

(** X1. A run that ends normally has seen, for each of the two series, at
    least five requests, and the last five of each failed: the loop never
    stops on months that were skipped or fetched. *)
Theorem finished_after_five_failures
    (ZipFile : bytes -> zip_outcome) (http_get : nat -> string -> get_outcome)
    (fuel : nat) (today : datetime) (fs : gset string) (st' : crawl_state) :
  main ZipFile http_get fuel today fs = Finished st' ->
  (forall t, max_consecutive_failures
             <= trailing_failures (requests_of t (requests st'))) /\
  2 * max_consecutive_failures <= length (requests st').
Proof.
  unfold main. destruct (if (month today =? 1)%Z then _ else _) as [d|]; [|done].
  intros H. apply while_loop_counted in H as [Hc Hcond].
  - unfold loop_condition, min_failures in Hcond. apply Nat.ltb_ge in Hcond.
    assert (Ht : forall t, max_consecutive_failures
                           <= trailing_failures (requests_of t (requests st'))).
    { intros t. specialize (Hc t). destruct t; simpl in Hc; lia. }
    split; [exact Ht|].
    pose proof (Ht import). pose proof (Ht export).
    pose proof (trailing_failures_length (requests_of import (requests st'))).
    pose proof (trailing_failures_length (requests_of export (requests st'))).
    pose proof (requests_of_length (requests st')). lia.
  - intros t. simpl. destruct t; simpl; lia.
Qed.

(** The theorem at a run of November 2026 against a source that is down. *)
Lemma finished_after_five_failures_witness :
  exists st',
    main zip_ok source_down 5 (mk_date 2026 11) ∅ = Finished st' /\
    2 * max_consecutive_failures <= length (requests st').
Proof.
  assert (H : exists st', main zip_ok source_down 5 (mk_date 2026 11) ∅ = Finished st')
    by (eexists; vm_compute; reflexivity).
  destruct H as [st' H]. exists st'. split; [exact H|].
  apply (finished_after_five_failures zip_ok source_down 5 (mk_date 2026 11) ∅ st' H).
Defined.

(** X2. As long as one series never fails (its archive is under [raw/] or
    the source delivers it), the loop does not end normally, however often
    the other series fails. *)
Theorem live_series_keeps_crawl_going
    (ZipFile : bytes -> zip_outcome) (http_get : nat -> string -> get_outcome)
    (t : data_type) (fuel : nat) (st : crawl_state) :
  get_failures (consecutive_failures st) t < max_consecutive_failures ->
  never_fails ZipFile http_get t (files st) (current_date st) ->
  forall st', while_loop ZipFile http_get fuel st <> Finished st'.
Proof.
  revert st. induction fuel as [|fuel IH]; intros st Hc Hnf st'; simpl;
    rewrite (never_fails_loop_condition t st Hc); [done|].
  destruct (loop_body ZipFile http_get st) as [s1|] eqn:Hb; [|done].
  destruct (never_fails_step ZipFile http_get t st s1 Hnf Hb) as [H0 Hnf'].
  apply IH; [|done]. rewrite H0. unfold max_consecutive_failures. lia.
Qed.

Lemma imports_only_never_fails (fs : gset string) (d : datetime) :
  never_fails zip_ok imports_only import fs d.
Proof. intros k. right. intros n. unfold imports_only, build_url. simpl. done. Qed.

(** The theorem at a source that has the import series only. *)
Lemma live_series_keeps_crawl_going_witness :
  get_failures (consecutive_failures fresh_start) import < max_consecutive_failures /\
  forall st', while_loop zip_ok imports_only 7 fresh_start <> Finished st'.
Proof.
  assert (H : get_failures (consecutive_failures fresh_start) import
              < max_consecutive_failures) by (vm_compute; lia).
  split; [exact H|].
  apply (live_series_keeps_crawl_going zip_ok imports_only import 7 fresh_start H).
  apply imports_only_never_fails.
Defined.

(** X3. Whatever the source answers, a run adds to [raw/] exactly the
    archives of its successful requests and removes nothing; it asks only
    for archives that were not there when it started, and saves no archive
    twice. *)
Theorem run_saves_its_successes
    (ZipFile : bytes -> zip_outcome) (http_get : nat -> string -> get_outcome)
    (n : nat) (st st' : crawl_state) :
  iterate ZipFile http_get n st = Return st' ->
  exists new,
    requests st' = (requests st ++ new)%list /\
    files st' = files st ∪ saved new /\
    (forall r, r ∈ new -> request_path r ∉ files st) /\
    NoDup (saved_paths new).
Proof.
  intros H. apply iterate_extends in H as (new & [] & _). by exists new.
Qed.

(** The theorem at two iterations against a source that has the import
    series only. *)
Lemma run_saves_its_successes_witness :
  exists st' new,
    iterate zip_ok imports_only 2 fresh_start = Return st' /\
    requests st' = (requests fresh_start ++ new)%list /\
    files st' = files fresh_start ∪ saved new /\
    NoDup (saved_paths new).
Proof.
  destruct (run_saves_its_successes zip_ok imports_only 2 fresh_start
              (mk_state (mk_date 2026 8) (mk_failures 0 2)
                 {[ "raw/import/2026/09.zip"; "raw/import/2026/10.zip" ]}
                 [mk_request import 2026 10 true; mk_request export 2026 10 false;
                  mk_request import 2026 9 true; mk_request export 2026 9 false] 2))
    as (new & Hr & Hf & _ & Hn); [vm_compute; reflexivity|].
  eexists _, new. split; [vm_compute; reflexivity|]. done.
Defined.

(** X4. The pauses follow the requests: an iteration pauses once if it has
    issued a request and not at all otherwise, so over any number of
    iterations there are at most two requests per pause, no pause without a
    request, and no more pauses than iterations. *)
Theorem pauses_follow_requests
    (ZipFile : bytes -> zip_outcome) (http_get : nat -> string -> get_outcome)
    (n : nat) (st st' : crawl_state) :
  iterate ZipFile http_get n st = Return st' ->
  sleeps st <= sleeps st' <= sleeps st + n /\
  length (requests st) + (sleeps st' - sleeps st) <= length (requests st')
  <= length (requests st) + 2 * (sleeps st' - sleeps st).
Proof.
  intros H. apply iterate_extends in H as (new & [Hr _ _ _ Hs Ht] & Hn).
  rewrite Hr, length_app. lia.
Qed.

(** The theorem at two iterations against a source that is down. *)
Lemma pauses_follow_requests_witness :
  exists st',
    iterate zip_ok source_down 2 fresh_start = Return st' /\
    sleeps st' = 2 /\ length (requests st') = 4.
Proof.
  eexists. split; [vm_compute; reflexivity|].
  assert (H := pauses_follow_requests zip_ok source_down 2 fresh_start _
                 ltac:(vm_compute; reflexivity)).
  vm_compute in H |- *. lia.
Defined.

(** X5. A run in which one series never fails ends with the [ValueError] of
    [datetime] when the cursor is moved before January of year 1, at the
    latest after as many iterations as there are months between that month
    and today. *)
Theorem live_series_ends_at_calendar_start
    (ZipFile : bytes -> zip_outcome) (http_get : nat -> string -> get_outcome)
    (t : data_type) (fuel : nat) (today : datetime) (fs : gset string) :
  valid_date (year today) (month today) = true ->
  never_fails ZipFile http_get t fs (month_before today) ->
  Z.to_nat (month_index today - 12) <= fuel ->
  main ZipFile http_get fuel today fs = Crashed ValueError.
Proof.
  intros Hv Hnf Hfuel. unfold main.
  change (if (month today =? 1)%Z then _ else _) with (previous_month today).
  destruct (decide (month_index today <= 12)%Z) as [Hi|Hi].
  - by rewrite previous_month_calendar_start.
  - destruct (previous_month_valid today) as [Hp Hidx]; [done | lia|].
    rewrite Hp. apply previous_month_inv in Hp as [_ Hv'].
    apply (never_fails_crash ZipFile http_get t); cbn [current_date files consecutive_failures].
    + destruct t; simpl; unfold max_consecutive_failures; lia.
    + done.
    + done.
    + rewrite Hidx. lia.
Qed.

(** The theorem at a run of March of year 1 against a source that has the
    import series only. *)
Lemma live_series_ends_at_calendar_start_witness :
  valid_date 1 3 = true /\
  main zip_ok imports_only 2 (mk_date 1 3) ∅ = Crashed ValueError.
Proof.
  split; [reflexivity|].
  apply (live_series_ends_at_calendar_start zip_ok imports_only import);
    [reflexivity | apply imports_only_never_fails | vm_compute; lia].
Defined.

End CrawlProofs.

(** * Properties of the paths and of the URLs *)

Module PathProofs.
Import Fetch FetchSpec Parse Archive PathSpec.

Lemma str_app_nil_r (s : string) : s +:+ "" = s.
Proof. induction s as [|c s IH]; [done|]. change (String c (s +:+ "") = String c s). by rewrite IH. Qed.

Lemma str_app_assoc (a b c : string) : (a +:+ b) +:+ c = a +:+ (b +:+ c).
Proof.
  induction a as [|x a IH]; [done|].
  change (String x ((a +:+ b) +:+ c) = String x (a +:+ (b +:+ c))). by rewrite IH.
Qed.

Lemma app_sep_inj (c : ascii) (a a' r r' : string) :
  free_of c a = true -> free_of c a' = true ->
  a +:+ String c r = a' +:+ String c r' -> a = a' /\ r = r'.
Proof.
  revert a'. induction a as [|x a IH]; intros [|x' a']; simpl.
  - intros _ _ [= ->]. done.
  - intros _ [Hx _]%andb_true_iff [= <- _]. by rewrite Ascii.eqb_refl in Hx.
  - intros [Hx _]%andb_true_iff _ [= -> _]. by rewrite Ascii.eqb_refl in Hx.
  - intros [_ Ha]%andb_true_iff [_ Ha']%andb_true_iff [= -> H].
    destruct (IH a' Ha Ha' H) as [-> ->]. done.
Qed.

Lemma components_sep (cur a rest : string) :
  free_of "/" a = true ->
  components cur (a +:+ String "/" rest) = (cur +:+ a) :: components "" rest.
Proof.
  revert cur. induction a as [|x a IH]; intros cur.
  - intros _. change (cur :: components "" rest = (cur +:+ "") :: components "" rest).
    by rewrite str_app_nil_r.
  - intros [Hx Ha]%andb_true_iff. apply negb_true_iff in Hx.
    change (components cur (String x (a +:+ String "/" rest))
            = (cur +:+ String x a) :: components "" rest).
    cbn [components]. rewrite Hx, IH by done. f_equal. by rewrite str_app_assoc.
Qed.

Lemma components_last (cur a : string) :
  free_of "/" a = true -> components cur a = [cur +:+ a].
Proof.
  revert cur. induction a as [|x a IH]; intros cur.
  - intros _. cbn [components]. by rewrite str_app_nil_r.
  - intros [Hx Ha]%andb_true_iff. apply negb_true_iff in Hx.
    cbn [components]. rewrite Hx, IH by done. f_equal. by rewrite str_app_assoc.
Qed.

Lemma years_text_ok : forallb year_text_ok (seqZ 1 9999) = true.
Proof. vm_compute. reflexivity. Qed.

Lemma year_text (y : Z) :
  (1 <= y <= 9999)%Z ->
  free_of "/" (pretty y) = true /\ free_of "&" (pretty y) = true /\
  isdigit (pretty y) = true /\ int (pretty y) = y /\
  (String.length (pretty y) = 4 <-> (1000 <= y)%Z).
Proof.
  intros Hy. pose proof years_text_ok as H. rewrite forallb_forall in H.
  specialize (H y). unfold year_text_ok in H.
  rewrite !andb_true_iff, bool_decide_eq_true, Z.eqb_eq in H.
  assert (Hin : In y (seqZ 1 9999)) by (apply list_elem_of_In, elem_of_seqZ; lia).
  destruct (H Hin) as [[[[? ?] ?] ?] ?]. done.
Qed.

Lemma month_cases (m : Z) (P : Z -> Prop) :
  (1 <= m <= 12)%Z ->
  P 1%Z -> P 2%Z -> P 3%Z -> P 4%Z -> P 5%Z -> P 6%Z ->
  P 7%Z -> P 8%Z -> P 9%Z -> P 10%Z -> P 11%Z -> P 12%Z -> P m.
Proof.
  intros Hm. assert (m = 1 \/ m = 2 \/ m = 3 \/ m = 4 \/ m = 5 \/ m = 6 \/ m = 7 \/
                     m = 8 \/ m = 9 \/ m = 10 \/ m = 11 \/ m = 12)%Z as H by lia.
  intros; repeat (destruct H as [->|H]; [assumption|]); by subst.
Qed.

Lemma valid_date_bounds (y m : Z) :
  valid_date y m = true <-> (1 <= y <= 9999)%Z /\ (1 <= m <= 12)%Z.
Proof. unfold valid_date. rewrite !andb_true_iff, !Z.leb_le. lia. Qed.

(** The components of the path of an archive. *)
Lemma parts_artifact_path (t : data_type) (y m : Z) :
  valid_date y m = true ->
  parts (artifact_path t y m)
  = ["raw"; data_type_str t; pretty y; pad2 m +:+ ".zip"].
Proof.
  intros [Hy Hm]%valid_date_bounds.
  destruct (year_text y Hy) as (Hslash & _ & Hd & _).
  assert (Hne : pretty y <> "" /\ pretty y <> ".").
  { split; intros He; rewrite He in Hd; discriminate. }
  assert (Hc : components "" (artifact_path t y m)
               = ["raw"; data_type_str t; pretty y; pad2 m +:+ ".zip"]).
  { unfold artifact_path.
    change (components "" ("raw" +:+ String "/" (data_type_str t +:+ String "/"
              (pretty y +:+ String "/" (pad2 m +:+ ".zip"))))
            = ["raw"; data_type_str t; pretty y; pad2 m +:+ ".zip"]).
    rewrite components_sep by done.
    rewrite components_sep by (by destruct t).
    rewrite components_sep by done.
    rewrite components_last; [done|].
    apply (month_cases m (fun m => free_of "/" (pad2 m +:+ ".zip") = true) Hm);
      reflexivity. }
  unfold parts. rewrite Hc.
  rewrite filter_cons_True by done.
  rewrite filter_cons_True by (by destruct t).
  rewrite filter_cons_True by done.
  rewrite filter_cons_True; [done|].
  apply (month_cases m (fun m => pad2 m +:+ ".zip" <> "" /\ pad2 m +:+ ".zip" <> ".") Hm);
    by split.
Qed.

Lemma pad2_inj (m m' : Z) :
  (1 <= m <= 12)%Z -> (1 <= m' <= 12)%Z ->
  pad2 m +:+ ".zip" = pad2 m' +:+ ".zip" -> m = m'.
Proof.
  intros Hm Hm'.
  apply (month_cases m (fun m => pad2 m +:+ ".zip" = pad2 m' +:+ ".zip" -> m = m') Hm);
    apply (month_cases m' (fun m' => pad2 _ +:+ ".zip" = pad2 m' +:+ ".zip" -> _ = m') Hm');
    (reflexivity || (intros H; vm_compute in H; discriminate H)).
Qed.

(** X6. Two archives of the calendar are saved under the same path only if
    they are the same series, year and month: an archive under [raw/] makes
    the crawl skip its own month and series and no other. *)
Theorem artifact_path_inj (t t' : data_type) (y m y' m' : Z) :
  valid_date y m = true -> valid_date y' m' = true ->
  artifact_path t y m = artifact_path t' y' m' ->
  t = t' /\ y = y' /\ m = m'.
Proof.
  intros Hv Hv' He.
  pose proof (parts_artifact_path t y m Hv) as Hp.
  rewrite He, (parts_artifact_path t' y' m' Hv') in Hp.
  injection Hp as Ht Hy Hm.
  apply valid_date_bounds in Hv as [_ Hb]. apply valid_date_bounds in Hv' as [_ Hb'].
  split; [by destruct t, t'|]. split.
  - symmetry. by apply (inj pretty).
  - symmetry. by apply pad2_inj.
Qed.

Lemma artifact_path_inj_witness :
  valid_date 2021 3 = true /\ valid_date 2021 3 = true /\
  (import = import /\ 2021 = 2021 /\ 3 = 3)%Z.
Proof.
  split; [reflexivity|]. split; [reflexivity|].
  apply (artifact_path_inj import import 2021 3 2021 3); reflexivity.
Defined.

Lemma month_abbr_inj (m m' : Z) (x x' : string) :
  (1 <= m <= 12)%Z -> (1 <= m' <= 12)%Z ->
  month_abbr m +:+ x = month_abbr m' +:+ x' -> m = m' /\ x = x'.
Proof.
  intros Hm Hm'.
  apply (month_cases m (fun m => month_abbr m +:+ x = month_abbr m' +:+ x' -> m = m' /\ x = x') Hm);
    apply (month_cases m' (fun m' => month_abbr _ +:+ x = month_abbr m' +:+ x' -> _ = m' /\ x = x') Hm');
    intros H; cbv [month_abbr String.append] in H;
    first [discriminate H | injection H as H; by split].
Qed.

(** X7. The URL of a request determines the series and the month asked for:
    two requests of the calendar with the same URL are the same request. *)
Theorem build_url_inj (d d' : datetime) (t t' : data_type) :
  valid_date (year d) (month d) = true ->
  valid_date (year d') (month d') = true ->
  build_url d t = build_url d' t' ->
  d = d' /\ t = t'.
Proof.
  destruct d as [y m], d' as [y' m']. cbn [year month].
  intros [Hy Hm]%valid_date_bounds [Hy' Hm']%valid_date_bounds.
  destruct (year_text y Hy) as (_ & Ha & _).
  destruct (year_text y' Hy') as (_ & Ha' & _).
  unfold build_url, get_month_string. cbn [year month].
  intros He.
  apply (inj (String.append _)) in He. apply (inj (String.append _)) in He.
  assert (Ht : t = t').
  { destruct t, t'; try done; cbv [String.append] in He; discriminate He. }
  subst t'. split; [|done].
  apply (inj (String.append _)) in He. apply (inj (String.append _)) in He.
  rewrite !str_app_assoc in He.
  apply month_abbr_inj in He as [-> He]; [|done..].
  apply (inj (String.append _)) in He.
  change ("&datepicker1=" +:+ ?x) with (String "&" ("datepicker1=" +:+ x)) in He.
  apply app_sep_inj in He as [He _]; [|done..].
  apply (inj pretty) in He. by subst.
Qed.

Lemma build_url_inj_witness :
  valid_date 2021 3 = true /\ mk_date 2021 3 = mk_date 2021 3 /\ export = export.
Proof.
  split; [reflexivity|].
  apply (build_url_inj (mk_date 2021 3) (mk_date 2021 3) export export); reflexivity.
Defined.

End PathProofs.

(** * Properties of parse.py: paths and archives *)

Module ArchiveProofs.
Import Fetch FetchSpec Parse ParseSpec Archive PathSpec PathProofs ParseProofs.

(** ** [extract_path_info] *)

Lemma digits_not_word (p : string) :
  isdigit p = true ->
  String.eqb p "import" = false /\ String.eqb p "export" = false /\
  endswith ".zip" p = false.
Proof.
  unfold isdigit. intros [_ Hd]%andb_true_iff.
  assert (Hc : forall c, is_digit c = true ->
             Ascii.eqb c "i" = false /\ Ascii.eqb c "e" = false /\ Ascii.eqb c "." = false).
  { intros c. by destruct c as [[] [] [] [] [] [] [] []]. }
  split; [|split].
  - destruct p as [|c p]; [done|]. simpl in Hd. apply andb_true_iff in Hd as [Hd _].
    destruct (Hc c Hd) as (H & _). simpl. by rewrite H.
  - destruct p as [|c p]; [done|]. simpl in Hd. apply andb_true_iff in Hd as [Hd _].
    destruct (Hc c Hd) as (_ & H & _). simpl. by rewrite H.
  - induction p as [|c p IH]; [done|]. simpl in Hd. apply andb_true_iff in Hd as [Hd Hp].
    destruct (Hc c Hd) as (_ & _ & H). cbn [endswith]. rewrite (IH Hp), orb_false_r.
    simpl. by rewrite H.
Qed.

(** A part made of digits is a year if it has four of them and is ignored
    otherwise. *)
Lemma scan_part_digits (info : path_info) (p : string) :
  isdigit p = true ->
  scan_part info p =
  if (String.length p =? 4)%nat
  then mk_info (Some (int p)) (info_month info) (info_type info)
  else info.
Proof.
  intros Hd. destruct (digits_not_word p Hd) as (Hi & He & Hz).
  unfold scan_part. rewrite Hi, He, Hd, Hz. simpl.
  by destruct (String.length p =? 4)%nat.
Qed.

Lemma scan_part_month (info : path_info) (m : Z) :
  (1 <= m <= 12)%Z ->
  scan_part info (pad2 m +:+ ".zip")
  = mk_info (info_year info) (Some m) (info_type info).
Proof.
  intros Hm. destruct info as [a b c].
  apply (month_cases m (fun m => scan_part _ (pad2 m +:+ ".zip") = mk_info _ (Some m) _) Hm);
    vm_compute; reflexivity.
Qed.

(** X8. The paths written by the crawl are read back by the parser: for a
    year of four digits [extract_path_info] finds the year, the month and
    the series under which [fetch.py] saved the archive. An archive of a
    year before 1000 has no year for the parser. *)
Theorem extract_path_info_artifact_path (t : data_type) (y m : Z) :
  valid_date y m = true ->
  ((1000 <= y)%Z ->
     extract_path_info (parts (artifact_path t y m))
     = mk_info (Some y) (Some m) (Some t)) /\
  ((y < 1000)%Z ->
     info_year (extract_path_info (parts (artifact_path t y m))) = None).
Proof.
  intros Hv. rewrite parts_artifact_path by done.
  apply valid_date_bounds in Hv as [Hy Hm].
  destruct (year_text y Hy) as (_ & _ & Hd & Hint & Hlen).
  unfold extract_path_info. cbn [foldl].
  assert (H1 : scan_part (mk_info None None None) "raw" = mk_info None None None)
    by reflexivity.
  assert (H2 : scan_part (mk_info None None None) (data_type_str t)
               = mk_info None None (Some t)) by (by destruct t).
  rewrite H1, H2, (scan_part_digits _ _ Hd), scan_part_month by done.
  split; intros Hy'.
  - assert (Hl : (String.length (pretty y) =? 4)%nat = true)
      by (apply Nat.eqb_eq, Hlen, Hy').
    rewrite Hl, Hint. reflexivity.
  - assert (Hl : (String.length (pretty y) =? 4)%nat = false)
      by (apply Nat.eqb_neq; rewrite Hlen; lia).
    rewrite Hl. reflexivity.
Qed.

Lemma extract_path_info_artifact_path_witness :
  valid_date 2021 3 = true /\ (1000 <= 2021)%Z /\
  extract_path_info (parts (artifact_path export 2021 3))
  = mk_info (Some 2021%Z) (Some 3%Z) (Some export).
Proof.
  split; [reflexivity|]. split; [lia|].
  apply (extract_path_info_artifact_path export 2021 3); [reflexivity | lia].
Defined.

Lemma int_digits_bounds (s : string) (acc : Z) :
  all_digits s = true -> (0 <= acc)%Z ->
  (0 <= int_digits acc s < (acc + 1) * 10 ^ Z.of_nat (String.length s))%Z.
Proof.
  revert acc. induction s as [|c s IH]; intros acc; simpl String.length.
  - intros _ Ha. simpl. lia.
  - intros [Hc Hs]%andb_true_iff Ha. cbn [int_digits].
    assert (Hn : (0 <= Z.of_nat (nat_of_ascii c - 48) <= 9)%Z).
    { unfold is_digit in Hc. apply andb_true_iff in Hc as [H1 H2].
      apply Nat.leb_le in H1, H2. lia. }
    specialize (IH (10 * acc + Z.of_nat (nat_of_ascii c - 48))%Z Hs ltac:(lia)).
    rewrite Nat2Z.inj_succ, Z.pow_succ_r by lia. nia.
Qed.

Lemma int_bounds (s : string) :
  isdigit s = true -> (0 <= int s < 10 ^ Z.of_nat (String.length s))%Z.
Proof.
  unfold isdigit, int. intros [_ Hd]%andb_true_iff.
  pose proof (int_digits_bounds s 0 Hd ltac:(lia)). lia.
Qed.

Lemma scanned_parts_step (pre : list string) (info : path_info) (part : string) :
  scanned_parts pre info -> scanned_parts (pre ++ [part])%list (scan_part info part).
Proof.
  intros [Hy Hm Ht Hn].
  assert (Hweak : scanned_parts (pre ++ [part])%list info
                  \/ part = "import" \/ part = "export").
  { destruct (decide (part = "import")) as [|Hi]; [auto|].
    destruct (decide (part = "export")) as [|He]; [auto|]. left. split.
    - intros y H. destruct (Hy y H) as (? & p & ? & ?). split; [done|].
      exists p. split; [|done]. apply elem_of_app. by left.
    - intros m H. destruct (Hm m H) as (? & p & ? & ?). split; [done|].
      exists p. split; [|done]. apply elem_of_app. by left.
    - intros t H. apply elem_of_app. left. by apply Ht.
    - intros H. destruct (Hn H) as [H1 H2].
      split; intros Hin; apply elem_of_app in Hin as [Hin|Hin]; try done;
        apply list_elem_of_singleton in Hin; done. }
  unfold scan_part.
  destruct (String.eqb_spec part "import") as [->|Hi].
  { split; cbn [info_year info_month info_type].
    - intros y H. destruct (Hy y H) as (? & p & ? & ?). split; [done|].
      exists p. split; [|done]. apply elem_of_app. by left.
    - intros m H. destruct (Hm m H) as (? & p & ? & ?). split; [done|].
      exists p. split; [|done]. apply elem_of_app. by left.
    - intros t [= <-]. apply elem_of_app. right. by apply list_elem_of_singleton.
    - done. }
  destruct (String.eqb_spec part "export") as [->|He].
  { split; cbn [info_year info_month info_type].
    - intros y H. destruct (Hy y H) as (? & p & ? & ?). split; [done|].
      exists p. split; [|done]. apply elem_of_app. by left.
    - intros m H. destruct (Hm m H) as (? & p & ? & ?). split; [done|].
      exists p. split; [|done]. apply elem_of_app. by left.
    - intros t [= <-]. apply elem_of_app. right. by apply list_elem_of_singleton.
    - done. }
  destruct Hweak as [[Hy' Hm' Ht' Hn']|[?|?]]; [|done..].
  destruct (isdigit part && (String.length part =? 4)%nat) eqn:Hyear.
  { apply andb_true_iff in Hyear as [Hd Hl]. apply Nat.eqb_eq in Hl.
    split; cbn [info_year info_month info_type]; [|done..].
    intros y [= <-]. pose proof (int_bounds part Hd) as Hb. rewrite Hl in Hb.
    split; [simpl in Hb; lia|]. exists part. split; [|done].
    apply elem_of_app. right. by apply list_elem_of_singleton. }
  destruct (endswith ".zip" part) eqn:Hzip; [|by split].
  destruct (isdigit (remove ".zip" part)) eqn:Hd; [|by split].
  split; cbn [info_year info_month info_type]; [done| |done..].
  intros m [= <-]. pose proof (int_bounds _ Hd). split; [lia|].
  exists part. split; [|done]. apply elem_of_app. right. by apply list_elem_of_singleton.
Qed.

Lemma scanned_parts_foldl (pre l : list string) (info : path_info) :
  scanned_parts pre info -> scanned_parts (pre ++ l)%list (foldl scan_part info l).
Proof.
  revert pre info. induction l as [|part l IH]; intros pre info H; simpl.
  - by rewrite app_nil_r.
  - replace (pre ++ part :: l)%list with ((pre ++ [part]) ++ l)%list
      by (by rewrite <- app_assoc).
    apply IH. by apply scanned_parts_step.
Qed.


(** ** [process_zip_file] *)

Section archive_proofs.
Variable to_numeric : string -> option Z.
Variable read_excel : bytes -> option engine -> outcome DataFrame.
Variable xlrd_available : bool.
Variable ZipFile : list string -> outcome zip_archive.

Local Abbreviation process_entry :=
  (Archive.process_entry to_numeric read_excel xlrd_available).
Local Abbreviation process_zip_file :=
  (Archive.process_zip_file to_numeric read_excel xlrd_available ZipFile).
Local Abbreviation read_sheet := (Parse.read_sheet read_excel xlrd_available).

Lemma process_entry_Some (z : zip_archive) (year month : Z) (t : data_type)
    (xls_file : string) (df : frame) :
  process_entry z year month t xls_file = Some df <->
  df <> [] /\
  exists xls_data,
    read z xls_file = Return xls_data /\
    df = sheet_records to_numeric (read_sheet xls_data) year month t.
Proof.
  unfold Archive.process_entry.
  destruct (read z xls_file) as [xls_data|e]; cbn [bind].
  - rewrite parse_xls_file_rowwise.
    destruct (sheet_records _ _ _ _ _) as [|r l] eqn:Hs; cbn [is_empty negb].
    + split; [done|]. intros [Hne (? & [= <-] & ->)]. by rewrite Hs in Hne.
    + split.
      * intros [= <-]. split; [done|]. by exists xls_data.
      * intros [_ (? & [= <-] & ->)]. by rewrite Hs.
  - split; [done|]. intros [_ (? & [=] & _)].
Qed.

Lemma concat_guard (l : list frame) :
  match l with [] => [] | _ => concat l end = concat l.
Proof. by destruct l. Qed.

Lemma process_zip_file_opened (zip_path : list string) (year month : Z)
    (t : data_type) (z : zip_archive) :
  extract_path_info zip_path = mk_info (Some year) (Some month) (Some t) ->
  ZipFile zip_path = Return z ->
  process_zip_file zip_path
  = concat (omap (process_entry z year month t)
              (filter (fun f => is_spreadsheet f = true) (namelist z))).
Proof.
  intros Hi Hz. unfold Archive.process_zip_file. rewrite Hi, Hz.
  cbn [info_year info_month info_type].
  destruct (filter _ (namelist z)) as [|f l]; [done|]. apply concat_guard.
Qed.

End archive_proofs.


End ArchiveProofs.

(** * Properties of parse.py: one sheet *)

Module SheetProofs.
Import Parse ParseSpec ParseProofs SheetSpec.

(** ** Format detection *)

(** X11. [detect_excel_format] looks at nothing but the length and the
    first eight bytes: a blob shorter than eight bytes has no format, even
    when it starts with the signature of a ZIP file; from eight bytes on it
    is [xlsx] exactly when it starts with [PK] and [xls] exactly when it
    starts with the OLE2 signature, and the two exclude each other. *)
Theorem detect_excel_format_spec (xls_data : bytes) :
  (length xls_data < 8 -> detect_excel_format xls_data = None) /\
  (detect_excel_format xls_data = Some xlsx <->
     8 <= length xls_data /\ take 2 xls_data = [x50; x4b]%byte) /\
  (detect_excel_format xls_data = Some xls <-> take 8 xls_data = OLE2) /\
  (forall rest, 8 <= length xls_data ->
     detect_excel_format (xls_data ++ rest)%list = detect_excel_format xls_data).
Proof.
  unfold detect_excel_format. split; [|split; [|split]].
  - intros H. apply Nat.ltb_lt in H. by rewrite H.
  - destruct (Nat.ltb_spec (length xls_data) 8) as [Hl|Hl].
    + split; [done | intros [? _]; lia].
    + destruct (decide (take 2 xls_data = [x50; x4b]%byte)) as [Hpk|Hpk].
      * rewrite bool_decide_eq_true_2 by done. done.
      * rewrite bool_decide_eq_false_2 by done.
        split; [by destruct (bool_decide _) | tauto].
  - destruct (Nat.ltb_spec (length xls_data) 8) as [Hl|Hl].
    + split; [done|]. intros H. apply (f_equal length) in H.
      rewrite length_take in H. change (length OLE2) with 8 in H. lia.
    + destruct (decide (take 2 xls_data = [x50; x4b]%byte)) as [Hpk|Hpk].
      * rewrite bool_decide_eq_true_2 by done. split; [done|].
        intros H. apply (f_equal (take 2)) in H. rewrite take_take in H.
        simpl in H. rewrite Hpk in H. discriminate H.
      * rewrite bool_decide_eq_false_2 by done.
        destruct (decide (take 8 xls_data = OLE2)).
        -- by rewrite bool_decide_eq_true_2.
        -- by rewrite bool_decide_eq_false_2.
  - intros rest Hl. rewrite length_app.
    destruct (Nat.ltb_spec (length xls_data) 8) as [?|_]; [lia|].
    destruct (Nat.ltb_spec (length xls_data + length rest) 8) as [?|_]; [lia|].
    by rewrite !take_app_le by lia.
Qed.

Lemma detect_excel_format_spec_witness :
  length ([x50; x4b; x03; x04]%byte : bytes) < 8 /\
  detect_excel_format [x50; x4b; x03; x04]%byte = None.
Proof.
  assert (H : length ([x50; x4b; x03; x04]%byte : bytes) < 8) by (simpl; lia).
  split; [exact H|].
  destruct (detect_excel_format_spec [x50; x4b; x03; x04]%byte) as [Hshort _].
  exact (Hshort H).
Defined.

(** ** Reading *)

Section read_proofs.
Variable read_excel : bytes -> option engine -> outcome DataFrame.
Variable xlrd_available : bool.

Local Abbreviation read_sheet := (Parse.read_sheet read_excel xlrd_available).

Lemma read_sheet_cases (xls_data : bytes) :
  exists engine,
    (engine = Some openpyxl -> detect_excel_format xls_data = Some xlsx) /\
    (engine = Some xlrd ->
       detect_excel_format xls_data = Some xls /\ xlrd_available = true) /\
    read_sheet xls_data =
    match read_excel xls_data engine with
    | Return df => Return df
    | Raise e => read_excel xls_data None
    end.
Proof.
  unfold Parse.read_sheet. cbv zeta.
  destruct (detect_excel_format xls_data) as [[]|] eqn:Hf.
  - exists (Some openpyxl). split; [done|]. split; [done|].
    destruct (read_excel xls_data (Some openpyxl)); simpl; [done|].
    by destruct (read_excel xls_data None).
  - destruct xlrd_available eqn:Hx.
    + exists (Some xlrd). split; [done|]. split; [done|].
      destruct (read_excel xls_data (Some xlrd)); simpl; [done|].
      by destruct (read_excel xls_data None).
    + exists None. split; [done|]. split; [done|].
      by destruct (read_excel xls_data None).
  - exists None. split; [done|]. split; [done|].
    by destruct (read_excel xls_data None).
Qed.
End read_proofs.

(** X12. The two attempts to read a blob. A frame that [read_sheet] returns
    is the frame [pd.read_excel] gave with the engine of the detected format
    ([openpyxl] for [xlsx]; [xlrd] for [xls], and only when [xlrd] can be
    imported) or with automatic detection; a blob that automatic detection
    can read is read; and the exception that comes out of [read_sheet] is
    always the one of the attempt with automatic detection. *)
Theorem read_sheet_attempts
    (read_excel : bytes -> option engine -> outcome DataFrame)
    (xlrd_available : bool) (xls_data : bytes) :
  (forall df, read_sheet read_excel xlrd_available xls_data = Return df ->
     exists engine,
       read_excel xls_data engine = Return df /\
       (engine = Some openpyxl -> detect_excel_format xls_data = Some xlsx) /\
       (engine = Some xlrd ->
          detect_excel_format xls_data = Some xls /\ xlrd_available = true)) /\
  (forall df, read_excel xls_data None = Return df ->
     exists df', read_sheet read_excel xlrd_available xls_data = Return df') /\
  (forall e, read_sheet read_excel xlrd_available xls_data = Raise e ->
     read_excel xls_data None = Raise e).
Proof.
  destruct (read_sheet_cases read_excel xlrd_available xls_data)
    as (engine & H1 & H2 & ->).
  split; [|split].
  - intros df H. destruct (read_excel xls_data engine) as [df'|e] eqn:He.
    + injection H as <-. by exists engine.
    + exists None. done.
  - intros df H. destruct (read_excel xls_data engine) as [df'|e]; [by exists df'|].
    exists df. done.
  - intros e H. by destruct (read_excel xls_data engine).
Qed.

Lemma read_sheet_attempts_witness :
  read_auto_only xlsx_blob None = Return echo_sheet /\
  exists df', read_sheet read_auto_only true xlsx_blob = Return df'.
Proof.
  split; [reflexivity|].
  destruct (read_sheet_attempts read_auto_only true xlsx_blob) as (_ & H & _).
  exact (H echo_sheet eq_refl).
Defined.

(** ** The header *)

Lemma upper_lower_ascii (c : ascii) : upper_ascii (lower_ascii c) = upper_ascii c.
Proof. by destruct c as [[] [] [] [] [] [] [] []]. Qed.

Lemma upper_upper_ascii (c : ascii) : upper_ascii (upper_ascii c) = upper_ascii c.
Proof. by destruct c as [[] [] [] [] [] [] [] []]. Qed.

Lemma upper_lower (s : string) : upper (lower s) = upper s.
Proof. induction s as [|c s IH]; simpl; [done|]. by rewrite upper_lower_ascii, IH. Qed.

Lemma upper_upper (s : string) : upper (upper s) = upper s.
Proof. induction s as [|c s IH]; simpl; [done|]. by rewrite upper_upper_ascii, IH. Qed.

Lemma scan_cell_same_text (ind : indices) (idx : nat) (c c' : cell) :
  same_text c c' -> scan_cell ind idx c = scan_cell ind idx c'.
Proof.
  destruct c as [| |s], c' as [| |s']; simpl; try done. by intros ->.
Qed.

Lemma scan_same_text (idx : nat) (h h' : list cell) (ind : indices) :
  Forall2 same_text h h' -> scan idx h ind = scan idx h' ind.
Proof.
  intros H. revert idx ind. induction H as [|c c' h h' Hc _ IH]; intros idx ind; simpl.
  - done.
  - by rewrite (scan_cell_same_text ind idx c c' Hc), IH.
Qed.

(** X13. The header is matched without regard to the case of its letters:
    two header rows whose cells have the same text up to case give the same
    column map. So it is with a header row put in lower case or in upper
    case. *)
Theorem find_column_indices_case (header_row header_row' : list cell) :
  Forall2 same_text header_row header_row' ->
  find_column_indices header_row = find_column_indices header_row' /\
  find_column_indices (cell_lower <$> header_row) = find_column_indices header_row /\
  find_column_indices (cell_upper <$> header_row) = find_column_indices header_row.
Proof.
  intros H. unfold find_column_indices. split; [by apply scan_same_text|].
  split; symmetry; apply scan_same_text, Forall2_fmap_r, Forall_Forall2_diag, Forall_forall;
    intros [| |s] _; simpl; try done.
  - by rewrite upper_lower.
  - by rewrite upper_upper.
Qed.

Lemma find_column_indices_case_witness :
  Forall2 same_text spec_header (cell_lower <$> spec_header) /\
  find_column_indices spec_header = find_column_indices (cell_lower <$> spec_header).
Proof.
  assert (H : Forall2 same_text spec_header (cell_lower <$> spec_header))
    by (repeat constructor).
  split; [exact H|].
  exact (proj1 (find_column_indices_case spec_header (cell_lower <$> spec_header) H)).
Defined.

(** ** The records of a sheet *)

Section no_lead.
Variable isspace : ascii -> bool.

Local Abbreviation no_lead := (SheetSpec.no_lead isspace).

Lemma no_lead_lstrip (s : string) : no_lead (lstrip isspace s).
Proof.
  induction s as [|c s IH]; simpl; [done|]. destruct (isspace c) eqn:Hc; [done|].
  simpl. done.
Qed.

Lemma lstrip_no_lead (s : string) : no_lead s -> lstrip isspace s = s.
Proof. destruct s as [|c s]; simpl; [done|]. by intros ->. Qed.

Lemma no_lead_rstrip (s : string) : no_lead s -> no_lead (rstrip isspace s).
Proof.
  destruct s as [|c s]; simpl; [done|]. intros Hc. rewrite Hc, andb_false_r. done.
Qed.

Lemma rstrip_rstrip (s : string) : rstrip isspace (rstrip isspace s) = rstrip isspace s.
Proof.
  induction s as [|c s IH]; simpl; [done|].
  destruct (String.eqb (rstrip isspace s) "" && isspace c) eqn:Hb; [done|].
  simpl. by rewrite IH, Hb.
Qed.

Lemma strip_strip (s : string) : strip isspace (strip isspace s) = strip isspace s.
Proof.
  unfold strip. rewrite (lstrip_no_lead (rstrip isspace (lstrip isspace s))).
  - apply rstrip_rstrip.
  - apply no_lead_rstrip, no_lead_lstrip.
Qed.
End no_lead.

Lemma stripped_cell_text (r : list cell) (j : nat) : stripped (cell_text r j).
Proof. unfold stripped, cell_text. apply strip_strip. Qed.

Lemma str_value_spec (col_idx : option nat) (default : string) (r : list cell) :
  default <> "nan" -> stripped default ->
  str_value col_idx default r <> "nan" /\ stripped (str_value col_idx default r).
Proof.
  intros Hd Hs. unfold str_value. destruct col_idx as [j|]; [|done].
  destruct (String.eqb_spec (cell_text r j) "nan"); [done|].
  split; [done | apply stripped_cell_text].
Qed.

Lemma elem_of_sheet_records (to_numeric : string -> option Z)
    (read : outcome DataFrame) (year month : Z) (t : data_type) (rec : TradeRecord) :
  rec ∈ sheet_records to_numeric read year month t ->
  exists df title header data ci r,
    read = Return df /\ rows df = title :: header :: data /\
    commodity (find_column_indices header) = Some ci /\
    valid_commodity (cell_text r ci) = true /\
    rec = row_record to_numeric (find_column_indices header) year month t r.
Proof.
  unfold sheet_records. destruct read as [df|e]; [|by intros ?%elem_of_nil].
  destruct (rows df) as [|title [|header data]] eqn:Hrows;
    try (by intros ?%elem_of_nil).
  destruct (ncols df =? 0)%nat; [by intros ?%elem_of_nil|].
  destruct (commodity (find_column_indices header)) as [ci|] eqn:Hci;
    [|by intros ?%elem_of_nil].
  destruct (is_None (country _)); [by intros ?%elem_of_nil|]. cbn [is_None orb].
  intros (r & -> & Hr)%list_elem_of_fmap.
  apply list_elem_of_filter in Hr as [Hv _]. unfold valid_row in Hv. rewrite Hci in Hv.
  by exists df, title, header, data, ci, r.
Qed.

Lemma length_sheet_records (to_numeric : string -> option Z)
    (df : DataFrame) (year month : Z) (t : data_type) :
  length (sheet_records to_numeric (Return df) year month t) <= length (rows df) - 2.
Proof.
  unfold sheet_records. destruct (rows df) as [|title [|header data]]; simpl; try lia.
  destruct (ncols df =? 0)%nat; simpl; [lia|].
  destruct (is_None _ || is_None _); simpl; [lia|].
  rewrite length_fmap. etrans; [apply length_filter|]. rewrite length_fmap. lia.
Qed.

(** X14. What every record of a sheet has, whatever the reader and the
    number parser do: the year, the month and the series given to
    [parse_xls_file]; a commodity that passed the filter (not empty, not
    the header word, not a placeholder of a missing cell); a unit that is
    not null; no string field equal to "nan" nor with whitespace at its
    ends. A sheet gives at most one record for each row after the first
    two. *)
Theorem parse_xls_file_records
    (to_numeric : string -> option Z)
    (read_excel : bytes -> option engine -> outcome DataFrame)
    (xlrd_available : bool)
    (xls_data : bytes) (year month : Z) (t : data_type) (df : frame) :
  parse_xls_file to_numeric read_excel xlrd_available xls_data year month t = Return df ->
  (forall rec, rec ∈ df ->
     Year rec = year /\ Month rec = month /\ Type_ rec = type_text t /\
     valid_commodity (Commodity rec) = true /\
     stripped (Commodity rec) /\
     Country rec <> "nan" /\ stripped (Country rec) /\
     Port rec <> "nan" /\ stripped (Port rec) /\
     exists u, Unit rec = Some u /\ u <> "nan" /\ stripped u) /\
  (forall sheet, read_sheet read_excel xlrd_available xls_data = Return sheet ->
     length df <= length (rows sheet) - 2).
Proof.
  rewrite parse_xls_file_rowwise. intros [= <-]. split.
  - intros rec Hrec.
    apply elem_of_sheet_records in Hrec
      as (sheet & title & header & data & ci & r & _ & _ & Hci & Hv & ->).
    unfold row_record. cbn [Year Month Type_ Commodity Country Port Unit].
    rewrite Hci.
    destruct (str_value_spec (country (find_column_indices header)) "" r) as [? ?];
      [done | done |].
    destruct (str_value_spec (port (find_column_indices header)) "" r) as [? ?];
      [done | done |].
    destruct (str_value_spec (unit (find_column_indices header)) "N/A" r) as [? ?];
      [done | done |].
    repeat split; try done;
      first [by destruct t | apply stripped_cell_text | by eexists].
  - intros sheet ->. apply length_sheet_records.
Qed.

Lemma parse_xls_file_records_witness :
  parse_xls_file digits_only read_echo true [] 2021 11 import
  = Return [mk_record "RICE" "NEPAL" "" 2021 11 "Import" (Some 12%Z) (Some "N/A") None None;
            mk_record "WHEAT" "" "" 2021 11 "Import" (Some 120%Z) (Some "N/A") None None;
            mk_record "TEA" "" "" 2021 11 "Import" None (Some "N/A") None None] /\
  3 <= length (rows echo_sheet) - 2.
Proof.
  split; [reflexivity|].
  destruct (parse_xls_file_records digits_only read_echo true [] 2021 11 import _ eq_refl)
    as [_ H].
  exact (H echo_sheet eq_refl).
Defined.

End SheetProofs.

(** * Properties of parse.py: the whole run *)

Module RunProofs.
Import Parse ParseSpec ParseProofs Archive.

(** ** Cleaning, once and twice *)

Lemma clean_unit_idem (u : option string) : clean_unit (clean_unit u) = clean_unit u.
Proof.
  destruct u as [s|]; [|reflexivity].
  assert (H : clean_unit (Some s) =
              if String.eqb (strip pl_isspace s) "" || String.eqb (lower s) "nan"
              then Some "N/A" else Some s) by reflexivity.
  destruct (String.eqb (strip pl_isspace s) "" || String.eqb (lower s) "nan") eqn:Hb;
    rewrite H; [reflexivity | exact H].
Qed.

Lemma with_columns_idem (r : TradeRecord) :
  with_columns (with_columns r) = with_columns r.
Proof. unfold with_columns. simpl. by rewrite clean_unit_idem. Qed.

Lemma clean_data_fixed (df : frame) (r : TradeRecord) :
  r ∈ clean_data df -> with_columns r = r /\ all_zero r = false.
Proof.
  intros (r0 & _ & Hz & ->)%elem_of_clean_data.
  split; [apply with_columns_idem | by rewrite all_zero_with_columns].
Qed.

Lemma not_blank_fixed (u : option string) : clean_unit u = u -> ~ blank_unit u.
Proof.
  intros Hfix Hb. destruct (clean_unit_spec u) as [H _]. rewrite (H Hb) in Hfix.
  subst u. destruct Hb as [Hb|Hb]; vm_compute in Hb; discriminate Hb.
Qed.

Lemma length_remove_dups (df : frame) : length (remove_dups df) <= length df.
Proof.
  induction df as [|r df IH]; simpl; [lia|].
  destruct (decide_rel elem_of r df); simpl; lia.
Qed.

(** X15. After the cleaning no unit is null, blank, whitespace or "nan":
    every record of the result has a unit that the cleaning would leave as
    it is. The cleaning adds no record: the result is never longer than the
    input, and it is empty for an empty input. *)
Theorem clean_data_output (df : frame) :
  (forall r, r ∈ clean_data df ->
     ~ blank_unit (Unit r) /\ is_Some (Unit r) /\ with_columns r = r) /\
  length (clean_data df) <= length df.
Proof.
  split.
  - intros r Hr. destruct (clean_data_fixed df r Hr) as [Hfix _].
    assert (Hu : clean_unit (Unit r) = Unit r).
    { apply (f_equal Unit) in Hfix. exact Hfix. }
    split; [by apply not_blank_fixed|]. split; [|done].
    rewrite <- Hu. destruct (Unit r) as [s|]; simpl; [|by eexists].
    destruct (_ || _); by eexists.
  - unfold clean_data, sort, unique. rewrite merge_sort_Permutation.
    etrans; [apply length_filter|]. rewrite length_fmap. apply length_remove_dups.
Qed.

(** X16. A second cleaning repairs what the first can leave: the cleaned
    frame cleaned once more has no record twice, whatever the input, and it
    has the same records as the frame cleaned once, in sorted order. *)
Theorem clean_data_twice (df : frame) :
  NoDup (clean_data (clean_data df)) /\
  (forall r, r ∈ clean_data (clean_data df) <-> r ∈ clean_data df) /\
  Sorted record_le (clean_data (clean_data df)) /\
  length (clean_data (clean_data df)) <= length (clean_data df).
Proof.
  split; [|split; [|split]].
  - apply clean_data_NoDup. intros r Hr.
    destruct (clean_data_fixed df r Hr) as [Hfix _].
    apply (f_equal Unit) in Hfix. exact Hfix.
  - intros r. rewrite (elem_of_clean_data (clean_data df)). split.
    + intros (r1 & Hr1 & _ & ->).
      destruct (clean_data_fixed df r1 Hr1) as [-> _]. done.
    + intros Hr. destruct (clean_data_fixed df r Hr) as [Hfix Hz]. by exists r.
  - apply clean_data_sorted.
  - apply clean_data_output.
Qed.

(** ** The date range *)

Lemma col_min_spec (x : Z) (l : list Z) :
  foldr Z.min x l ∈ x :: l /\ forall y, y ∈ x :: l -> (foldr Z.min x l <= y)%Z.
Proof.
  induction l as [|z l [IH1 IH2]]; simpl.
  - split; [left|]. intros y ->%list_elem_of_singleton. lia.
  - split.
    + destruct (Z.min_spec z (foldr Z.min x l)) as [[_ ->]|[_ ->]].
      * right. left.
      * apply elem_of_cons in IH1 as [->|?]; [left | right; by right].
    + intros y Hy. assert (Hy' : y = z \/ y ∈ x :: l).
      { apply elem_of_cons in Hy as [->|Hy]; [right; left|].
        apply elem_of_cons in Hy as [->|Hy]; [by left | right; by right]. }
      destruct Hy' as [->|Hy']; [lia|]. specialize (IH2 y Hy'). lia.
Qed.

Lemma col_max_spec (x : Z) (l : list Z) :
  foldr Z.max x l ∈ x :: l /\ forall y, y ∈ x :: l -> (y <= foldr Z.max x l)%Z.
Proof.
  induction l as [|z l [IH1 IH2]]; simpl.
  - split; [left|]. intros y ->%list_elem_of_singleton. lia.
  - split.
    + destruct (Z.max_spec z (foldr Z.max x l)) as [[_ ->]|[_ ->]].
      * apply elem_of_cons in IH1 as [->|?]; [left | right; by right].
      * right. left.
    + intros y Hy. assert (Hy' : y = z \/ y ∈ x :: l).
      { apply elem_of_cons in Hy as [->|Hy]; [right; left|].
        apply elem_of_cons in Hy as [->|Hy]; [by left | right; by right]. }
      destruct Hy' as [->|Hy']; [lia|]. specialize (IH2 y Hy'). lia.
Qed.

Lemma col_min_Some (l : list Z) :
  l <> [] -> exists x, col_min l = Some x /\ x ∈ l /\ forall y, y ∈ l -> (x <= y)%Z.
Proof.
  destruct l as [|x l]; [done|]. intros _. exists (foldr Z.min x l).
  split; [done|]. apply col_min_spec.
Qed.

Lemma col_max_Some (l : list Z) :
  l <> [] -> exists x, col_max l = Some x /\ x ∈ l /\ forall y, y ∈ l -> (y <= x)%Z.
Proof.
  destruct l as [|x l]; [done|]. intros _. exists (foldr Z.max x l).
  split; [done|]. apply col_max_spec.
Qed.

Lemma fmap_not_nil {A B} (f : A -> B) (l : list A) : l <> [] -> f <$> l <> [].
Proof. by destruct l. Qed.

(** X18. The date range of the log. On a frame with at least one record
    the four values are there, the pair of the first two is the earliest
    (year, month) of the frame and the pair of the last two the latest, each
    the year and the month of some record. On an empty frame none is there. *)
Theorem date_range_spec (df : frame) :
  (df <> [] ->
   exists year_min month_min year_max month_max,
     date_range df = (Some year_min, Some month_min, Some year_max, Some month_max) /\
     (exists r, r ∈ df /\ Year r = year_min /\ Month r = month_min) /\
     (exists r, r ∈ df /\ Year r = year_max /\ Month r = month_max) /\
     forall r, r ∈ df ->
       (year_min < Year r \/ (Year r = year_min /\ month_min <= Month r))%Z /\
       (Year r < year_max \/ (Year r = year_max /\ Month r <= month_max))%Z) /\
  date_range [] = (None, None, None, None).
Proof.
  split; [|reflexivity]. intros Hne. unfold date_range. cbv zeta.
  destruct (col_min_Some (Year <$> df)) as (ymin & -> & Hin & Hle);
    [by apply fmap_not_nil|].
  destruct (col_max_Some (Year <$> df)) as (ymax & -> & Hin' & Hge);
    [by apply fmap_not_nil|].
  apply list_elem_of_fmap in Hin as (r1 & Hr1y & Hr1).
  apply list_elem_of_fmap in Hin' as (r2 & Hr2y & Hr2).
  destruct (col_min_Some (Month <$> filter (fun r => Some (Year r) = Some ymin) df))
    as (mmin & -> & Hmin & Hmle).
  { apply fmap_not_nil. intros He.
    assert (H : r1 ∈ filter (fun r => Some (Year r) = Some ymin) df)
      by (apply list_elem_of_filter; split; [by f_equal | done]).
    rewrite He in H. by apply elem_of_nil in H. }
  destruct (col_max_Some (Month <$> filter (fun r => Some (Year r) = Some ymax) df))
    as (mmax & -> & Hmax & Hmge).
  { apply fmap_not_nil. intros He.
    assert (H : r2 ∈ filter (fun r => Some (Year r) = Some ymax) df)
      by (apply list_elem_of_filter; split; [by f_equal | done]).
    rewrite He in H. by apply elem_of_nil in H. }
  exists ymin, mmin, ymax, mmax. split; [done|].
  apply list_elem_of_fmap in Hmin as (r3 & Hr3m & Hr3).
  apply list_elem_of_filter in Hr3 as [[= Hr3y] Hr3].
  apply list_elem_of_fmap in Hmax as (r4 & Hr4m & Hr4).
  apply list_elem_of_filter in Hr4 as [[= Hr4y] Hr4].
  split; [by exists r3|]. split; [by exists r4|].
  intros r Hr. split.
  - assert (Hy : (ymin <= Year r)%Z) by (apply Hle, list_elem_of_fmap; by exists r).
    destruct (decide (Year r = ymin)) as [He|?]; [|left; lia].
    right. split; [done|]. apply Hmle, list_elem_of_fmap. exists r.
    split; [done|]. apply list_elem_of_filter. split; [by f_equal | done].
  - assert (Hy : (Year r <= ymax)%Z) by (apply Hge, list_elem_of_fmap; by exists r).
    destruct (decide (Year r = ymax)) as [He|?]; [|left; lia].
    right. split; [done|]. apply Hmge, list_elem_of_fmap. exists r.
    split; [done|]. apply list_elem_of_filter. split; [by f_equal | done].
Qed.

Lemma date_range_spec_witness :
  batch_one <> [] /\
  date_range batch_one = (Some 2021%Z, Some 11%Z, Some 2021%Z, Some 11%Z).
Proof.
  assert (H : batch_one <> []) by done.
  split; [exact H|].
  destruct (date_range_spec batch_one) as [Hr _].
  destruct (Hr H) as (y1 & m1 & y2 & m2 & He & _).
  vm_compute in He |- *. exact eq_refl.
Defined.

Lemma date_range_complete (df : frame) :
  match date_range df with
  | (_, Some _, _, Some _) => df <> []
  | _ => df = []
  end.
Proof.
  destruct df as [|r df]; [reflexivity|].
  destruct (date_range_spec (r :: df)) as [H _].
  destruct (H ltac:(done)) as (? & ? & ? & ? & -> & _). done.
Qed.

(** ** The run *)

Section run_proofs.
Variable to_numeric : string -> option Z.
Variable read_excel : bytes -> option engine -> outcome DataFrame.
Variable xlrd_available : bool.
Variable ZipFile : list string -> outcome zip_archive.

Local Abbreviation process_zip_file :=
  (Archive.process_zip_file to_numeric read_excel xlrd_available ZipFile).
Local Abbreviation main :=
  (Archive.main to_numeric read_excel xlrd_available ZipFile).

Lemma concat_nil_iff (l : list frame) : concat l = [] <-> forall df, df ∈ l -> df = [].
Proof.
  induction l as [|df l IH]; simpl.
  - split; [by intros _ ? ?%elem_of_nil | done].
  - split.
    + intros [-> Hl]%app_eq_nil df' [->|Hin]%elem_of_cons; [done|]. by apply IH.
    + intros H. rewrite (H df) by left. apply IH. intros df' Hin. apply H. by right.
Qed.

Lemma merge_results_spec (results : list frame) :
  merge_results results =
  match concat results with
  | [] => None
  | _ => Some (clean_data (concat results))
  end.
Proof.
  unfold merge_results. cbv zeta.
  pose proof (concat_filter_nonempty results) as Hc.
  destruct (filter _ results) as [|df l] eqn:Hf.
  - simpl in Hc. by rewrite <- Hc.
  - rewrite <- Hc.
    assert (Hdf : df ∈ filter (fun df => is_empty df = false) results)
      by (rewrite Hf; left).
    apply list_elem_of_filter in Hdf as [Hne _].
    destruct df as [|r df]; [discriminate Hne|]. done.
Qed.

Lemma main_cases (zip_files : list (list string)) :
  main zip_files =
  match concat (process_zip_file <$> zip_files) with
  | [] => Return None
  | _ =>
      match clean_data (concat (process_zip_file <$> zip_files)) with
      | [] => Raise OtherError
      | _ => Return (Some (clean_data (concat (process_zip_file <$> zip_files))))
      end
  end.
Proof.
  unfold Archive.main, process_zip_file_wrapper. rewrite merge_results_spec.
  destruct zip_files as [|p l]; [done|].
  destruct (concat _) as [|r rs]; [done|].
  pose proof (date_range_complete (clean_data (r :: rs))) as H.
  destruct (date_range (clean_data (r :: rs))) as [[[? [?|]] ?] [?|]];
    destruct (clean_data (r :: rs)); done.
Qed.

End run_proofs.

(** X17. How the run of [parse.py] ends. It returns with nothing written
    exactly when no archive gives a record (in particular when there is no
    archive). It writes a dataset exactly when the cleaning of the records
    of all the archives, taken in the order of the archives, leaves at least
    one record, and the dataset is that cleaning. In the case that is left,
    archives that give records all of which the cleaning discards, the run
    raises at the line of the log with the date range and writes nothing. *)
Theorem main_result
    (to_numeric : string -> option Z)
    (read_excel : bytes -> option engine -> outcome DataFrame)
    (xlrd_available : bool)
    (ZipFile : list string -> outcome zip_archive)
    (zip_files : list (list string)) :
  let process_zip_file :=
    process_zip_file to_numeric read_excel xlrd_available ZipFile in
  let main := main to_numeric read_excel xlrd_available ZipFile in
  (main zip_files = Return None <->
   forall zip_path, zip_path ∈ zip_files -> process_zip_file zip_path = []) /\
  (forall out, main zip_files = Return (Some out) <->
     out = clean_data (concat (process_zip_file <$> zip_files)) /\ out <> []) /\
  ((exists e, main zip_files = Raise e) <->
     concat (process_zip_file <$> zip_files) <> [] /\
     clean_data (concat (process_zip_file <$> zip_files)) = []).
Proof.
  intros process_zip_file main. subst process_zip_file main.
  set (process_zip_file :=
         Archive.process_zip_file to_numeric read_excel xlrd_available ZipFile).
  rewrite main_cases. fold process_zip_file.
  assert (Hnil : concat (process_zip_file <$> zip_files) = [] <->
                 forall zip_path, zip_path ∈ zip_files -> process_zip_file zip_path = []).
  { rewrite concat_nil_iff. split.
    - intros H p Hp. apply H, list_elem_of_fmap. by exists p.
    - intros H df (p & -> & Hp)%list_elem_of_fmap. by apply H. }
  rewrite <- Hnil.
  assert (Hc : [] = clean_data []) by reflexivity.
  destruct (concat (process_zip_file <$> zip_files)) as [|r rs].
  - split; [done|]. split.
    + intros out. split; [done|]. intros [-> H]. done.
    + split; [by intros [e ?] | by intros [? _]].
  - destruct (clean_data (r :: rs)) as [|r' rs'] eqn:Hclean.
    + split; [done|]. split.
      * intros out. split; [done|]. intros [-> H]. done.
      * split; [done | by eexists].
    + split; [done|]. split.
      * intros out. split; [by intros [= <-] | by intros [-> _]].
      * split; [by intros [e ?] | by intros [_ ?]].
Qed.

End RunProofs.

(** * Properties of data.py *)

Module DataProofs.
Import Parse ParseSpec Data.

(** ** Sums that wrap around *)

Lemma wrap64_add_l (a b : Z) : wrap64 (wrap64 a + b) = wrap64 (a + b).
Proof.
  unfold wrap64. f_equal.
  replace ((a + 2 ^ 63) mod 2 ^ 64 - 2 ^ 63 + b + 2 ^ 63)%Z
    with ((a + 2 ^ 63) mod 2 ^ 64 + b)%Z by lia.
  rewrite Zplus_mod_idemp_l. f_equal. lia.
Qed.

Lemma wrap64_add_r (a b : Z) : wrap64 (a + wrap64 b) = wrap64 (a + b).
Proof. by rewrite (Z.add_comm a), wrap64_add_l, Z.add_comm. Qed.

Lemma wrap64_small (z : Z) : (- 2 ^ 63 <= z < 2 ^ 63)%Z -> wrap64 z = z.
Proof. intros H. unfold wrap64. rewrite Z.mod_small by lia. lia. Qed.

Lemma wrap64_sum (l : list Z) : wrap64 (sum_Z (wrap64 <$> l)) = wrap64 (sum_Z l).
Proof.
  induction l as [|z l IH]; [done|].
  change (wrap64 (wrap64 z + sum_Z (wrap64 <$> l)) = wrap64 (z + sum_Z l)).
  rewrite wrap64_add_l, <- (wrap64_add_r z (sum_Z (wrap64 <$> l))), IH.
  apply wrap64_add_r.
Qed.

Lemma sum_Z_cons (z : Z) (l : list Z) : sum_Z (z :: l) = (z + sum_Z l)%Z.
Proof. reflexivity. Qed.

Lemma sum_Z_Permutation (l1 l2 : list Z) : l1 ≡ₚ l2 -> sum_Z l1 = sum_Z l2.
Proof. induction 1; simpl; lia. Qed.

Lemma sum_Z_app (l1 l2 : list Z) : sum_Z (l1 ++ l2) = (sum_Z l1 + sum_Z l2)%Z.
Proof. induction l1 as [|z l1 IH]; simpl; lia. Qed.

(** ** Groups *)

Section group_proofs.
Context {K : Type} `{EqDecision K}.
Variable key : TradeRecord -> K.

Lemma plain_sum_cons (r : TradeRecord) (rows : frame) :
  plain_sum (r :: rows) = (fill_null 0 (USD_Value r) + plain_sum rows)%Z.
Proof. unfold plain_sum. simpl. by destruct (USD_Value r). Qed.

Lemma group_sum_cons (k : K) (r : TradeRecord) (rows : frame) :
  plain_sum (filter (fun r => key r = k) (r :: rows))
  = ((if decide (key r = k) then fill_null 0 (USD_Value r) else 0)
     + plain_sum (filter (fun r => key r = k) rows))%Z.
Proof.
  rewrite filter_cons. destruct (decide (key r = k)); [apply plain_sum_cons | by rewrite Z.add_0_l].
Qed.

Lemma sum_no_key (ks : list K) (k0 : K) (v : Z) :
  k0 ∉ ks -> sum_Z ((fun k => if decide (k0 = k) then v else 0%Z) <$> ks) = 0%Z.
Proof.
  induction ks as [|k ks IH]; [done|]. intros [Hne Hk]%not_elem_of_cons.
  rewrite fmap_cons, sum_Z_cons, decide_False, IH by done. done.
Qed.

Lemma sum_one_key (ks : list K) (k0 : K) (v : Z) :
  NoDup ks -> k0 ∈ ks ->
  sum_Z ((fun k => if decide (k0 = k) then v else 0%Z) <$> ks) = v.
Proof.
  induction ks as [|k ks IH]; intros Hnd Hin; [by apply elem_of_nil in Hin|].
  apply NoDup_cons in Hnd as [Hk Hnd]. rewrite fmap_cons, sum_Z_cons.
  destruct (decide (k0 = k)) as [->|Hne].
  - rewrite sum_no_key by done. lia.
  - apply elem_of_cons in Hin as [?|Hin]; [done|]. rewrite IH by done. lia.
Qed.

Lemma sum_Z_fmap_add {A} (f g : A -> Z) (l : list A) :
  sum_Z ((fun a => f a + g a)%Z <$> l) = (sum_Z (f <$> l) + sum_Z (g <$> l))%Z.
Proof.
  induction l as [|a l IH]; [done|]. rewrite !fmap_cons, !sum_Z_cons, IH. lia.
Qed.

Lemma sum_Z_zero {A} (l : list A) : sum_Z ((fun _ => 0%Z) <$> l) = 0%Z.
Proof. induction l as [|a l IH]; [done|]. by rewrite fmap_cons, sum_Z_cons, IH. Qed.

(** The sums of the groups add up to the sum of the column. *)
Lemma group_sums (ks : list K) (df : frame) :
  NoDup ks -> (forall r, r ∈ df -> key r ∈ ks) ->
  sum_Z ((fun k => plain_sum (filter (fun r => key r = k) df)) <$> ks) = plain_sum df.
Proof.
  intros Hnd. induction df as [|r df IH]; intros Hin.
  - exact (sum_Z_zero ks).
  - rewrite plain_sum_cons, <- IH by (intros r' Hr'; apply Hin; by right).
    rewrite <- (sum_one_key ks (key r) (fill_null 0 (USD_Value r)) Hnd) at 1
      by (apply Hin; left).
    rewrite <- sum_Z_fmap_add. f_equal. apply list_fmap_ext. intros _ k _.
    apply group_sum_cons.
Qed.

#[local] Instance total_ge_total : Total (@total_ge K).
Proof. intros a b. unfold total_ge. lia. Qed.

Lemma aggregate_Permutation (df : frame) : aggregate key df ≡ₚ group_by_sum key df.
Proof. unfold aggregate, sort_desc. apply merge_sort_Permutation. Qed.

Lemma group_by_sum_keys (df : frame) :
  (group_by_sum key df).*1 = remove_dups (key <$> df).
Proof.
  unfold group_by_sum. rewrite <- list_fmap_compose. apply list_fmap_id.
Qed.

Lemma group_by_sum_totals (df : frame) :
  (group_by_sum key df).*2
  = wrap64 <$> ((fun k => plain_sum (filter (fun r => key r = k) df))
                  <$> remove_dups (key <$> df)).
Proof. unfold group_by_sum. by rewrite <- !list_fmap_compose. Qed.

Lemma aggregate_total (df : frame) :
  wrap64 (sum_Z (aggregate key df).*2) = sum_usd df.
Proof.
  rewrite (sum_Z_Permutation _ ((group_by_sum key df).*2))
    by (apply fmap_Permutation, aggregate_Permutation).
  rewrite group_by_sum_totals, wrap64_sum, group_sums; [done | apply NoDup_remove_dups|].
  intros r Hr. apply elem_of_remove_dups, list_elem_of_fmap. by exists r.
Qed.

End group_proofs.

(** X19. What an aggregation of [data.py] holds, for any choice of the
    key columns: one row for each combination of key values that occurs in
    the frame and none for any other; in each row the sum of the USD values
    of the records with that combination, nulls skipped, as a 64-bit sum;
    the rows in descending order of the totals; and never more rows than
    records. *)
Theorem aggregate_groups {K : Type} `{EqDecision K}
    (key : TradeRecord -> K) (df : frame) :
  NoDup (aggregate key df).*1 /\
  (forall k, k ∈ (aggregate key df).*1 <-> exists r, r ∈ df /\ key r = k) /\
  (forall k v, (k, v) ∈ aggregate key df ->
     v = sum_usd (filter (fun r => key r = k) df)) /\
  Sorted total_ge (aggregate key df) /\
  length (aggregate key df) <= length df.
Proof.
  pose proof (aggregate_Permutation key df) as Hp.
  assert (Hk : (aggregate key df).*1 ≡ₚ remove_dups (key <$> df))
    by (rewrite <- group_by_sum_keys; by apply fmap_Permutation).
  split; [rewrite Hk; apply NoDup_remove_dups|].
  split.
  { intros k. rewrite Hk, elem_of_remove_dups, list_elem_of_fmap. naive_solver. }
  split.
  { intros k v Hin. rewrite Hp in Hin. unfold group_by_sum in Hin.
    apply list_elem_of_fmap in Hin as (k' & [= -> ->] & _). done. }
  split; [apply Sorted_merge_sort, total_ge_total|].
  rewrite Hp. unfold group_by_sum. rewrite length_fmap.
  etrans; [|by rewrite <- (length_fmap key df)].
  generalize (key <$> df). intros l. induction l as [|k l IH]; simpl; [lia|].
  destruct (decide_rel elem_of k l); simpl; lia.
Qed.

(** X20. No USD value is lost or counted twice by an aggregation: the
    totals of the groups add up, as a 64-bit sum, to the sum of the column,
    whatever the key columns. So two aggregations of the same frame have the
    same grand total, and where the sum of the column fits 64 bits the
    grand total is that sum. *)
Theorem aggregate_conserves_total {K1 K2 : Type} `{EqDecision K1} `{EqDecision K2}
    (key1 : TradeRecord -> K1) (key2 : TradeRecord -> K2) (df : frame) :
  wrap64 (sum_Z (aggregate key1 df).*2) = sum_usd df /\
  wrap64 (sum_Z (aggregate key1 df).*2) = wrap64 (sum_Z (aggregate key2 df).*2) /\
  ((- 2 ^ 63 <= sum_Z (omap USD_Value df) < 2 ^ 63)%Z ->
     wrap64 (sum_Z (aggregate key1 df).*2) = sum_Z (omap USD_Value df)).
Proof.
  split; [apply aggregate_total|]. split; [by rewrite !aggregate_total|].
  intros H. rewrite aggregate_total. unfold sum_usd. by apply wrap64_small.
Qed.

(** ** The years *)

Lemma available_years_Permutation (df : frame) :
  available_years df ≡ₚ remove_dups (Year <$> df).
Proof. unfold available_years. apply merge_sort_Permutation. Qed.

Lemma elem_of_available_years (df : frame) (y : Z) :
  y ∈ available_years df <-> exists r, r ∈ df /\ Year r = y.
Proof.
  rewrite available_years_Permutation, elem_of_remove_dups, list_elem_of_fmap.
  naive_solver.
Qed.

Lemma year_step_Some (df : frame) (y : Z) :
  y ∈ available_years df ->
  year_step df y =
  Some (mk_year_files y
          (aggregate commodity_key (filter (fun r => Year r = y) df))
          (aggregate country_key (filter (fun r => Year r = y) df))
          (aggregate port_key (filter (fun r => Year r = y) df))).
Proof.
  intros (r & Hr & Hy)%elem_of_available_years. unfold year_step. cbv zeta.
  assert (Hin : r ∈ filter (fun r => Year r = y) df) by (by apply list_elem_of_filter).
  destruct (filter _ df) as [|r' l]; [by apply elem_of_nil in Hin | done].
Qed.

Lemma omap_year_step (df : frame) (ys : list Z) :
  (forall y, y ∈ ys -> y ∈ available_years df) ->
  omap (year_step df) ys =
  (fun y => mk_year_files y
          (aggregate commodity_key (filter (fun r => Year r = y) df))
          (aggregate country_key (filter (fun r => Year r = y) df))
          (aggregate port_key (filter (fun r => Year r = y) df))) <$> ys.
Proof.
  induction ys as [|y ys IH]; intros H; [done|].
  change (omap (year_step df) (y :: ys))
    with (match year_step df y with
          | Some x => x :: omap (year_step df) ys
          | None => omap (year_step df) ys
          end).
  rewrite year_step_Some by (apply H; left).
  rewrite IH by (intros y' Hy'; apply H; by right). done.
Qed.

(** X21. The files of the years. Every year of the frame gets its three
    files and no other year gets any: the guard for an empty year never
    fires. The years come in ascending order, each once. In the files of a
    year the three modes have the same grand total, the sum of the USD
    values of the records of that year; and the grand totals of the years
    add up to the sum of the USD values of the whole frame, all as 64-bit
    sums. *)
Theorem year_files_spec (df : frame) :
  let years := (main df).2 in
  of_year <$> years = available_years df /\
  Sorted Z.le (available_years df) /\ NoDup (available_years df) /\
  (forall y, y ∈ available_years df <-> exists r, r ∈ df /\ Year r = y) /\
  (forall yf, yf ∈ years ->
     wrap64 (sum_Z (commodity_agg yf).*2)
       = sum_usd (filter (fun r => Year r = of_year yf) df) /\
     wrap64 (sum_Z (country_agg yf).*2)
       = sum_usd (filter (fun r => Year r = of_year yf) df) /\
     wrap64 (sum_Z (port_agg yf).*2)
       = sum_usd (filter (fun r => Year r = of_year yf) df)) /\
  wrap64 (sum_Z ((fun yf => wrap64 (sum_Z (commodity_agg yf).*2)) <$> years))
    = sum_usd df.
Proof.
  cbv zeta. unfold main. cbn [snd].
  rewrite omap_year_step by done.
  assert (Hnd : NoDup (available_years df))
    by (rewrite available_years_Permutation; apply NoDup_remove_dups).
  split; [rewrite <- list_fmap_compose; apply list_fmap_id|].
  split; [apply Sorted_merge_sort, _|]. split; [done|].
  split; [apply elem_of_available_years|]. split.
  - intros yf (y & -> & _)%list_elem_of_fmap. cbn [of_year commodity_agg country_agg port_agg].
    by rewrite !aggregate_total.
  - rewrite <- list_fmap_compose.
    assert (Hext : ((fun yf => wrap64 (sum_Z (commodity_agg yf).*2))
                      ∘ (fun y => mk_year_files y
                           (aggregate commodity_key (filter (fun r => Year r = y) df))
                           (aggregate country_key (filter (fun r => Year r = y) df))
                           (aggregate port_key (filter (fun r => Year r = y) df))))
                   <$> available_years df
                   = wrap64 <$> ((fun y => plain_sum (filter (fun r => Year r = y) df))
                                   <$> available_years df)).
    { rewrite <- list_fmap_compose. apply list_fmap_ext. intros i y _.
      cbn [compose commodity_agg]. apply aggregate_total. }
    rewrite Hext, wrap64_sum, (group_sums Year); [done | done |].
    intros r Hr. apply elem_of_available_years. by exists r.
Qed.

End DataProofs.
